(** * Resumable collection engine of beats: o365audit input and add_docker_metadata

    A shallow embedding of
      - x-pack/filebeat/input/o365audit/input.go
          (initCheckpoint, o365input.run, o365input.Run, apiEnvironment.toBeatEvent)
      - libbeat/processors/add_docker_metadata/add_docker_metadata.go
          (buildDockerMetadataProcessor, lazyCgroupCacheInit, Run,
           lookupContainerIDByPID, getProcessCgroups, getContainerIDFromCgroups)
    together with the library types these functions work on. *)

From Stdlib Require Import ZArith List String Ascii Bool Arith Lia.
Import ListNotations.

Set Warnings "-register-all".

Local Open Scope string_scope.
Local Open Scope Z_scope.

(** ** Go's time package, as far as the code uses it

    A [Time] is an instant, counted in nanoseconds; [UTC] changes the
    location a time is printed in and not the instant.  A [Duration] is an
    int64 count of nanoseconds, so unary minus wraps. *)
Module GoTime.

Definition Time := Z.
Definition Duration := Z.

Definition wrap64 (z : Z) : Z := (z + 2 ^ 63) mod 2 ^ 64 - 2 ^ 63.

Definition int64 (z : Z) : Prop := - 2 ^ 63 <= z < 2 ^ 63.

Definition neg (d : Duration) : Duration := wrap64 (- d).

Definition UTC (t : Time) : Time := t.

Definition Add (t : Time) (d : Duration) : Time := t + d.

Definition Before (t u : Time) : bool := t <? u.

Definition Second : Duration := 1000000000.
Definition Minute : Duration := 60 * Second.

(** The zero value of time.Time (January 1, year 1) lies before every
    instant the clock returns; only its being a fixed instant matters. *)
Definition zero : Time := -62135596800 * Second.

Lemma wrap64_id (z : Z) : int64 z -> wrap64 z = z.
Proof.
  unfold int64, wrap64. intros H.
  rewrite Z.mod_small; lia.
Qed.

Lemma neg_small (d : Duration) : - 2 ^ 63 < d < 2 ^ 63 -> neg d = - d.
Proof.
  intros H. unfold neg. apply wrap64_id. unfold int64. lia.
Qed.

Lemma Before_irrefl (t : Time) : Before t t = false.
Proof. unfold Before. apply Z.ltb_irrefl. Qed.

End GoTime.

(** ** Go errors

    An error value is compared with [==] by identity (errors.New and
    fmt.Errorf return pointers), printed with Error() and unwrapped with
    Unwrap(); [ident] is the identity of the value. *)
Module GoErr.

Inductive error : Type :=
| Plain (ident : nat) (text : string)
| Wrapped (ident : nat) (text : string) (inner : error).

Definition ident (e : error) : nat :=
  match e with Plain i _ | Wrapped i _ _ => i end.
Definition Error (e : error) : string :=
  match e with Plain _ t | Wrapped _ t _ => t end.
Definition Unwrap (e : error) : option error :=
  match e with Plain _ _ => None | Wrapped _ _ inner => Some inner end.

(** context.Canceled, context.DeadlineExceeded and fs.ErrNotExist are
    package-level values. *)
Definition Canceled : error := Plain 0 "context canceled".
Definition DeadlineExceeded : error := Plain 1 "context deadline exceeded".
Definition ErrNotExist : error := Plain 2 "file does not exist".

(** [a == b] on two error interfaces; [None] is nil. *)
Definition same (a b : option error) : bool :=
  match a, b with
  | None, None => true
  | Some x, Some y => Nat.eqb (ident x) (ident y)
  | _, _ => false
  end.

(** errors.Is(err, target): some error of the Unwrap chain is the target. *)
Fixpoint Is (err target : error) : bool :=
  match err with
  | Plain i _ => Nat.eqb i (ident target)
  | Wrapped i _ inner => Nat.eqb i (ident target) || Is inner target
  end.

(** errors.New(text), at a fresh identity. *)
Definition New (i : nat) (text : string) : error := Plain i text.

(** fmt.Errorf(prefix + "%w", inner), at a fresh identity. *)
Definition Errorf_w (i : nat) (prefix : string) (inner : error) : error :=
  Wrapped i (prefix ++ Error inner) inner.

End GoErr.

(** A call either returns or panics. *)
Inductive result (A : Type) : Type :=
| Ret (a : A)
| Panic.
Arguments Ret {A} a.
Arguments Panic {A}.

(** ** mapstr.M of elastic-agent-libs

    A map from string keys to values, some of which are maps again.  Keys
    with dots address nested maps: mapFind first tries the whole key, then
    splits at the first dot and descends. *)
Module Mapstr.

Inductive value : Type :=
| VNil
| VStr (s : string)
| VInt (n : Z)
| VBool (b : bool)
| VStrs (l : list string)
| VMap (m : list (string * value)).

Definition M := list (string * value).

Fixpoint lookup (k : string) (m : M) : option value :=
  match m with
  | [] => None
  | (k', v) :: rest => if String.eqb k k' then Some v else lookup k rest
  end.

(** m[k] = v *)
Fixpoint set (k : string) (v : value) (m : M) : M :=
  match m with
  | [] => [(k, v)]
  | (k', v') :: rest =>
      if String.eqb k k' then (k, v) :: rest else (k', v') :: set k v rest
  end.

(** strings.IndexRune(key, '.') *)
Definition index_dot (key : string) : option nat := String.index 0 "." key.

Definition before_dot (idx : nat) (key : string) : string := substring 0 idx key.
Definition after_dot (idx : nat) (key : string) : string :=
  substring (S idx) (String.length key - S idx) key.

Inductive mapErr : Type := ErrKeyNotFound | ErrNotMap.

(** GetValue: mapFind without createMissing, then the found value. *)
Fixpoint getValue_aux (fuel : nat) (key : string) (data : M) : value + mapErr :=
  match fuel with
  | O => inr ErrKeyNotFound
  | S fuel' =>
      match lookup key data with
      | Some v => inl v
      | None =>
          match index_dot key with
          | None => inr ErrKeyNotFound
          | Some idx =>
              match lookup (before_dot idx key) data with
              | None => inr ErrKeyNotFound
              | Some (VMap d) => getValue_aux fuel' (after_dot idx key) d
              | Some _ => inr ErrNotMap
              end
          end
      end
  end.

Definition GetValue (m : M) (key : string) : value + mapErr :=
  getValue_aux (S (String.length key)) key m.

(** Put: mapFind with createMissing, then d[k] = value.  On an error the
    map is as it was. *)
Fixpoint put_aux (fuel : nat) (key : string) (v : value) (data : M) : M + mapErr :=
  match fuel with
  | O => inr ErrKeyNotFound
  | S fuel' =>
      match lookup key data with
      | Some _ => inl (set key v data)
      | None =>
          match index_dot key with
          | None => inl (set key v data)
          | Some idx =>
              let k := before_dot idx key in
              match lookup k data with
              | None =>
                  match put_aux fuel' (after_dot idx key) v [] with
                  | inl d' => inl (set k (VMap d') data)
                  | inr e => inr e
                  end
              | Some (VMap d) =>
                  match put_aux fuel' (after_dot idx key) v d with
                  | inl d' => inl (set k (VMap d') data)
                  | inr e => inr e
                  end
              | Some _ => inr ErrNotMap
              end
          end
      end
  end.

Definition Put (m : M) (key : string) (v : value) : M * option mapErr :=
  match put_aux (S (String.length key)) key v m with
  | inl m' => (m', None)
  | inr e => (m, Some e)
  end.

Lemma lookup_set_eq (k : string) (v : value) (m : M) : lookup k (set k v m) = Some v.
Proof.
  induction m as [|[k' v'] rest IH]; simpl.
  - now rewrite String.eqb_refl.
  - destruct (String.eqb k k') eqn:E; simpl.
    + now rewrite String.eqb_refl.
    + now rewrite E.
Qed.

Lemma lookup_set_ne (k k' : string) (v : value) (m : M) :
  k <> k' -> lookup k' (set k v m) = lookup k' m.
Proof.
  intros Hne. induction m as [|[k0 v0] rest IH]; simpl.
  - destruct (String.eqb k' k) eqn:E; [apply String.eqb_eq in E; congruence | reflexivity].
  - destruct (String.eqb k k0) eqn:E; simpl.
    + apply String.eqb_eq in E. subst k0.
      destruct (String.eqb k' k) eqn:E'; [apply String.eqb_eq in E'; congruence | reflexivity].
    + destruct (String.eqb k' k0); [reflexivity | exact IH].
Qed.

End Mapstr.

(** ** libbeat's beat.Event *)
Module Beat.

Import Mapstr.

(** Modelled from the spec: beat.Event is declared in libbeat/beat and
    not embedded here.  The spec's Event "carries fields, timestamp,
    optional explicit identifier (for downstream dedup), and optional
    private metadata"; [ID] is the explicit identifier SetID stores. *)
Record Event : Type := mkEvent {
  Timestamp : GoTime.Time;
  Fields : M;
  ID : option string;
  Private : option value
}.

Definition SetID (id : string) (e : Event) : Event :=
  {| Timestamp := Timestamp e; Fields := Fields e; ID := Some id; Private := Private e |}.

(** Modelled from the spec: the accessors PutValue and GetValue of the
    event, for the field names the code passes, store to and read from the
    event's fields. *)
Definition PutValue (key : string) (v : value) (e : Event) : Event * option mapErr :=
  let '(m, err) := Put (Fields e) key v in
  ({| Timestamp := Timestamp e; Fields := m; ID := ID e; Private := Private e |}, err).

Definition GetValue (e : Event) (key : string) : value + mapErr :=
  Mapstr.GetValue (Fields e) key.

End Beat.

(** ** x-pack/filebeat/input/o365audit/input.go *)
Module O365.

Import GoTime GoErr.

Definition pluginName : string := "o365audit".
Definition fieldsPrefix : string := pluginName.

Inductive level : Type := LDebug | LInfo | LWarn | LError.

(** A call on the logger: its level and its message (format string). *)
Record logEntry : Type := mkLog { lvl : level; msg : string }.

Definition msgNoSavedState : string :=
  "No saved state found. Will fetch events for the last %v.".
Definition msgLoadFailed : string :=
  "Error loading saved state. Will fetch all retained events. " ++
  "Depending on max_retention, this can cause event loss or duplication.".
Definition msgRetentionExceeded : string :=
  "Last update exceeds the retention limit. " ++
  "Probably some events have been lost.".

(** *** The checkpoint and initCheckpoint *)
Section Checkpoint.

(** input.go reads and writes the fields Timestamp, Line and StartTime of
    the checkpoint, whose declaration is in another file of the package;
    [Rest] stands for whatever else the struct holds. *)
Variable Rest : Type.
Variable zeroRest : Rest.

Record checkpoint : Type := mkCheckpoint {
  Timestamp : Time;
  Line : Z;
  StartTime : Time;
  rest : Rest
}.

(** var cp checkpoint *)
Definition zeroCheckpoint : checkpoint :=
  {| Timestamp := GoTime.zero; Line := 0; StartTime := GoTime.zero; rest := zeroRest |}.

(** cp.Timestamp = t *)
Definition setTimestamp (t : Time) (cp : checkpoint) : checkpoint :=
  {| Timestamp := t; Line := Line cp; StartTime := StartTime cp; rest := rest cp |}.

(** cursor.Cursor: IsNew() and Unpack(&cp), which writes through the
    pointer and may fail after writing some fields. *)
Record Cursor : Type := mkCursor {
  IsNew : bool;
  Unpack : checkpoint -> checkpoint * option error
}.

Definition retentionLimit (now : Time) (maxRetention : Duration) : Time :=
  Add (UTC now) (neg maxRetention).

(** The checkpoint as it stands before the retention test of
    initCheckpoint's last if, with what was logged on the way. *)
Definition loadCheckpoint (now : Time) (c : Cursor) (maxRetention : Duration)
  : checkpoint * list logEntry :=
  let cp := zeroCheckpoint in
  let limit := retentionLimit now maxRetention in
  if IsNew c then
    (setTimestamp limit cp, [mkLog LInfo msgNoSavedState])
  else
    let '(cp, err) := Unpack c cp in
    match err with
    | Some _ => (setTimestamp limit cp, [mkLog LError msgLoadFailed])
    | None => (cp, [])
    end.

Definition initCheckpoint (now : Time) (c : Cursor) (maxRetention : Duration)
  : checkpoint * list logEntry :=
  let limit := retentionLimit now maxRetention in
  let '(cp, logged) := loadCheckpoint now c maxRetention in
  if Before (Timestamp cp) limit then
    (setTimestamp limit cp, (logged ++ [mkLog LWarn msgRetentionExceeded])%list)
  else
    (cp, logged).

(** What Load yields: the zero checkpoint for a new cursor, otherwise
    what Unpack left in it. *)
Definition loaded (c : Cursor) : checkpoint :=
  if IsNew c then zeroCheckpoint else fst (Unpack c zeroCheckpoint).

Lemma retentionLimit_minus (now : Time) (maxRetention : Duration) :
  - 2 ^ 63 < maxRetention < 2 ^ 63 ->
  retentionLimit now maxRetention = now - maxRetention.
Proof.
  intros H. unfold retentionLimit, Add, UTC.
  rewrite (neg_small _ H). lia.
Qed.

Lemma loadCheckpoint_frame (now : Time) (c : Cursor) (maxRetention : Duration) :
  let cp := fst (loadCheckpoint now c maxRetention) in
  Line cp = Line (loaded c) /\ StartTime cp = StartTime (loaded c) /\ rest cp = rest (loaded c).
Proof.
  unfold loadCheckpoint, loaded.
  destruct (IsNew c); [now cbn|].
  destruct (Unpack c zeroCheckpoint) as [cp' [err|]]; now cbn.
Qed.

(** C1. For every cursor and every maxRetention, the Timestamp of the
    checkpoint initCheckpoint returns is not before the retention limit
    now.Add(-maxRetention).  For a new cursor it is the limit (and the only
    log entry is the info "No saved state found"); when Unpack fails it is
    the limit and the failure is logged as an error; when a checkpoint was
    loaded whose Timestamp is before the limit it is set to the limit and
    the warning that events have probably been lost is logged; a loaded
    checkpoint not before the limit is returned as it is, silently.  In each
    case a checkpoint is returned: nothing aborts.  The limit is
    now - maxRetention for every maxRetention whose negation is an int64. *)
Theorem initCheckpoint_retention (now : Time) (c : Cursor) (maxRetention : Duration) :
  let limit := retentionLimit now maxRetention in
  let cp := fst (initCheckpoint now c maxRetention) in
  let logged := snd (initCheckpoint now c maxRetention) in
  Before (Timestamp cp) limit = false
  /\ (IsNew c = true ->
        Timestamp cp = limit /\ logged = [mkLog LInfo msgNoSavedState])
  /\ (forall cp' err, IsNew c = false -> Unpack c zeroCheckpoint = (cp', Some err) ->
        Timestamp cp = limit /\ logged = [mkLog LError msgLoadFailed])
  /\ (forall cp', IsNew c = false -> Unpack c zeroCheckpoint = (cp', None) ->
        Before (Timestamp cp') limit = true ->
        Timestamp cp = limit /\ logged = [mkLog LWarn msgRetentionExceeded])
  /\ (forall cp', IsNew c = false -> Unpack c zeroCheckpoint = (cp', None) ->
        Before (Timestamp cp') limit = false ->
        cp = cp' /\ logged = [])
  /\ (- 2 ^ 63 < maxRetention < 2 ^ 63 -> limit = now - maxRetention).
Proof.
  cbv zeta. unfold initCheckpoint, loadCheckpoint.
  set (limit := retentionLimit now maxRetention).
  assert (Hirr : Before limit limit = false) by apply Before_irrefl.
  destruct (IsNew c) eqn:Hnew;
    [| destruct (Unpack c zeroCheckpoint) as [cp0 [err0|]] eqn:Hun;
       [| destruct (Before (Timestamp cp0) limit) eqn:Hb ] ];
    cbn [fst snd Timestamp setTimestamp]; try rewrite Hirr;
    cbn [fst snd Timestamp setTimestamp app];
    repeat apply conj; intros;
    try discriminate;
    try (apply retentionLimit_minus; assumption);
    try assumption; try reflexivity;
    try match goal with
        | H : (_, _) = (_, _) |- _ => inversion H; subst
        end;
    try congruence; try (split; reflexivity).
Qed.

(** *** o365input.run *)

(** The fields of the configuration that input.go reads. *)
Record APIConfig : Type := mkAPIConfig {
  MaxRetention : Duration;
  ErrorRetryInterval : Duration;
  MaxRequestsPerMinute : Z;
  SetIDFromAuditRecord : bool;
  PreserveOriginalEvent : bool
}.

Record Config : Type := mkConfig {
  TenantID : list string;
  ContentType : list string;
  API : APIConfig
}.

Record stream : Type := mkStream { tenantID : string; contentType : string }.

Definition Name (s : stream) : string := tenantID s ++ "::" ++ contentType s.

(** The values of apiEnvironment; its logger, status reporter, publish
    callback and clock are handles on the surroundings. *)
Record apiEnvironment : Type := mkEnv {
  env_tenantID : string;
  env_contentType : string;
  env_config : APIConfig
}.

(** The list-blobs action is built in another file of the package. *)
Variable Action : Type.
Variable makeListBlob : checkpoint -> apiEnvironment -> Action.
Variable WithStartTime : Action -> Time -> Action.

(** What the collaborators of one call of run answer. *)
Record runEnv : Type := mkRunEnv {
  newTokenProvider : string -> option error;
  acquireToken : option error;
  pollNew : Duration -> option error;
  pollerRun : Action -> option error;
  fresh : nat;
  runNow : Time
}.

(** time.Duration(len(config.ContentType)) * time.Minute /
    time.Duration(config.API.MaxRequestsPerMinute): int64 arithmetic, and a
    division by zero panics. *)
Definition requestDelay (config : Config) : result Duration :=
  if MaxRequestsPerMinute (API config) =? 0 then Panic
  else Ret (wrap64 (Z.quot (wrap64 (Z.of_nat (List.length (ContentType config)) * Minute))
                           (MaxRequestsPerMinute (API config)))).

(** The action handed to the poller. *)
Definition startAction (start : checkpoint) (env : apiEnvironment) : Action :=
  let action := makeListBlob start env in
  if 0 <? Line start then WithStartTime action (StartTime start) else action.

Definition run (config : Config) (re : runEnv) (s : stream) (c : Cursor)
  : result (option error) * list logEntry :=
  match newTokenProvider re (tenantID s) with
  | Some err => (Ret (Some err), [])
  | None =>
      match acquireToken re with
      | Some err =>
          (Ret (Some (Errorf_w (fresh re)
             ("unable to acquire authentication token for tenant:" ++ tenantID s ++ ": ") err)), [])
      | None =>
          match requestDelay config with
          | Panic => (Panic, [])
          | Ret delay =>
              match pollNew re delay with
              | Some err =>
                  (Ret (Some (Errorf_w (fresh re) "failed to create API poller: " err)), [])
              | None =>
                  let '(start, logged) :=
                    initCheckpoint (runNow re) c (MaxRetention (API config)) in
                  let action :=
                    startAction start
                      {| env_tenantID := tenantID s;
                         env_contentType := contentType s;
                         env_config := API config |} in
                  (Ret (pollerRun re action),
                   (logged ++ [mkLog LInfo "Start fetching events"])%list)
              end
          end
      end
  end.

Lemma initCheckpoint_cases (now : Time) (c : Cursor) (maxRetention : Duration) :
  let start := fst (initCheckpoint now c maxRetention) in
  let before := fst (loadCheckpoint now c maxRetention) in
  start = before \/ start = setTimestamp (retentionLimit now maxRetention) before.
Proof.
  cbv zeta. unfold initCheckpoint.
  destruct (loadCheckpoint now c maxRetention) as [cp logged].
  destruct (Before (Timestamp cp) (retentionLimit now maxRetention)); cbn; auto.
Qed.

Lemma run_hands_startAction (config : Config) (re : runEnv) (s : stream) (c : Cursor) :
  newTokenProvider re (tenantID s) = None ->
  acquireToken re = None ->
  MaxRequestsPerMinute (API config) <> 0 ->
  (forall d, pollNew re d = None) ->
  fst (run config re s c) =
  Ret (pollerRun re
         (startAction (fst (initCheckpoint (runNow re) c (MaxRetention (API config))))
            {| env_tenantID := tenantID s;
               env_contentType := contentType s;
               env_config := API config |})).
Proof.
  intros Hp Ht Hm Hn. unfold run, requestDelay.
  rewrite Hp, Ht. apply Z.eqb_neq in Hm. rewrite Hm, Hn.
  destruct (initCheckpoint (runNow re) c (MaxRetention (API config))) as [start logged].
  reflexivity.
Qed.

(** C8. initCheckpoint assigns the Timestamp field and nothing else: in
    every branch the Line, the StartTime and every further field of the
    returned checkpoint are those of the checkpoint as loaded.  So when a
    loaded checkpoint is stale (its Timestamp before the limit) and has a
    positive Line, the returned checkpoint has the limit as Timestamp and
    still that Line, and the action run builds from it is the list-blobs
    action restarted at the loaded, stale StartTime. *)
Theorem initCheckpoint_assigns_only_Timestamp
  (now : Time) (c : Cursor) (maxRetention : Duration) :
  let limit := retentionLimit now maxRetention in
  let start := fst (initCheckpoint now c maxRetention) in
  (Line start = Line (loaded c)
   /\ StartTime start = StartTime (loaded c)
   /\ rest start = rest (loaded c))
  /\ (forall env, IsNew c = false -> snd (Unpack c zeroCheckpoint) = None ->
        Before (Timestamp (loaded c)) limit = true -> 0 < Line (loaded c) ->
        start = setTimestamp limit (loaded c)
        /\ Line start = Line (loaded c)
        /\ startAction start env
           = WithStartTime (makeListBlob start env) (StartTime (loaded c))).
Proof.
  cbv zeta. split.
  - pose proof (loadCheckpoint_frame now c maxRetention) as Hf. cbv zeta in Hf.
    destruct (initCheckpoint_cases now c maxRetention) as [-> | ->];
      [exact Hf | exact Hf].
  - intros env Hnew Herr Hstale Hline.
    assert (Hstart : fst (initCheckpoint now c maxRetention)
                     = setTimestamp (retentionLimit now maxRetention) (loaded c)).
    { unfold initCheckpoint, loadCheckpoint, loaded in *. rewrite Hnew in *.
      destruct (Unpack c zeroCheckpoint) as [cp' err]. cbn in Herr, Hstale, Hline |- *.
      subst err. rewrite Hstale. reflexivity. }
    rewrite Hstart. repeat split.
    unfold startAction. cbn [Line StartTime setTimestamp].
    apply Z.ltb_lt in Hline. now rewrite Hline.
Qed.

End Checkpoint.

Arguments Timestamp {Rest} _.
Arguments Line {Rest} _.
Arguments StartTime {Rest} _.
Arguments rest {Rest} _.
Arguments IsNew {Rest} _.
Arguments Unpack {Rest} _ _.

(** *** initCheckpoint and run on concrete cursors *)

(** A checkpoint saved eight days before [exampleNow], at line 7 of a blob. *)
Definition exampleNow : Time := 1700000000 * Second.
Definition week : Duration := 7 * 24 * 60 * Minute.

Definition staleCheckpoint : checkpoint unit :=
  {| Timestamp := exampleNow - 8 * 24 * 60 * Minute;
     Line := 7;
     StartTime := exampleNow - 9 * 24 * 60 * Minute;
     rest := tt |}.

Definition staleCursor : Cursor unit :=
  {| IsNew := false; Unpack := fun _ => (staleCheckpoint, None) |}.

Definition newCursor : Cursor unit :=
  {| IsNew := true; Unpack := fun cp => (cp, Some (Plain 30 "no state")) |}.

Definition brokenCursor : Cursor unit :=
  {| IsNew := false;
     Unpack := fun cp => (mkCheckpoint unit (Timestamp cp) 3 (StartTime cp) tt,
                          Some (Plain 31 "cannot decode timestamp")) |}.

Example initCheckpoint_stale :
  initCheckpoint unit tt exampleNow staleCursor week
  = ({| Timestamp := exampleNow - week;
        Line := 7;
        StartTime := exampleNow - 9 * 24 * 60 * Minute;
        rest := tt |},
     [mkLog LWarn msgRetentionExceeded]).
Proof. reflexivity. Qed.

Example initCheckpoint_new :
  initCheckpoint unit tt exampleNow newCursor week
  = ({| Timestamp := exampleNow - week; Line := 0; StartTime := GoTime.zero; rest := tt |},
     [mkLog LInfo msgNoSavedState]).
Proof. reflexivity. Qed.

Example initCheckpoint_broken :
  initCheckpoint unit tt exampleNow brokenCursor week
  = ({| Timestamp := exampleNow - week; Line := 3; StartTime := GoTime.zero; rest := tt |},
     [mkLog LError msgLoadFailed]).
Proof. reflexivity. Qed.

(** An action is described by the checkpoint it was made from and the
    start time it was given. *)
Definition exampleRunEnv : runEnv (checkpoint unit * option Time) :=
  {| newTokenProvider := fun _ => None;
     acquireToken := None;
     pollNew := fun _ => None;
     pollerRun := fun action =>
       match snd action with
       | Some _ => Some (Plain 40 "restarted at a start time")
       | None => None
       end;
     fresh := 50;
     runNow := exampleNow |}.

Example run_stale_cursor :
  fst (run unit tt (checkpoint unit * option Time)
         (fun cp _ => (cp, None)) (fun action t => (fst action, Some t))
         (mkConfig ["tenant"] ["Audit.General"] (mkAPIConfig week (5 * Minute) 2000 true false))
         exampleRunEnv (mkStream "tenant" "Audit.General") staleCursor)
  = Ret (Some (Plain 40 "restarted at a start time")).
Proof. reflexivity. Qed.

(** *** apiEnvironment.toBeatEvent *)

Definition errKeyNotFound : error := Plain 3 "key not found".
Definition errNotString : error := Plain 4 "value is not a string".

(** Modelled from the spec: getString is declared in another file of the
    package.  It reads the record's field [key] (the spec's
    "source-assigned identifier" and "declared creation time" are such
    fields) and fails when the field is missing or is not a string. *)
Definition getString (doc : Mapstr.M) (key : string) : string + error :=
  match Mapstr.GetValue doc key with
  | inl (Mapstr.VStr s) => inl s
  | inl _ => inr errNotString
  | inr _ => inr errKeyNotFound
  end.

Section ToBeatEvent.

(** apiDateFormats.Parse: the table of date layouts is declared elsewhere. *)
Variable parseDate : string -> Time + error.

(** Modelled from the spec: getDateKey is declared in another file of the
    package; it reads the string field and parses it as a time. *)
Definition getDateKey (doc : Mapstr.M) (key : string) : Time + error :=
  match getString doc key with
  | inl str => parseDate str
  | inr err => inr err
  end.

Definition toBeatEvent (config : APIConfig) (now : Time) (fresh : nat)
  (raw : string) (doc : Mapstr.M) : Beat.Event :=
  let '(ts, errs) :=
    match getDateKey doc "CreationTime" with
    | inl ts => (ts, [])
    | inr err => (now, [Errorf_w fresh "failed parsing CreationTime: " err])
    end in
  let b := {| Beat.Timestamp := ts;
              Beat.Fields := [(fieldsPrefix, Mapstr.VMap doc)];
              Beat.ID := None;
              Beat.Private := None |} in
  let b :=
    if SetIDFromAuditRecord config then
      match getString doc "Id" with
      | inl id => if (0 <? String.length id)%nat then Beat.SetID id b else b
      | inr _ => b
      end
    else b in
  let b :=
    if PreserveOriginalEvent config
    then fst (Beat.PutValue "event.original" (Mapstr.VStr raw) b)
    else b in
  if (0 <? List.length errs)%nat
  then fst (Beat.PutValue "error.message" (Mapstr.VStrs (List.map Error errs)) b)
  else b.

End ToBeatEvent.

(** *** o365input.Run *)

Inductive status : Type := Starting | Running | Degraded | Failed.

(** stat is ctx.StatusReporter, or noopReporter{} when that is nil. *)
Inductive reporter : Type := ContextReporter | NoopReporter.

Inductive logArg : Type := AErr (e : error) | ADur (d : Duration).

Inductive effect : Type :=
| EUpdateStatus (stat : reporter) (st : status) (message : string)
| ECallRun (i : nat)
| EPublish (event : Beat.Event)
| ELogf (l : level) (format : string) (arg : logArg)
| EWait (d : Duration).

Inductive outcome : Type :=
| Returned (err : option error)
| Looping.

(** The surroundings of one call of Run.  The cancellation context is not
    done until some observation of it and done from then on, with one
    Err(); [runResult i] is what the i-th call of inp.run returns,
    [publishResult i] what pub.Publish answers for its error event and
    [clock i] the time.Now() of that event. *)
Record World : Type := mkWorld {
  cancelAt : option (nat * error);
  runResult : nat -> option error;
  publishResult : nat -> option error;
  clock : nat -> Time;
  freshIdent : nat
}.

(** ctx.Cancelation.Err() at the k-th observation of the context. *)
Definition ctxErr (w : World) (k : nat) : option error :=
  match cancelAt w with
  | Some (n, e) => if (n <=? k)%nat then Some e else None
  | None => None
  end.

(** The error event of Run's second case. *)
Definition errorEvent (now : Time) (err : error) : Beat.Event :=
  let msg := [] in
  let msg := fst (Mapstr.Put msg "error.message" (Mapstr.VStr (Error err))) in
  let msg := fst (Mapstr.Put msg "event.kind" (Mapstr.VStr "pipeline_error")) in
  {| Beat.Timestamp := now; Beat.Fields := msg; Beat.ID := None; Beat.Private := None |}.

(** The body of the second case, for the i-th failure [err]. *)
Definition reportFailure (w : World) (stat : reporter) (retry : Duration)
  (i : nat) (err : error) : list effect :=
  ([EPublish (errorEvent (clock w i) err)]
   ++ match publishResult w i with
      | Some perr =>
          [EUpdateStatus stat Degraded ("failed to publish error: " ++ Error perr)%string;
           ELogf LError "publisher.Publish failed: %v" (AErr perr)]
      | None => []
      end
   ++ [EUpdateStatus stat Degraded (Error err);
       ELogf LError "Input failed: %v" (AErr err);
       ELogf LInfo "Restarting in %v" (ADur retry);
       EWait retry])%list.

(** The for loop of Run, entered for the i-th time at the k-th observation
    of the context.  [fuel] bounds the number of loop tests; [Looping] is a
    loop that has not returned within them. *)
Fixpoint Run_loop (fuel : nat) (w : World) (stat : reporter) (retry : Duration)
  (i k : nat) : list effect * outcome :=
  match fuel with
  | O => ([], Looping)
  | S fuel' =>
      match ctxErr w k with
      | Some _ => ([], Returned None)
      | None =>
          match runResult w i with
          | None => ([ECallRun i], Returned None)
          | Some err =>
              if Is err Canceled then ([ECallRun i], Returned None)
              else if negb (same (Some err) (ctxErr w (S k))) then
                let '(effs, out) := Run_loop fuel' w stat retry (S i) (S (S k)) in
                (((ECallRun i :: reportFailure w stat retry i err) ++ effs)%list, out)
              else
                let '(effs, out) := Run_loop fuel' w stat retry (S i) (S (S k)) in
                (ECallRun i :: effs, out)
          end
      end
  end.

Definition Run (fuel : nat) (w : World) (config : Config)
  (statusReporter : bool) (src : option stream) : list effect * outcome :=
  let stat := if statusReporter then ContextReporter else NoopReporter in
  match src with
  | None =>
      ([EUpdateStatus stat Starting "";
        EUpdateStatus stat Failed "source is not an O365 stream"],
       Returned (Some (New (freshIdent w) "source is not an O365 stream")))
  | Some _ =>
      let '(effs, out) :=
        Run_loop fuel w stat (ErrorRetryInterval (API config)) 0 0 in
      (EUpdateStatus stat Starting "" :: effs, out)
  end.

(** apiEnvironment.Report: the action that publishes the event of one
    record through env.callback and reports the outcome. *)
Definition Report (parseDate : string -> Time + error) (config : APIConfig)
  (callback : Beat.Event -> option error) (stat : reporter)
  (now : Time) (fresh : nat) (raw : string) (doc : Mapstr.M)
  : list effect * option error :=
  let event := toBeatEvent parseDate config now fresh raw doc in
  match callback event with
  | None => ([EPublish event; EUpdateStatus stat Running ""], None)
  | Some err =>
      ([EPublish event;
        EUpdateStatus stat Degraded ("failed to publish event: " ++ Error err)],
       Some err)
  end.

Definition isPublish (e : effect) : bool :=
  match e with EPublish _ => true | _ => false end.

(** The number of events handed to the publisher. *)
Definition publishes (l : list effect) : nat := List.length (List.filter isPublish l).

(** An error that stands for the cancellation of the context: it wraps
    context.Canceled, or it is the very Err() of the context, as observed
    after the context was seen not done at observation [k]. *)
Definition isCancellation (w : World) (k : nat) (err : error) : bool :=
  Is err Canceled || same (Some err) (ctxErr w (S k)).

(** *** Facts on toBeatEvent *)
Section ToBeatEventFacts.

Variable parseDate : string -> Time + error.
Variable config : APIConfig.
Variable now : Time.
Variable fresh : nat.
Variable raw : string.
Variable doc : Mapstr.M.

Let event : Beat.Event := toBeatEvent parseDate config now fresh raw doc.

Ltac by_cases_of_toBeatEvent :=
  subst event; unfold toBeatEvent;
  destruct (getDateKey parseDate doc "CreationTime") as [ts|err];
  destruct (SetIDFromAuditRecord config);
  destruct (PreserveOriginalEvent config);
  try (destruct (getString doc "Id") as [id|iderr];
       [destruct (0 <? String.length id)%nat|]).

Lemma toBeatEvent_keeps_record :
  Mapstr.lookup fieldsPrefix (Beat.Fields event) = Some (Mapstr.VMap doc).
Proof. by_cases_of_toBeatEvent; reflexivity. Qed.

Lemma getString_Id :
  getString doc "Id" =
  match Mapstr.lookup "Id" doc with
  | Some (Mapstr.VStr id) => inl id
  | Some _ => inr errNotString
  | None => inr errKeyNotFound
  end.
Proof.
  unfold getString, Mapstr.GetValue. cbn.
  destruct (Mapstr.lookup "Id" doc) as [[| s | n | b | l | m]|]; reflexivity.
Qed.

Lemma toBeatEvent_ID :
  Beat.ID event =
  if SetIDFromAuditRecord config then
    match Mapstr.lookup "Id" doc with
    | Some (Mapstr.VStr id) => if (0 <? String.length id)%nat then Some id else None
    | _ => None
    end
  else None.
Proof.
  subst event. unfold toBeatEvent. rewrite getString_Id.
  destruct (getDateKey parseDate doc "CreationTime") as [ts|err];
    destruct (SetIDFromAuditRecord config);
    destruct (PreserveOriginalEvent config);
    try reflexivity;
    destruct (Mapstr.lookup "Id" doc) as [[| s | n | b | l | m]|];
    try reflexivity;
    destruct (0 <? String.length s)%nat; reflexivity.
Qed.

(** C3. toBeatEvent is a function from a record to one event, which holds
    the parsed document under the input's name whatever the document is.
    When reading the CreationTime fails (field missing, not a string, or
    not a date), the event's Timestamp is the current time and its field
    error.message holds the text of the failure; otherwise the Timestamp is
    the parsed time and no error.message is set.  Report hands exactly that
    one event to the publisher. *)
Theorem toBeatEvent_malformed_timestamp :
  let event := toBeatEvent parseDate config now fresh raw doc in
  Mapstr.lookup fieldsPrefix (Beat.Fields event) = Some (Mapstr.VMap doc)
  /\ match getDateKey parseDate doc "CreationTime" with
     | inr err =>
         Beat.Timestamp event = now
         /\ Beat.GetValue event "error.message"
            = inl (Mapstr.VStrs ["failed parsing CreationTime: " ++ Error err])
     | inl ts =>
         Beat.Timestamp event = ts
         /\ Beat.GetValue event "error.message" = inr Mapstr.ErrKeyNotFound
     end
  /\ (forall callback stat,
        List.filter isPublish (fst (Report parseDate config callback stat now fresh raw doc))
        = [EPublish event]).
Proof.
  cbv zeta. fold event.
  split; [exact toBeatEvent_keeps_record|]. split.
  - by_cases_of_toBeatEvent; split; reflexivity.
  - intros callback stat. unfold Report. fold event.
    destruct (callback event); reflexivity.
Qed.

(** C7. The event has an explicit identifier exactly when
    SetIDFromAuditRecord is enabled and the document has a field "Id" that
    is a string of positive length, and the identifier is then that
    string; in every other case the event has no explicit identifier. *)
Theorem toBeatEvent_sets_ID (id : string) :
  let event := toBeatEvent parseDate config now fresh raw doc in
  (Beat.ID event = Some id <->
     SetIDFromAuditRecord config = true
     /\ Mapstr.lookup "Id" doc = Some (Mapstr.VStr id)
     /\ id <> "")
  /\ (Beat.ID event = None <->
        ~ (SetIDFromAuditRecord config = true
           /\ exists s, Mapstr.lookup "Id" doc = Some (Mapstr.VStr s) /\ s <> "")).
Proof.
  cbv zeta. fold event. rewrite toBeatEvent_ID.
  destruct (SetIDFromAuditRecord config).
  2:{ split; split; try discriminate; try tauto.
      - intros [H _]. discriminate.
      - intros _ [H _]. discriminate. }
  destruct (Mapstr.lookup "Id" doc) as [[| s | n | b | l | m]|];
    try (split; split; try discriminate; try tauto;
         [ intros (_ & H & _); discriminate
         | intros _ (_ & s' & H & _); discriminate ]).
  destruct s as [|c s']; cbn.
  - split; split; try discriminate; try tauto.
    + intros (_ & H & Hne). injection H as <-. congruence.
    + intros _ (_ & s' & H & Hne). injection H as <-. congruence.
  - split; split.
    + intros H. injection H as <-. repeat split; discriminate.
    + intros (_ & H & _). injection H as <-. reflexivity.
    + discriminate.
    + intros H. exfalso. apply H. split; [reflexivity|].
      exists (String c s'). split; [reflexivity | discriminate].
Qed.

End ToBeatEventFacts.

(** *** Facts on Run *)
Section RunFacts.

Variable w : World.
Variable stat : reporter.
Variable retry : Duration.

Lemma ctxErr_mono (k k' : nat) (e : error) :
  ctxErr w k = Some e -> (k <= k')%nat -> ctxErr w k' = Some e.
Proof.
  unfold ctxErr. destruct (cancelAt w) as [[n e0]|]; [|discriminate].
  destruct (n <=? k)%nat eqn:Hk; [|discriminate].
  intros He Hle. apply Nat.leb_le in Hk.
  assert (Hk' : (n <=? k')%nat = true) by (apply Nat.leb_le; lia).
  now rewrite Hk'.
Qed.

Lemma ctxErr_never (k : nat) : cancelAt w = None -> ctxErr w k = None.
Proof. unfold ctxErr. now intros ->. Qed.

Lemma same_Some_done (err : error) (k : nat) :
  same (Some err) (ctxErr w k) = true -> exists e, ctxErr w k = Some e.
Proof.
  destruct (ctxErr w k) as [e|]; [eauto | discriminate].
Qed.

Lemma publishes_app (l1 l2 : list effect) :
  publishes (l1 ++ l2) = (publishes l1 + publishes l2)%nat.
Proof. unfold publishes. now rewrite List.filter_app, List.length_app. Qed.

Lemma errorEvent_fields (now : Time) (err : error) :
  Mapstr.GetValue (Beat.Fields (errorEvent now err)) "event.kind"
  = inl (Mapstr.VStr "pipeline_error")
  /\ Mapstr.GetValue (Beat.Fields (errorEvent now err)) "error.message"
     = inl (Mapstr.VStr (Error err)).
Proof. split; reflexivity. Qed.

Lemma reportFailure_publishes_once (i : nat) (err : error) :
  List.filter isPublish (reportFailure w stat retry i err)
  = [EPublish (errorEvent (clock w i) err)].
Proof.
  unfold reportFailure. destruct (publishResult w i); reflexivity.
Qed.

Lemma reportFailure_shape (i : nat) (err : error) :
  exists middle,
    reportFailure w stat retry i err
    = (EPublish (errorEvent (clock w i) err) :: middle
       ++ [EUpdateStatus stat Degraded (Error err);
           ELogf LError "Input failed: %v" (AErr err);
           ELogf LInfo "Restarting in %v" (ADur retry);
           EWait retry])%list
    /\ match publishResult w i with
       | Some perr =>
           middle = [EUpdateStatus stat Degraded ("failed to publish error: " ++ Error perr);
                     ELogf LError "publisher.Publish failed: %v" (AErr perr)]
       | None => middle = []
       end.
Proof.
  unfold reportFailure. destruct (publishResult w i) as [perr|]; eexists; split; reflexivity.
Qed.

Lemma Run_loop_failure_step (fuel i k : nat) (err : error) :
  ctxErr w k = None ->
  runResult w i = Some err ->
  isCancellation w k err = false ->
  Run_loop (S fuel) w stat retry i k
  = (((ECallRun i :: reportFailure w stat retry i err)
      ++ fst (Run_loop fuel w stat retry (S i) (S (S k))))%list,
     snd (Run_loop fuel w stat retry (S i) (S (S k)))).
Proof.
  intros Hctx Hrun Hc. unfold isCancellation in Hc.
  apply Bool.orb_false_iff in Hc. destruct Hc as [HIs Hsame].
  cbn [Run_loop]. rewrite Hctx, Hrun, HIs, Hsame. cbn [negb].
  destruct (Run_loop fuel w stat retry (S i) (S (S k))); reflexivity.
Qed.

(** A context that is cancelled and has no deadline: when done, its Err()
    is context.Canceled. *)
Definition reportsCanceled : Prop :=
  forall n e, cancelAt w = Some (n, e) -> e = Canceled.

Lemma Is_same_ident (err target : error) :
  Nat.eqb (ident err) (ident target) = true -> Is err target = true.
Proof.
  destruct err as [i t | i t inner]; cbn; intros ->; reflexivity.
Qed.

(** For such a context the second test of the switch adds nothing: the
    cancellation errors are those that wrap context.Canceled. *)
Lemma isCancellation_reportsCanceled (k : nat) (err : error) :
  reportsCanceled -> isCancellation w k err = Is err Canceled.
Proof.
  intros Hc. unfold isCancellation, ctxErr. unfold reportsCanceled in Hc.
  destruct (Is err Canceled) eqn:HIs; [reflexivity|]. cbn [orb].
  revert Hc.
  destruct (cancelAt w) as [[n e]|]; [|reflexivity].
  intros Hc. rewrite (Hc n e eq_refl).
  destruct (n <=? S k)%nat; [|reflexivity].
  cbn [same]. destruct (Nat.eqb (ident err) (ident Canceled)) eqn:Hid; [|reflexivity].
  rewrite (Is_same_ident _ _ Hid) in HIs. discriminate.
Qed.

(** Every call of inp.run fails with an error that does not wrap
    context.Canceled. *)
Definition alwaysFails : Prop :=
  forall j, exists e, runResult w j = Some e /\ Is e Canceled = false.

Lemma Run_loop_keeps_retrying :
  cancelAt w = None -> alwaysFails ->
  forall n j k,
    snd (Run_loop n w stat retry j k) = Looping
    /\ publishes (fst (Run_loop n w stat retry j k)) = n.
Proof.
  intros Hnever Hfail. induction n as [|n IH]; intros j k; [split; reflexivity|].
  destruct (Hfail j) as (e & Hrun & HIs).
  rewrite (Run_loop_failure_step n j k e); cbn [fst snd].
  - destruct (IH (S j) (S (S k))) as [Hout Hpub]. split; [exact Hout|].
    change (ECallRun j :: reportFailure w stat retry j e)%list
      with ([ECallRun j] ++ reportFailure w stat retry j e)%list.
    rewrite !publishes_app, Hpub. unfold publishes at 2.
    rewrite reportFailure_publishes_once. reflexivity.
  - now apply ctxErr_never.
  - exact Hrun.
  - unfold isCancellation. rewrite HIs, (ctxErr_never _ Hnever). reflexivity.
Qed.

Lemma Run_loop_returns_only_when_done :
  alwaysFails ->
  forall n j k out,
    snd (Run_loop n w stat retry j k) = Returned out ->
    out = None /\ exists m e, ctxErr w m = Some e.
Proof.
  intros Hfail. induction n as [|n IH]; intros j k out; [discriminate|].
  cbn [Run_loop].
  destruct (ctxErr w k) as [e|] eqn:Hctx.
  - cbn. intros H. injection H as <-. eauto.
  - destruct (Hfail j) as (e & Hrun & HIs). rewrite Hrun, HIs.
    destruct (same (Some e) (ctxErr w (S k))) eqn:Hsame; cbn [negb];
      destruct (Run_loop n w stat retry (S j) (S (S k))) as [effs out'] eqn:Hnext;
      cbn [snd]; intros ->;
      apply (IH (S j) (S (S k))); now rewrite Hnext.
Qed.

(** One failing turn of the loop.  Let one call of inp.run, made while
    the context is not done, return an error that is not a cancellation
    error: it does not wrap
    context.Canceled and is not the context's own Err() (for a context
    that reports context.Canceled the second condition follows from the
    first, see [isCancellation_reportsCanceled]).  Then that turn
    of the loop publishes exactly one event, whose fields hold
    event.kind = "pipeline_error" and error.message = the error's text,
    calls UpdateStatus(Degraded, text), ends with the wait of the
    configured retry interval and goes on with the next loop test.  There
    is no bound on the attempts: when every call fails and the context is
    never done, the loop has not returned after any number n of turns and
    has published n error events; and whenever it does return although
    every call fails, the context is done. *)
Lemma Run_loop_reports_and_retries (fuel i k : nat) (err : error) :
  ctxErr w k = None ->
  runResult w i = Some err ->
  isCancellation w k err = false ->
  let report := reportFailure w stat retry i err in
  let next := Run_loop fuel w stat retry (S i) (S (S k)) in
  Run_loop (S fuel) w stat retry i k
  = (((ECallRun i :: report) ++ fst next)%list, snd next)
  /\ List.filter isPublish report = [EPublish (errorEvent (clock w i) err)]
  /\ Mapstr.GetValue (Beat.Fields (errorEvent (clock w i) err)) "event.kind"
     = inl (Mapstr.VStr "pipeline_error")
  /\ Mapstr.GetValue (Beat.Fields (errorEvent (clock w i) err)) "error.message"
     = inl (Mapstr.VStr (Error err))
  /\ (exists middle,
        report = (EPublish (errorEvent (clock w i) err) :: middle
                  ++ [EUpdateStatus stat Degraded (Error err);
                      ELogf LError "Input failed: %v" (AErr err);
                      ELogf LInfo "Restarting in %v" (ADur retry);
                      EWait retry])%list)
  /\ (cancelAt w = None -> alwaysFails ->
      forall n j k',
        snd (Run_loop n w stat retry j k') = Looping
        /\ publishes (fst (Run_loop n w stat retry j k')) = n)
  /\ (alwaysFails ->
      forall n j k' out,
        snd (Run_loop n w stat retry j k') = Returned out ->
        out = None /\ exists m e, ctxErr w m = Some e).
Proof.
  intros Hctx Hrun Hc. cbv zeta.
  split; [now apply Run_loop_failure_step|].
  split; [apply reportFailure_publishes_once|].
  destruct (errorEvent_fields (clock w i) err) as [Hkind Hmsg].
  split; [exact Hkind|]. split; [exact Hmsg|].
  split.
  - destruct (reportFailure_shape i err) as (middle & Heq & _). now exists middle.
  - split; [exact Run_loop_keeps_retrying | exact Run_loop_returns_only_when_done].
Qed.

(** C4. Let one call of inp.run, made while the context is not done,
    return nil or a cancellation error: context.Canceled, an error that
    wraps it, or the context's own Err().  Then Run's loop returns nil and,
    after the call, does nothing more: no event is published, no status is
    updated, nothing is logged and nothing is waited for.  Every other
    error takes the second case of the switch: it is published and
    reported as Degraded, so the two kinds of outcome are told apart.  For
    a context whose Err() is context.Canceled when it is done, the errors
    that take the second case are all those that do not wrap
    context.Canceled. *)
Theorem Run_loop_stops_on_cancellation (fuel i k : nat) :
  ctxErr w k = None ->
  (runResult w i = None
   -> Run_loop (S (S fuel)) w stat retry i k = ([ECallRun i], Returned None))
  /\ (runResult w i = Some Canceled
      -> Run_loop (S (S fuel)) w stat retry i k = ([ECallRun i], Returned None))
  /\ (forall err, runResult w i = Some err ->
        (isCancellation w k err = true ->
           Run_loop (S (S fuel)) w stat retry i k = ([ECallRun i], Returned None))
        /\ (isCancellation w k err = false ->
              publishes (reportFailure w stat retry i err) = 1%nat
              /\ exists rest,
                   fst (Run_loop (S (S fuel)) w stat retry i k)
                   = (ECallRun i :: reportFailure w stat retry i err ++ rest)%list))
  /\ (reportsCanceled ->
      forall err, runResult w i = Some err -> Is err Canceled = false ->
        exists rest,
          fst (Run_loop (S (S fuel)) w stat retry i k)
          = (ECallRun i :: reportFailure w stat retry i err ++ rest)%list).
Proof.
  intros Hctx.
  assert (Hcancel : forall err, runResult w i = Some err ->
            isCancellation w k err = true ->
            Run_loop (S (S fuel)) w stat retry i k = ([ECallRun i], Returned None)).
  { intros err Hrun Hc. unfold isCancellation in Hc.
    cbn [Run_loop]. rewrite Hctx, Hrun.
    destruct (Is err Canceled) eqn:HIs; [reflexivity|].
    cbn [orb] in Hc. rewrite Hc. cbn [negb].
    destruct (same_Some_done _ _ Hc) as (e & He).
    rewrite (ctxErr_mono (S k) (S (S k)) e He); [reflexivity | lia]. }
  assert (Hother : forall err, runResult w i = Some err ->
            isCancellation w k err = false ->
            exists rest,
              fst (Run_loop (S (S fuel)) w stat retry i k)
              = (ECallRun i :: reportFailure w stat retry i err ++ rest)%list).
  { intros err Hrun Hc.
    rewrite (Run_loop_failure_step (S fuel) i k err Hctx Hrun Hc). cbn [fst].
    eexists. rewrite <- List.app_comm_cons. reflexivity. }
  split; [|split; [|split]].
  - intros Hrun. cbn [Run_loop]. now rewrite Hctx, Hrun.
  - intros Hrun. now apply (Hcancel Canceled).
  - intros err Hrun. split; [now apply Hcancel|].
    intros Hc. split.
    + unfold publishes. now rewrite reportFailure_publishes_once.
    + now apply Hother.
  - intros Hrc err Hrun HIs. apply Hother; [exact Hrun|].
    now rewrite isCancellation_reportsCanceled.
Qed.

End RunFacts.

(** A loop that has not returned after [a] turns goes on, with more
    turns allowed, from where it stood: at its call number [i + a], two
    observations of the context later for every turn. *)
Lemma Run_loop_app (w : World) (stat : reporter) (retry : Duration) (a b : nat) :
  forall i k,
    snd (Run_loop a w stat retry i k) = Looping ->
    Run_loop (a + b) w stat retry i k
    = ((fst (Run_loop a w stat retry i k)
        ++ fst (Run_loop b w stat retry (i + a) (k + 2 * a)))%list,
       snd (Run_loop b w stat retry (i + a) (k + 2 * a))).
Proof.
  induction a as [|a IH]; intros i k H.
  - cbn [Run_loop fst Nat.add app]. rewrite !Nat.add_0_r.
    now destruct (Run_loop b w stat retry i k).
  - cbn [Nat.add]. cbn [Run_loop] in H |- *.
    destruct (ctxErr w k); [discriminate H|].
    destruct (runResult w i) as [err|]; [|discriminate H].
    destruct (Is err Canceled); [discriminate H|].
    replace (i + S a)%nat with (S i + a)%nat by lia.
    replace (k + 2 * S a)%nat with (S (S k) + 2 * a)%nat by lia.
    destruct (negb (same (Some err) (ctxErr w (S k))));
      destruct (Run_loop a w stat retry (S i) (S (S k))) as [effs out] eqn:Ha;
      cbn [snd] in H; subst out;
      rewrite (IH (S i) (S (S k))) by (now rewrite Ha);
      rewrite Ha; cbn [fst snd];
      [now rewrite <- List.app_assoc | reflexivity].
Qed.

(** C2. Let Run, on a stream, not have returned after [i] turns of its
    loop, let the context not be done at the next loop test, and let the
    next call of inp.run return an error that is not a cancellation error:
    it does not wrap context.Canceled and is not the context's own Err()
    (the two tests of the switch; for a context that reports
    context.Canceled the second follows from the first, see
    [isCancellation_reportsCanceled]).  Then Run goes on with what it did
    so far by that call and its report: the report publishes exactly one
    event, whose fields hold event.kind = "pipeline_error" and
    error.message = the error's text, calls UpdateStatus(Degraded, text),
    logs, and ends with the wait of the configured ErrorRetryInterval;
    after it Run has not returned but is at its next loop test.  There is
    no bound on the attempts: when every call fails and the context is
    never done, Run has not returned after any number n of turns and has
    published n error events; and whenever Run does return although every
    call fails, it returns nil and the context is done. *)
Theorem Run_reports_and_retries (w : World) (config : Config) (statusReporter : bool)
  (s : stream) (fuel i : nat) (err : error) :
  snd (Run i w config statusReporter (Some s)) = Looping ->
  ctxErr w (2 * i) = None ->
  runResult w i = Some err ->
  isCancellation w (2 * i) err = false ->
  let stat := if statusReporter then ContextReporter else NoopReporter in
  let retry := ErrorRetryInterval (API config) in
  let report := reportFailure w stat retry i err in
  let next := Run_loop fuel w stat retry (S i) (2 * S i) in
  Run (i + S fuel) w config statusReporter (Some s)
  = ((fst (Run i w config statusReporter (Some s)) ++ (ECallRun i :: report) ++ fst next)%list,
     snd next)
  /\ Run (S i) w config statusReporter (Some s)
     = ((fst (Run i w config statusReporter (Some s)) ++ ECallRun i :: report)%list,
        Looping)
  /\ List.filter isPublish report = [EPublish (errorEvent (clock w i) err)]
  /\ Mapstr.GetValue (Beat.Fields (errorEvent (clock w i) err)) "event.kind"
     = inl (Mapstr.VStr "pipeline_error")
  /\ Mapstr.GetValue (Beat.Fields (errorEvent (clock w i) err)) "error.message"
     = inl (Mapstr.VStr (Error err))
  /\ (exists middle,
        report = (EPublish (errorEvent (clock w i) err) :: middle
                  ++ [EUpdateStatus stat Degraded (Error err);
                      ELogf LError "Input failed: %v" (AErr err);
                      ELogf LInfo "Restarting in %v" (ADur (ErrorRetryInterval (API config)));
                      EWait (ErrorRetryInterval (API config))])%list)
  /\ (cancelAt w = None -> alwaysFails w ->
      forall n,
        snd (Run n w config statusReporter (Some s)) = Looping
        /\ publishes (fst (Run n w config statusReporter (Some s))) = n)
  /\ (alwaysFails w ->
      forall n out,
        snd (Run n w config statusReporter (Some s)) = Returned out ->
        out = None /\ exists m e, ctxErr w m = Some e).
Proof.
  intros Hloop Hctx Hrun Hc. cbv zeta.
  set (stat := if statusReporter then ContextReporter else NoopReporter).
  set (retry := ErrorRetryInterval (API config)).
  assert (HRun : forall n,
            Run n w config statusReporter (Some s)
            = (EUpdateStatus stat Starting "" :: fst (Run_loop n w stat retry 0 0),
               snd (Run_loop n w stat retry 0 0))).
  { intros n. unfold Run. fold stat retry.
    now destruct (Run_loop n w stat retry 0 0). }
  rewrite HRun in Hloop. cbn [snd] in Hloop.
  pose proof (Run_loop_failure_step w stat retry fuel i (2 * i) err Hctx Hrun Hc) as Hstep.
  pose proof (Run_loop_failure_step w stat retry 0 i (2 * i) err Hctx Hrun Hc) as Hstep0.
  replace (S (S (2 * i))) with (2 * S i)%nat in Hstep, Hstep0 by lia.
  split; [|split].
  - rewrite !HRun. cbn [fst snd].
    rewrite (Run_loop_app w stat retry i (S fuel) 0 0 Hloop).
    cbn [Nat.add fst snd]. rewrite Hstep. cbn [fst snd]. reflexivity.
  - rewrite !HRun. cbn [fst snd].
    replace (S i) with (i + 1)%nat by lia.
    rewrite (Run_loop_app w stat retry i 1 0 0 Hloop).
    cbn [Nat.add fst snd]. rewrite Hstep0. cbn [Run_loop fst snd].
    now rewrite List.app_nil_r.
  - split; [apply reportFailure_publishes_once|].
    destruct (errorEvent_fields (clock w i) err) as [Hkind Hmsg].
    split; [exact Hkind|]. split; [exact Hmsg|]. split.
    + destruct (reportFailure_shape w stat retry i err) as (middle & Heq & _).
      now exists middle.
    + split.
      * intros Hnever Hfail n. rewrite HRun. cbn [fst snd].
        destruct (Run_loop_keeps_retrying w stat retry Hnever Hfail n 0 0)%nat
          as [Hout Hpub].
        split; [exact Hout|].
        change (EUpdateStatus stat Starting "" :: fst (Run_loop n w stat retry 0 0))
          with ([EUpdateStatus stat Starting ""] ++ fst (Run_loop n w stat retry 0 0))%list.
        rewrite publishes_app, Hpub. reflexivity.
      * intros Hfail n out. rewrite HRun. cbn [snd].
        apply (Run_loop_returns_only_when_done w stat retry Hfail).
Qed.

(** *** Run on concrete surroundings *)

Definition upstreamError (i : nat) : error := Plain (10 + i) "upstream failed".

(** Every call of inp.run fails and the context is never done. *)
Definition failingWorld : World :=
  {| cancelAt := None;
     runResult := fun i => Some (upstreamError i);
     publishResult := fun _ => None;
     clock := fun i => Z.of_nat i;
     freshIdent := 100 |}.

(** The first call of inp.run is cancelled. *)
Definition cancelledWorld : World :=
  {| cancelAt := Some (1%nat, Canceled);
     runResult := fun _ => Some (Errorf_w 7 "poll: " Canceled);
     publishResult := fun _ => None;
     clock := fun i => Z.of_nat i;
     freshIdent := 100 |}.

(** The context runs into its deadline during the first call of inp.run,
    which returns the context's error. *)
Definition deadlineWorld : World :=
  {| cancelAt := Some (1%nat, DeadlineExceeded);
     runResult := fun _ => Some DeadlineExceeded;
     publishResult := fun _ => None;
     clock := fun i => Z.of_nat i;
     freshIdent := 100 |}.

Definition exampleConfig : Config :=
  {| TenantID := ["tenant"]; ContentType := ["Audit.General"];
     API := {| MaxRetention := 168 * 60 * Minute;
               ErrorRetryInterval := 5 * Minute;
               MaxRequestsPerMinute := 2000;
               SetIDFromAuditRecord := true;
               PreserveOriginalEvent := false |} |}.

Example Run_failing_twice :
  Run 2 failingWorld exampleConfig true (Some (mkStream "tenant" "Audit.General"))
  = ([EUpdateStatus ContextReporter Starting "";
      ECallRun 0;
      EPublish (errorEvent 0 (upstreamError 0));
      EUpdateStatus ContextReporter Degraded "upstream failed";
      ELogf LError "Input failed: %v" (AErr (upstreamError 0));
      ELogf LInfo "Restarting in %v" (ADur (5 * Minute));
      EWait (5 * Minute);
      ECallRun 1;
      EPublish (errorEvent 1 (upstreamError 1));
      EUpdateStatus ContextReporter Degraded "upstream failed";
      ELogf LError "Input failed: %v" (AErr (upstreamError 1));
      ELogf LInfo "Restarting in %v" (ADur (5 * Minute));
      EWait (5 * Minute)],
     Looping).
Proof. reflexivity. Qed.

Example Run_cancelled :
  Run 2 cancelledWorld exampleConfig true (Some (mkStream "tenant" "Audit.General"))
  = ([EUpdateStatus ContextReporter Starting ""; ECallRun 0], Returned None).
Proof. reflexivity. Qed.

Example Run_deadline :
  Run 2 deadlineWorld exampleConfig false (Some (mkStream "tenant" "Audit.General"))
  = ([EUpdateStatus NoopReporter Starting ""; ECallRun 0], Returned None).
Proof. reflexivity. Qed.

Lemma Run_reports_and_retries_witness :
  Run 3 failingWorld exampleConfig true (Some (mkStream "tenant" "Audit.General"))
  = ((fst (Run 1 failingWorld exampleConfig true (Some (mkStream "tenant" "Audit.General")))
      ++ (ECallRun 1
          :: reportFailure failingWorld ContextReporter (5 * Minute) 1 (upstreamError 1))
      ++ fst (Run_loop 1 failingWorld ContextReporter (5 * Minute) 2 4))%list,
     snd (Run_loop 1 failingWorld ContextReporter (5 * Minute) 2 4)).
Proof.
  exact (proj1 (Run_reports_and_retries failingWorld exampleConfig true
                  (mkStream "tenant" "Audit.General") 1 1 (upstreamError 1)
                  eq_refl eq_refl eq_refl eq_refl)).
Defined.

Lemma Run_loop_stops_on_cancellation_witness :
  ctxErr cancelledWorld 0 = None
  /\ Run_loop 2 cancelledWorld ContextReporter (5 * Minute) 0 0
     = ([ECallRun 0], Returned None).
Proof.
  refine (conj eq_refl _).
  destruct (Run_loop_stops_on_cancellation cancelledWorld ContextReporter (5 * Minute)
              0 0 0 eq_refl) as (_ & _ & Herr & _).
  exact (proj1 (Herr _ eq_refl) eq_refl).
Defined.

End O365.

(** ** The bounded metadata cache (libbeat/common.Cache) *)
Module Cache.

Import GoTime.

(** Modelled from the spec: the cache type common.Cache is declared in
    libbeat/common and not embedded here.  The spec's Cache Entry is
    "{ key, value, insertedAt }"; the keys of the processor's cache are
    PIDs and its values container ids. *)
Record entry : Type := mkEntry {
  key : Z;
  value : string;
  insertedAt : Time
}.

(** Modelled from the spec: a cache has a TTL and "an optional maximum
    entry count"; its entries are kept oldest first; its janitor is
    "independently startable/stoppable" and "runs on a fixed interval". *)
Record t : Type := mkCache {
  ttl : Duration;
  capacity : option nat;
  entries : list entry;
  janitor : option Duration
}.

Definition withEntries (c : t) (l : list entry) : t :=
  {| ttl := ttl c; capacity := capacity c; entries := l; janitor := janitor c |}.

(** Modelled from the spec: the constructor the processor calls with the
    TTL, the maximum entry count and the eviction listener; the listener's
    calls are what [sweep] returns. *)
Definition NewCacheWithRemovalListener (d : Duration) (size : nat) : t :=
  {| ttl := d; capacity := Some size; entries := []; janitor := None |}.

Definition StartJanitor (interval : Duration) (c : t) : t :=
  {| ttl := ttl c; capacity := capacity c; entries := entries c; janitor := Some interval |}.

Definition StopJanitor (c : t) : t :=
  {| ttl := ttl c; capacity := capacity c; entries := entries c; janitor := None |}.

Definition hasKey (k : Z) (e : entry) : bool := key e =? k.

(** Modelled from the spec: "Get(key) -> value, found: lookup; does not
    refresh TTL on read".  The cache is returned as it was. *)
Definition Get (k : Z) (c : t) : option string * t :=
  (option_map value (List.find (hasKey k) (entries c)), c).

(** Modelled from the spec: "Put(key, value): inserts or overwrites;
    resets that entry's age". *)
Definition Put (k : Z) (v : string) (now : Time) (c : t) : t :=
  withEntries c
    (List.filter (fun e => negb (hasKey k e)) (entries c) ++ [mkEntry k v now]).

(** An entry "older than the TTL". *)
Definition expired (c : t) (now : Time) (e : entry) : bool :=
  ttl c <? now - insertedAt e.

(** Modelled from the spec: "an optional maximum entry count triggers
    eviction of the oldest entries first when exceeded, independent of
    TTL". *)
Definition reclaim (c : t) : t :=
  match capacity c with
  | Some n => withEntries c (List.skipn (List.length (entries c) - n) (entries c))
  | None => c
  end.

(** Modelled from the spec: the janitor "sweeps all entries, evicts those
    older than TTL, and invokes a registered eviction-listener callback per
    evicted key"; the sweep also restores the capacity bound.  The second
    component lists the listener's calls. *)
Definition sweep (now : Time) (c : t) : t * list (Z * string) :=
  let dead := List.filter (expired c now) (entries c) in
  let live := List.filter (fun e => negb (expired c now e)) (entries c) in
  (reclaim (withEntries c live), List.map (fun e => (key e, value e)) dead).

(** What happens to a cache between two moments of interest: reads, and
    runs of the janitor. *)
Inductive op : Type :=
| OGet (k : Z)
| OSweep (now : Time).

Fixpoint run_ops (ops : list op) (c : t) : t * list (Z * string) :=
  match ops with
  | [] => (c, [])
  | OGet k :: ops' => run_ops ops' (snd (Get k c))
  | OSweep now :: ops' =>
      let '(c1, ev1) := sweep now c in
      let '(c2, ev2) := run_ops ops' c1 in
      (c2, (ev1 ++ ev2)%list)
  end.

(** The number of calls of the eviction listener for key [k]. *)
Definition listened (k : Z) (calls : list (Z * string)) : nat :=
  List.length (List.filter (fun kv => fst kv =? k) calls).

(** *** Facts on the cache *)

Definition noKey (k : Z) (l : list entry) : Prop :=
  forall e, In e l -> key e <> k.

(** The newest entry of the cache is the one of [k], put at [t0] with
    value [v], and no other entry has that key. *)
Definition holdsLast (k : Z) (v : string) (t0 : Time) (c : t) : Prop :=
  exists older, entries c = (older ++ [mkEntry k v t0])%list /\ noKey k older.

Lemma noKey_find (k : Z) (l : list entry) :
  noKey k l -> List.find (hasKey k) l = None.
Proof.
  induction l as [|e l IH]; intros Hno; [reflexivity|].
  cbn. unfold hasKey at 1.
  destruct (key e =? k) eqn:E.
  - apply Z.eqb_eq in E. exfalso. apply (Hno e); [now left | exact E].
  - apply IH. intros e' Hin. apply Hno. now right.
Qed.

Lemma find_app_right (k : Z) (l1 l2 : list entry) :
  noKey k l1 ->
  List.find (hasKey k) (l1 ++ l2) = List.find (hasKey k) l2.
Proof.
  induction l1 as [|e l1 IH]; intros Hno; [reflexivity|].
  cbn. unfold hasKey at 1.
  destruct (key e =? k) eqn:E.
  - apply Z.eqb_eq in E. exfalso. apply (Hno e); [now left | exact E].
  - apply IH. intros e' Hin. apply Hno. now right.
Qed.

Lemma noKey_filter (k : Z) (f : entry -> bool) (l : list entry) :
  noKey k l -> noKey k (List.filter f l).
Proof.
  intros Hno e Hin. apply List.filter_In in Hin. apply Hno, Hin.
Qed.

Lemma In_skipn (A : Type) (n : nat) (l : list A) (x : A) :
  In x (List.skipn n l) -> In x l.
Proof.
  revert l. induction n as [|n IH]; intros l Hin; [exact Hin|].
  destruct l as [|y l]; [exact Hin|]. right. now apply IH.
Qed.

Lemma noKey_skipn (k : Z) (n : nat) (l : list entry) :
  noKey k l -> noKey k (List.skipn n l).
Proof.
  intros Hno e Hin. apply Hno. now apply In_skipn with (n := n).
Qed.

Lemma listened_noKey (k : Z) (l : list entry) :
  noKey k l -> listened k (List.map (fun e => (key e, value e)) l) = 0%nat.
Proof.
  unfold listened. induction l as [|e l IH]; intros Hno; [reflexivity|].
  cbn. destruct (key e =? k) eqn:E.
  - apply Z.eqb_eq in E. exfalso. apply (Hno e); [now left | exact E].
  - apply IH. intros e' Hin. apply Hno. now right.
Qed.

Lemma listened_app (k : Z) (l1 l2 : list (Z * string)) :
  listened k (l1 ++ l2) = (listened k l1 + listened k l2)%nat.
Proof. unfold listened. now rewrite List.filter_app, List.length_app. Qed.

Lemma Put_holdsLast (k : Z) (v : string) (t0 : Time) (c : t) :
  holdsLast k v t0 (Put k v t0 c).
Proof.
  exists (List.filter (fun e => negb (hasKey k e)) (entries c)). split; [reflexivity|].
  intros e Hin. apply List.filter_In in Hin. destruct Hin as [_ Hk].
  unfold hasKey in Hk. apply Bool.negb_true_iff, Z.eqb_neq in Hk. exact Hk.
Qed.

Lemma holdsLast_Get (k : Z) (v : string) (t0 : Time) (c : t) :
  holdsLast k v t0 c -> Get k c = (Some v, c).
Proof.
  intros (older & Heq & Hno). unfold Get. rewrite Heq.
  rewrite (find_app_right k older _ Hno). cbn. unfold hasKey. cbn.
  now rewrite Z.eqb_refl.
Qed.

Lemma reclaim_holdsLast (k : Z) (v : string) (t0 : Time) (c : t) :
  capacity c <> Some 0%nat -> holdsLast k v t0 c -> holdsLast k v t0 (reclaim c).
Proof.
  intros Hcap (older & Heq & Hno). unfold reclaim.
  destruct (capacity c) as [n|]; [|now exists older].
  destruct n as [|n]; [congruence|].
  exists (List.skipn (List.length older - n) older). cbn [entries withEntries].
  split; [|now apply noKey_skipn].
  rewrite Heq, List.length_app, List.skipn_app. cbn [List.length].
  replace (List.length older + 1 - S n)%nat with (List.length older - n)%nat by lia.
  replace (List.length older - n - List.length older)%nat with 0%nat by lia.
  reflexivity.
Qed.

Lemma reclaim_noKey (k : Z) (c : t) :
  noKey k (entries c) -> noKey k (entries (reclaim c)).
Proof.
  unfold reclaim. destruct (capacity c) as [n|]; [|trivial].
  cbn [entries withEntries]. apply noKey_skipn.
Qed.

Lemma reclaim_params (c : t) :
  ttl (reclaim c) = ttl c /\ capacity (reclaim c) = capacity c
  /\ janitor (reclaim c) = janitor c.
Proof.
  unfold reclaim. destruct (capacity c) eqn:E; repeat split; cbn; auto.
Qed.

Lemma sweep_params (now : Time) (c : t) :
  ttl (fst (sweep now c)) = ttl c /\ capacity (fst (sweep now c)) = capacity c
  /\ janitor (fst (sweep now c)) = janitor c.
Proof.
  unfold sweep. cbn [fst].
  exact (reclaim_params
           (withEntries c (List.filter (fun e => negb (expired c now e)) (entries c)))).
Qed.

(** A sweep before the TTL of the newest entry has elapsed keeps it and
    does not call the listener for its key. *)
Lemma sweep_keeps (k : Z) (v : string) (t0 now : Time) (c : t) :
  capacity c <> Some 0%nat -> holdsLast k v t0 c -> now - t0 <= ttl c ->
  holdsLast k v t0 (fst (sweep now c)) /\ listened k (snd (sweep now c)) = 0%nat.
Proof.
  intros Hcap (older & Heq & Hno) Hage. unfold sweep. cbn [fst snd].
  assert (Hlive : expired c now (mkEntry k v t0) = false).
  { unfold expired. cbn. apply Z.ltb_ge. lia. }
  rewrite Heq, !List.filter_app. cbn [List.filter]. rewrite Hlive. cbn [negb].
  split.
  - apply reclaim_holdsLast; [exact Hcap|].
    eexists. split; [reflexivity|]. now apply noKey_filter.
  - rewrite List.app_nil_r. apply listened_noKey. now apply noKey_filter.
Qed.

(** A sweep after the TTL of the newest entry has elapsed removes it and
    calls the listener once for its key. *)
Lemma sweep_evicts (k : Z) (v : string) (t0 now : Time) (c : t) :
  holdsLast k v t0 c -> ttl c < now - t0 ->
  fst (Get k (fst (sweep now c))) = None /\ listened k (snd (sweep now c)) = 1%nat.
Proof.
  intros (older & Heq & Hno) Hage. unfold sweep. cbn [fst snd].
  assert (Hdead : expired c now (mkEntry k v t0) = true).
  { unfold expired. cbn. apply Z.ltb_lt. lia. }
  rewrite Heq, !List.filter_app. cbn [List.filter]. rewrite Hdead. cbn [negb].
  rewrite List.app_nil_r. split.
  - unfold Get. cbn [fst]. rewrite noKey_find; [reflexivity|].
    apply reclaim_noKey. cbn [entries withEntries]. now apply noKey_filter.
  - rewrite List.map_app, listened_app.
    rewrite listened_noKey by now apply noKey_filter.
    unfold listened. cbn. now rewrite Z.eqb_refl.
Qed.

(** Every run of the janitor among [ops] happens before the TTL of an
    entry put at [t0] has elapsed. *)
Definition withinTTL (d : Duration) (t0 : Time) (ops : list op) : Prop :=
  forall now, In (OSweep now) ops -> now - t0 <= d.

Lemma run_ops_keeps (k : Z) (v : string) (t0 : Time) (ops : list op) :
  forall c,
    capacity c <> Some 0%nat -> holdsLast k v t0 c -> withinTTL (ttl c) t0 ops ->
    holdsLast k v t0 (fst (run_ops ops c))
    /\ listened k (snd (run_ops ops c)) = 0%nat
    /\ ttl (fst (run_ops ops c)) = ttl c
    /\ capacity (fst (run_ops ops c)) = capacity c.
Proof.
  induction ops as [|[k'|now] ops IH]; intros c Hcap Hlast Hin.
  - cbn. repeat split; trivial.
  - cbn [run_ops Get snd]. apply IH; trivial.
    intros now Hnow. apply Hin. now right.
  - cbn [run_ops].
    destruct (sweep_keeps k v t0 now c Hcap Hlast) as [Hlast1 Hquiet1];
      [apply Hin; now left|].
    destruct (sweep_params now c) as (Httl & Hcapacity & _).
    destruct (sweep now c) as [c1 ev1]. cbn [fst snd] in *.
    specialize (IH c1).
    destruct (run_ops ops c1) as [c2 ev2]. cbn [fst snd] in *.
    destruct IH as (H1 & H2 & H3 & H4).
    + congruence.
    + exact Hlast1.
    + rewrite Httl. intros now' Hnow'. apply Hin. now right.
    + repeat split; try congruence.
      rewrite listened_app. lia.
Qed.

Lemma find_none_noKey (k : Z) (l : list entry) :
  List.find (hasKey k) l = None -> noKey k l.
Proof.
  intros Hfind e Hin Hk.
  pose proof (List.find_none _ _ Hfind e Hin) as Hfalse.
  unfold hasKey in Hfalse. apply Z.eqb_neq in Hfalse. contradiction.
Qed.

Lemma Get_none_iff (k : Z) (c : t) :
  fst (Get k c) = None <-> noKey k (entries c).
Proof.
  unfold Get. cbn [fst]. split.
  - intros H. apply find_none_noKey.
    destruct (List.find (hasKey k) (entries c)); [discriminate | reflexivity].
  - intros H. now rewrite noKey_find.
Qed.

Lemma noKey_Put (m k : Z) (v : string) (now : Time) (c : t) :
  m <> k -> noKey m (entries c) -> noKey m (entries (Put k v now c)).
Proof.
  intros Hne Hno e Hin. cbn [Put entries withEntries] in Hin.
  apply List.in_app_or in Hin. destruct Hin as [Hin | [<- | []]].
  - apply List.filter_In in Hin. now apply Hno.
  - cbn. congruence.
Qed.

Lemma noKey_sweep (m : Z) (now : Time) (c : t) :
  noKey m (entries c) -> noKey m (entries (fst (sweep now c))).
Proof.
  intros Hno. unfold sweep. cbn [fst]. apply reclaim_noKey.
  cbn [entries withEntries]. now apply noKey_filter.
Qed.

Lemma noKey_run_ops (m : Z) (ops : list op) :
  forall c, noKey m (entries c) -> noKey m (entries (fst (run_ops ops c))).
Proof.
  induction ops as [|[k|now] ops IH]; intros c Hno; cbn [run_ops].
  - exact Hno.
  - apply IH. exact Hno.
  - pose proof (noKey_sweep m now c Hno) as H1.
    destruct (sweep now c) as [c1 ev1]. cbn [fst] in H1.
    specialize (IH c1 H1).
    destruct (run_ops ops c1) as [c2 ev2]. exact IH.
Qed.

End Cache.

(** ** libbeat/processors/add_docker_metadata/add_docker_metadata.go *)
Module Docker.

Import GoTime GoErr.

Definition processorName : string := "add_docker_metadata".
Definition dockerContainerIDKey : string := "container.id".
Definition cgroupCacheExpiration : Duration := 5 * Minute.

(** cgroup.ErrCgroupsMissing *)
Definition ErrCgroupsMissing : error := Plain 5 "cgroups not found or unsupported by OS".

(** The result of cgroup.PathList.Flatten(): the ControllerPath of every
    entry. *)
Definition PathList := list string.

(** processors.CGReader *)
Definition CGReader := Z -> PathList * option error.

(** docker.Container, as Run reads it. *)
Record Container : Type := mkContainer {
  cID : string;
  cImage : string;
  cName : string;
  cLabels : list (string * string)
}.

(** docker.Watcher *)
Record Watcher : Type := mkWatcher {
  Start : option error;
  ContainerOf : string -> option Container
}.

(** beat.Processor: Run may return a nil event. *)
Definition Processor := Beat.Event -> option Beat.Event * option error.

Record addDockerMetadata : Type := mkProcessor {
  watcher : option Watcher;
  fields : list string;
  sourceProcessor : option Processor;
  pidFields : list string;
  cgroups : option Cache.t;
  dedot : bool;
  dockerAvailable : bool;
  cgreader : CGReader
}.

Definition withCgroups (d : addDockerMetadata) (c : option Cache.t) : addDockerMetadata :=
  {| watcher := watcher d; fields := fields d; sourceProcessor := sourceProcessor d;
     pidFields := pidFields d; cgroups := c; dedot := dedot d;
     dockerAvailable := dockerAvailable d; cgreader := cgreader d |}.

(** What the processor does to its surroundings. *)
Inductive effect : Type :=
| EReadCgroups (pid : Z) (notExist : bool)
| ECacheGet (pid : Z)
| ECachePut (pid : Z) (cid : string)
| ECacheInit
| EStartJanitor (interval : Duration)
| ESourceProcessor
| EWatcherContainer (cid : string)
| EDebug (message : string).

(** *** buildDockerMetadataProcessor *)

(** The fields of the processor's configuration that the constructor reads. *)
Record Config : Type := mkConfig {
  MatchSource : bool;
  MatchFields : list string;
  MatchPIDs : list string;
  DeDotLabels : bool
}.

(** What the collaborators of the constructor answer. *)
Record buildEnv : Type := mkBuildEnv {
  unpack : Config + error;
  watcherConstructor : Watcher + error;
  newExtractField : Processor + error;
  initCgroupPaths : CGReader + error;
  nilCGReader : CGReader;
  buildFresh : nat
}.

Definition buildDockerMetadataProcessor (env : buildEnv)
  : addDockerMetadata + error :=
  match unpack env with
  | inr err =>
      inr (Errorf_w (buildFresh env)
             ("fail to unpack the " ++ processorName ++ " configuration: ") err)
  | inl config =>
      let started : (option Watcher * bool) + error :=
        match watcherConstructor env with
        | inr _ => inl (None, false)
        | inl wt =>
            match Start wt with
            | Some err => inr (Errorf_w (buildFresh env) "failed to start watcher: " err)
            | None => inl (Some wt, true)
            end
        end in
      match started with
      | inr err => inr err
      | inl (wt, available) =>
          let source : option Processor + error :=
            if MatchSource config then
              match newExtractField env with
              | inl p => inl (Some p)
              | inr err => inr err
              end
            else inl None in
          match source with
          | inr err => inr err
          | inl sp =>
              let reader : CGReader + error :=
                match initCgroupPaths env with
                | inl r => inl r
                | inr err =>
                    if Is err ErrCgroupsMissing then inl (nilCGReader env)
                    else inr (Errorf_w (buildFresh env) "error creating cgroup reader: " err)
                end in
              match reader with
              | inr err => inr err
              | inl r =>
                  inl {| watcher := wt;
                         fields := MatchFields config;
                         sourceProcessor := sp;
                         pidFields := MatchPIDs config;
                         cgroups := None;
                         dedot := DeDotLabels config;
                         dockerAvailable := available;
                         cgreader := r |}
              end
          end
      end
  end.

(** *** lazyCgroupCacheInit *)
Definition lazyCgroupCacheInit (d : addDockerMetadata)
  : addDockerMetadata * list effect :=
  match cgroups d with
  | None =>
      (withCgroups d
         (Some (Cache.StartJanitor (5 * Second)
                  (Cache.NewCacheWithRemovalListener cgroupCacheExpiration 100))),
       [EDebug "Initializing cgroup cache"; ECacheInit; EStartJanitor (5 * Second)])
  | Some _ => (d, [])
  end.

(** *** getProcessCgroups and getContainerIDFromCgroups *)
Definition getProcessCgroups (d : addDockerMetadata) (fresh : nat) (pid : Z)
  : PathList * option error :=
  let '(paths, err) := cgreader d pid in
  match err with
  | Some e => (paths, Some (Errorf_w fresh "failed to read cgroups for pid=%v: " e))
  | None =>
      if (List.length paths =? 0)%nat then ([], Some ErrNotExist) else (paths, None)
  end.

(** The class \w of Go's regexp: [0-9A-Za-z_]. *)
Definition isWord (c : ascii) : bool :=
  let n := nat_of_ascii c in
  (((48 <=? n) && (n <=? 57)) || ((65 <=? n) && (n <=? 90))
   || ((97 <=? n) && (n <=? 122)) || (n =? 95))%nat.

(** The first [n] characters of [s], when they are word characters. *)
Fixpoint takeWords (n : nat) (s : string) : option string :=
  match n with
  | O => Some EmptyString
  | S n' =>
      match s with
      | EmptyString => None
      | String c s' =>
          if isWord c then option_map (String c) (takeWords n' s') else None
      end
  end.

(** re.FindStringSubmatch(s) for re = [\w]{64}: the leftmost match. *)
Fixpoint findContainerID (s : string) : option string :=
  match takeWords 64 s with
  | Some m => Some m
  | None =>
      match s with
      | EmptyString => None
      | String _ s' => findContainerID s'
      end
  end.

Fixpoint getContainerIDFromCgroups (paths : PathList) : string * option error :=
  match paths with
  | [] => (EmptyString, None)
  | path :: rest =>
      match findContainerID path with
      | Some m => (m, None)
      | None => getContainerIDFromCgroups rest
      end
  end.

(** Modelled from the spec: common.TryToInt is declared in libbeat/common
    and not embedded here; a PID field holds "a process ID", an integer. *)
Definition TryToInt (v : Mapstr.value) : option Z :=
  match v with
  | Mapstr.VInt n => Some n
  | _ => None
  end.

(** *** lookupContainerIDByPID *)

(** The first loop: the PIDs found in the event, up to the first one the
    cache answers for. *)
Fixpoint scanPIDFields (cache : option Cache.t) (event : Beat.Event)
  (pidfields : list string) (pids : list Z)
  : (string + list Z) * option Cache.t * list effect :=
  match pidfields with
  | [] => (inr pids, cache, [])
  | field :: rest =>
      match Beat.GetValue event field with
      | inr _ => scanPIDFields cache event rest pids
      | inl v =>
          match TryToInt v with
          | None =>
              let '(r, cache', tr) := scanPIDFields cache event rest pids in
              (r, cache', EDebug "field is not a PID" :: tr)
          | Some pid =>
              match cache with
              | None => scanPIDFields cache event rest (pids ++ [pid])
              | Some c =>
                  let '(hit, c') := Cache.Get pid c in
                  match hit with
                  | Some cid =>
                      (inl cid, Some c', [ECacheGet pid; EDebug "Using cached cgroups"])
                  | None =>
                      let '(r, cache', tr) :=
                        scanPIDFields (Some c') event rest (pids ++ [pid]) in
                      (r, cache', ECacheGet pid :: tr)
                  end
              end
          end
      end
  end.

(** The second loop, up to its first PID whose cgroups do not fail with
    fs.ErrNotExist. *)
Fixpoint readPIDs (d : addDockerMetadata) (fresh : nat) (pids : list Z)
  : option (Z * PathList) * list effect :=
  match pids with
  | [] => (None, [])
  | pid :: rest =>
      let '(paths, err) := getProcessCgroups d fresh pid in
      match err with
      | Some e =>
          if Is e ErrNotExist then
            let '(r, tr) := readPIDs d fresh rest in
            (r, EReadCgroups pid true :: tr)
          else
            (Some (pid, paths),
             [EReadCgroups pid false; EDebug "failed to get cgroups"])
      | None => (Some (pid, paths), [EReadCgroups pid false])
      end
  end.

Definition lookupContainerIDByPID (d : addDockerMetadata) (fresh : nat)
  (event : Beat.Event) (now : Time)
  : result ((string * option error) * addDockerMetadata * list effect) :=
  let '(found, cache, tr1) := scanPIDFields (cgroups d) event (pidFields d) [] in
  let d := withCgroups d cache in
  match found with
  | inl cid => Ret ((cid, None), d, tr1)
  | inr pids =>
      match readPIDs d fresh pids with
      | (None, tr2) => Ret ((EmptyString, None), d, (tr1 ++ tr2)%list)
      | (Some (pid, paths), tr2) =>
          let '(d, tr3) := lazyCgroupCacheInit d in
          let '(cid, err) := getContainerIDFromCgroups paths in
          match cgroups d with
          | None => Panic
          | Some c =>
              Ret ((cid, err),
                   withCgroups d (Some (Cache.Put pid cid now c)),
                   (tr1 ++ tr2 ++ tr3 ++ [ECachePut pid cid])%list)
          end
      end
  end.

(** *** addDockerMetadata.Run *)
Section Run.

(** common.DeDot, safemapstr.Put and mapstr.M.DeepUpdate are library
    functions that only the enrichment of a found container uses. *)
Variable DeDot : string -> string.
Variable safemapstrPut : Mapstr.M -> string -> Mapstr.value -> Mapstr.M.
Variable DeepUpdate : Mapstr.M -> Mapstr.M -> Mapstr.M.

Inductive sourceStep : Type :=
| Stop (event : option Beat.Event) (tr : list effect)
| Continue (event : Beat.Event) (cid : string) (tr : list effect)
| Crash.

(** Extract CID from the filepath contained in the "log.file.path" field. *)
Definition extractFromSource (d : addDockerMetadata) (event : Beat.Event) : sourceStep :=
  match sourceProcessor d with
  | None => Continue event EmptyString []
  | Some sp =>
      match Beat.GetValue event "log.file.path" with
      | inr _ | inl Mapstr.VNil => Continue event EmptyString []
      | inl _ =>
          let '(event', err) := sp event in
          match err with
          | Some _ =>
              Stop event'
                [ESourceProcessor;
                 EDebug "Error while extracting container ID from source path"]
          | None =>
              match event' with
              | None => Crash
              | Some ev =>
                  Continue ev
                    match Beat.GetValue ev dockerContainerIDKey with
                    | inl (Mapstr.VStr v) => v
                    | _ => EmptyString
                    end
                    [ESourceProcessor]
              end
          end
      end
  end.

(** Lookup CID from the user defined field names: the first field that
    holds a string ends the loop. *)
Fixpoint firstStringField (event : Beat.Event) (names : list string) : option string :=
  match names with
  | [] => None
  | field :: rest =>
      match Beat.GetValue event field with
      | inl (Mapstr.VStr v) => Some v
      | _ => firstStringField event rest
      end
  end.

Definition containerLabels (d : addDockerMetadata) (c : Container) : Mapstr.M :=
  List.fold_left
    (fun labels kv =>
       if dedot d
       then fst (Mapstr.Put labels (DeDot (fst kv)) (Mapstr.VStr (snd kv)))
       else safemapstrPut labels (fst kv) (Mapstr.VStr (snd kv)))
    (cLabels c) [].

Definition containerMeta (d : addDockerMetadata) (c : Container) : Mapstr.M :=
  let meta := [] in
  let meta :=
    if (0 <? List.length (cLabels c))%nat
    then fst (Mapstr.Put meta "container.labels" (Mapstr.VMap (containerLabels d c)))
    else meta in
  let meta := fst (Mapstr.Put meta "container.id" (Mapstr.VStr (cID c))) in
  let meta := fst (Mapstr.Put meta "container.image.name" (Mapstr.VStr (cImage c))) in
  fst (Mapstr.Put meta "container.name" (Mapstr.VStr (cName c))).

Definition withFields (event : Beat.Event) (m : Mapstr.M) : Beat.Event :=
  {| Beat.Timestamp := Beat.Timestamp event; Beat.Fields := m;
     Beat.ID := Beat.ID event; Beat.Private := Beat.Private event |}.

(** What Run returns (the event may be nil), the processor afterwards and
    what was done. *)
Definition RunResult : Type :=
  (option Beat.Event * option error) * addDockerMetadata * list effect.

(** The part of Run after the lookup by PID. *)
Definition enrich (d : addDockerMetadata) (event : Beat.Event) (cid : string)
  (tr : list effect) : result RunResult :=
  let cid :=
    if String.eqb cid EmptyString && (0 <? List.length (fields d))%nat then
      match firstStringField event (fields d) with
      | Some v => v
      | None => cid
      end
    else cid in
  if String.eqb cid EmptyString then Ret ((Some event, None), d, tr)
  else
    match watcher d with
    | None => Panic
    | Some wt =>
        match ContainerOf wt cid with
        | Some c =>
            Ret ((Some (withFields event (DeepUpdate (Beat.Fields event) (containerMeta d c))),
                  None), d, (tr ++ [EWatcherContainer cid])%list)
        | None =>
            Ret ((Some event, None), d,
                 (tr ++ [EWatcherContainer cid; EDebug "Container not found"])%list)
        end
    end.

Definition Run (d : addDockerMetadata) (fresh : nat) (event : Beat.Event) (now : Time)
  : result RunResult :=
  if negb (dockerAvailable d) then Ret ((Some event, None), d, [])
  else
    match extractFromSource d event with
    | Crash => Panic
    | Stop event' tr => Ret ((event', None), d, tr)
    | Continue event cid tr1 =>
        if String.eqb cid EmptyString && (0 <? List.length (pidFields d))%nat then
          match lookupContainerIDByPID d fresh event now with
          | Panic => Panic
          | Ret ((id, err), d', tr2) =>
              match err with
              | Some e =>
                  Ret ((None, Some (Errorf_w fresh "error reading container ID: " e)),
                       d', (tr1 ++ tr2)%list)
              | None =>
                  if negb (String.eqb id EmptyString) then
                    enrich d'
                      (fst (Beat.PutValue dockerContainerIDKey (Mapstr.VStr id) event))
                      id (tr1 ++ tr2)%list
                  else enrich d' event cid (tr1 ++ tr2)%list
              end
          end
        else enrich d event cid tr1
    end.

(** A sequence of Run calls on one processor, each with its event and the
    time of the call; the results of the calls are dropped. *)
Fixpoint RunAll (d : addDockerMetadata) (fresh : nat)
  (calls : list (Beat.Event * Time)) : result (addDockerMetadata * list effect) :=
  match calls with
  | [] => Ret (d, [])
  | (event, now) :: rest =>
      match Run d fresh event now with
      | Panic => Panic
      | Ret (_, d', tr) =>
          match RunAll d' fresh rest with
          | Panic => Panic
          | Ret (d'', tr') => Ret (d'', (tr ++ tr')%list)
          end
      end
  end.

(** *** Facts on Run without docker *)

Lemma build_fields (env : buildEnv) (d : addDockerMetadata) :
  buildDockerMetadataProcessor env = inl d ->
  cgroups d = None
  /\ (dockerAvailable d = true <-> exists wt, watcherConstructor env = inl wt)
  /\ (dockerAvailable d = true -> watcher d <> None).
Proof.
  unfold buildDockerMetadataProcessor.
  destruct (unpack env) as [config|e]; [|discriminate].
  destruct (watcherConstructor env) as [wt|e] eqn:Hw.
  - destruct (Start wt); [discriminate|].
    destruct (MatchSource config);
      [destruct (newExtractField env); [|discriminate]|];
      (destruct (initCgroupPaths env) as [r|e];
       [|destruct (Is e ErrCgroupsMissing); [|discriminate]]);
      intros H; injection H as <-; cbn;
      (split; [reflexivity|]); (split; [split; eauto | discriminate]).
  - destruct (MatchSource config);
      [destruct (newExtractField env); [|discriminate]|];
      (destruct (initCgroupPaths env) as [r|e'];
       [|destruct (Is e' ErrCgroupsMissing); [|discriminate]]);
      intros H; injection H as <-; cbn;
      (split; [reflexivity|]);
      (split; [split; [discriminate | intros [wt Hwt]; discriminate] | discriminate]).
Qed.

(** C10. When the watcher's constructor failed, the processor that
    buildDockerMetadataProcessor returns has dockerAvailable = false, and
    then, for every event, Run returns that event and a nil error, leaves
    the processor as it was and does nothing: no source processor, no
    cache, no cgroup read and no watcher is consulted. *)
Theorem Run_without_docker (env : buildEnv) (d : addDockerMetadata) (err : error)
  (fresh : nat) (event : Beat.Event) (now : Time) :
  buildDockerMetadataProcessor env = inl d ->
  watcherConstructor env = inr err ->
  dockerAvailable d = false
  /\ Run d fresh event now = Ret ((Some event, None), d, []).
Proof.
  intros Hbuild Hw.
  assert (Hoff : dockerAvailable d = false).
  { destruct (build_fields env d Hbuild) as (_ & Hav & _).
    destruct (dockerAvailable d); [|reflexivity].
    destruct (proj1 Hav eq_refl) as [wt Hwt]. congruence. }
  split; [exact Hoff|]. unfold Run. now rewrite Hoff.
Qed.

(** *** Facts on lookupContainerIDByPID *)

Definition isInit (e : effect) : bool :=
  match e with ECacheInit => true | _ => false end.

Definition isJanitorStart (e : effect) : bool :=
  match e with EStartJanitor _ => true | _ => false end.

Definition isRead (e : effect) : bool :=
  match e with EReadCgroups _ _ => true | _ => false end.

(** A read whose answer is not fs.ErrNotExist: one that yields cgroup
    data (or a failure that is taken for data). *)
Definition isDataRead (e : effect) : bool :=
  match e with EReadCgroups _ false => true | _ => false end.

(** A consultation of the cache or of the cgroup reader. *)
Definition isLookup (e : effect) : bool :=
  match e with ECacheGet _ | EReadCgroups _ _ => true | _ => false end.

Definition count (p : effect -> bool) (tr : list effect) : nat :=
  List.length (List.filter p tr).

Lemma count_app (p : effect -> bool) (l1 l2 : list effect) :
  count p (l1 ++ l2) = (count p l1 + count p l2)%nat.
Proof. unfold count. now rewrite List.filter_app, List.length_app. Qed.

(** The PIDs the event holds in the configured PID fields, in the order of
    the fields. *)
Fixpoint eventPIDs (event : Beat.Event) (names : list string) : list Z :=
  match names with
  | [] => []
  | field :: rest =>
      match Beat.GetValue event field with
      | inl v =>
          match TryToInt v with
          | Some pid => pid :: eventPIDs event rest
          | None => eventPIDs event rest
          end
      | inr _ => eventPIDs event rest
      end
  end.

(** d.cgroups.Get(pid), nil when there is no cache. *)
Definition cached (cache : option Cache.t) (pid : Z) : option string :=
  match cache with
  | Some c => fst (Cache.Get pid c)
  | None => None
  end.

(** The cgroups of [pid] do not exist: getProcessCgroups fails with an
    error that wraps fs.ErrNotExist. *)
Definition notExist (d : addDockerMetadata) (fresh : nat) (pid : Z) : bool :=
  match snd (getProcessCgroups d fresh pid) with
  | Some e => Is e ErrNotExist
  | None => false
  end.

Lemma filter_sub (p q : effect -> bool) (tr : list effect) :
  (forall e, p e = true -> q e = true) ->
  List.filter p tr = List.filter p (List.filter q tr).
Proof.
  intros Hsub. induction tr as [|e tr IH]; [reflexivity|].
  cbn [List.filter]. destruct (p e) eqn:Hp.
  - rewrite (Hsub e Hp). cbn [List.filter]. now rewrite Hp, IH.
  - destruct (q e); [cbn [List.filter]; now rewrite Hp|]; exact IH.
Qed.

Lemma Get_eq (c : Cache.t) (pid : Z) : Cache.Get pid c = (cached (Some c) pid, c).
Proof. reflexivity. Qed.

Lemma withCgroups_same (d : addDockerMetadata) : withCgroups d (cgroups d) = d.
Proof. now destruct d. Qed.

Lemma withCgroups_twice (d : addDockerMetadata) (a b : option Cache.t) :
  withCgroups (withCgroups d a) b = withCgroups d b.
Proof. reflexivity. Qed.

Lemma scan_miss (event : Beat.Event) (names : list string) :
  forall cache acc pids cache' tr,
    scanPIDFields cache event names acc = (inr pids, cache', tr) ->
    cache' = cache
    /\ pids = (acc ++ eventPIDs event names)%list
    /\ (forall m, In m (eventPIDs event names) -> cached cache m = None)
    /\ List.filter isRead tr = [] /\ count isInit tr = 0%nat
    /\ count isJanitorStart tr = 0%nat.
Proof.
  induction names as [|field rest IH]; intros cache acc pids cache' tr; cbn [scanPIDFields eventPIDs].
  - intros H. injection H as <- <- <-. rewrite List.app_nil_r.
    repeat split; trivial. intros m [].
  - destruct (Beat.GetValue event field) as [v|e]; [|apply IH].
    destruct (TryToInt v) as [pid|].
    + destruct cache as [c|].
      * rewrite Get_eq. destruct (cached (Some c) pid) as [cid|] eqn:Hc; [discriminate|].
        destruct (scanPIDFields (Some c) event rest (acc ++ [pid])) as [[r c1] tr1] eqn:Hs.
        intros H. injection H as -> <- <-.
        destruct (IH _ _ _ _ _ Hs) as (H1 & H2 & H3 & H4 & H5 & H6).
        rewrite <- List.app_assoc in H2.
        repeat split; trivial.
        intros m [<- | Hin]; [exact Hc | now apply H3].
      * intros Hs. destruct (IH _ _ _ _ _ Hs) as (H1 & H2 & H3 & H4 & H5 & H6).
        rewrite <- List.app_assoc in H2.
        repeat split; trivial.
    + destruct (scanPIDFields cache event rest acc) as [[r c1] tr1] eqn:Hs.
      intros H. injection H as -> <- <-.
      destruct (IH _ _ _ _ _ Hs) as (H1 & H2 & H3 & H4 & H5 & H6).
      repeat split; trivial.
Qed.

Lemma scan_hit (event : Beat.Event) (names : list string) :
  forall cache acc cid cache' tr,
    scanPIDFields cache event names acc = (inl cid, cache', tr) ->
    cache' = cache
    /\ exists missed q rest,
         eventPIDs event names = (missed ++ q :: rest)%list
         /\ (forall m, In m missed -> cached cache m = None)
         /\ cached cache q = Some cid
         /\ List.filter isLookup tr = List.map ECacheGet (missed ++ [q])
         /\ count isInit tr = 0%nat /\ count isJanitorStart tr = 0%nat.
Proof.
  induction names as [|field rest IH]; intros cache acc cid cache' tr; cbn [scanPIDFields eventPIDs].
  - discriminate.
  - destruct (Beat.GetValue event field) as [v|e]; [|apply IH].
    destruct (TryToInt v) as [pid|].
    + destruct cache as [c|].
      * rewrite Get_eq. destruct (cached (Some c) pid) as [cid0|] eqn:Hc.
        -- intros H. injection H as <- <- <-. split; [reflexivity|].
           exists [], pid, (eventPIDs event rest).
           repeat split; trivial. intros m [].
        -- destruct (scanPIDFields (Some c) event rest (acc ++ [pid])) as [[r c1] tr1] eqn:Hs.
           intros H. injection H as -> <- <-.
           destruct (IH _ _ _ _ _ Hs) as (H1 & missed & q & rest' & H2 & H3 & H4 & H5 & H6 & H7).
           split; [exact H1|].
           exists (pid :: missed), q, rest'. cbn [List.filter isLookup].
           rewrite H2, H5.
           repeat split; trivial.
           intros m [<- | Hin]; [exact Hc | now apply H3].
      * intros Hs.
        destruct (IH _ _ _ _ _ Hs) as (H1 & missed & q & rest' & H2 & H3 & H4 & H5 & H6 & H7).
        discriminate.
    + destruct (scanPIDFields cache event rest acc) as [[r c1] tr1] eqn:Hs.
      intros H. injection H as -> <- <-.
      destruct (IH _ _ _ _ _ Hs) as (H1 & missed & q & rest' & H2 & H3 & H4 & H5 & H6 & H7).
      split; [exact H1|]. exists missed, q, rest'.
      repeat split; trivial.
Qed.





Lemma getContainerIDFromCgroups_no_error (paths : PathList) :
  snd (getContainerIDFromCgroups paths) = None.
Proof.
  induction paths as [|path rest IH]; [reflexivity|].
  cbn [getContainerIDFromCgroups]. now destruct (findContainerID path).
Qed.

Lemma getProcessCgroups_withCgroups (d : addDockerMetadata) (cache : option Cache.t)
  (fresh : nat) (pid : Z) :
  getProcessCgroups (withCgroups d cache) fresh pid = getProcessCgroups d fresh pid.
Proof. reflexivity. Qed.

Lemma readPIDs_withCgroups (d : addDockerMetadata) (cache : option Cache.t)
  (fresh : nat) (pids : list Z) :
  readPIDs (withCgroups d cache) fresh pids = readPIDs d fresh pids.
Proof.
  induction pids as [|pid rest IH]; [reflexivity|].
  cbn [readPIDs]. rewrite getProcessCgroups_withCgroups, IH. reflexivity.
Qed.

(** The reads of PIDs whose cgroups do not exist. *)
Definition skippedReads (pids : list Z) : list effect :=
  List.map (fun p => EReadCgroups p true) pids.

Lemma readPIDs_none (d : addDockerMetadata) (fresh : nat) (pids : list Z) (tr : list effect) :
  readPIDs d fresh pids = (None, tr) ->
  List.forallb (notExist d fresh) pids = true
  /\ tr = skippedReads pids.
Proof.
  revert tr. induction pids as [|pid rest IH]; intros tr; cbn [readPIDs].
  - intros H. injection H as <-. now split.
  - unfold notExist at 1. cbn [List.forallb].
    destruct (getProcessCgroups d fresh pid) as [paths [e|]]; cbn [snd]; [|discriminate].
    destruct (Is e ErrNotExist); [|discriminate].
    destruct (readPIDs d fresh rest) as [r tr'].
    intros H. injection H as -> <-.
    destruct (IH tr' eq_refl) as [H1 H2]. split; [exact H1|].
    cbn. now rewrite H2.
Qed.

Lemma readPIDs_some (d : addDockerMetadata) (fresh : nat) (pids : list Z)
  (pid : Z) (paths : PathList) (tr : list effect) :
  readPIDs d fresh pids = (Some (pid, paths), tr) ->
  exists skipped rest,
    pids = (skipped ++ pid :: rest)%list
    /\ List.forallb (notExist d fresh) skipped = true
    /\ notExist d fresh pid = false
    /\ paths = fst (getProcessCgroups d fresh pid)
    /\ List.filter isRead tr = (skippedReads skipped ++ [EReadCgroups pid false])%list
    /\ count isInit tr = 0%nat /\ count isJanitorStart tr = 0%nat.
Proof.
  revert tr. induction pids as [|p rest IH]; intros tr; cbn [readPIDs]; [discriminate|].
  destruct (getProcessCgroups d fresh p) as [paths0 [e|]] eqn:Hg.
  - destruct (Is e ErrNotExist) eqn:HIs.
    + destruct (readPIDs d fresh rest) as [r tr'].
      intros H. injection H as -> <-.
      destruct (IH tr' eq_refl) as (skipped & rest' & H1 & H2 & H3 & H4 & H5 & H6 & H7).
      exists (p :: skipped), rest'. cbn [List.forallb].
      unfold notExist at 1. rewrite Hg. cbn [snd]. rewrite HIs, H2.
      subst rest. repeat split; trivial.
      cbn. now rewrite H5.
    + intros H. injection H as <- <- <-.
      exists [], rest. unfold notExist. rewrite Hg. cbn [snd fst]. rewrite HIs.
      repeat split; trivial.
  - intros H. injection H as <- <- <-.
    exists [], rest. unfold notExist. rewrite Hg. cbn [snd fst].
    repeat split; trivial.
Qed.

(** The cache as lazyCgroupCacheInit creates it. *)
Definition newCgroupCache : Cache.t :=
  Cache.StartJanitor (5 * Second)
    (Cache.NewCacheWithRemovalListener cgroupCacheExpiration 100).

(** The cache the processor holds, or the new one. *)
Definition cacheOrNew (d : addDockerMetadata) : Cache.t :=
  match cgroups d with
  | Some c => c
  | None => newCgroupCache
  end.

(** The three ways lookupContainerIDByPID ends. *)
Inductive lookupCase (d : addDockerMetadata) (fresh : nat) (event : Beat.Event)
  (now : Time) : (string * option error) * addDockerMetadata * list effect -> Prop :=
| FromCache (missed rest : list Z) (q : Z) (cid : string) (tr : list effect) :
    eventPIDs event (pidFields d) = (missed ++ q :: rest)%list ->
    (forall m, In m missed -> cached (cgroups d) m = None) ->
    cached (cgroups d) q = Some cid ->
    List.filter isLookup tr = List.map ECacheGet (missed ++ [q]) ->
    count isInit tr = 0%nat -> count isJanitorStart tr = 0%nat ->
    lookupCase d fresh event now ((cid, None), d, tr)
| NoCgroups (tr : list effect) :
    (forall m, In m (eventPIDs event (pidFields d)) -> cached (cgroups d) m = None) ->
    List.forallb (notExist d fresh) (eventPIDs event (pidFields d)) = true ->
    List.filter isRead tr = skippedReads (eventPIDs event (pidFields d)) ->
    count isInit tr = 0%nat -> count isJanitorStart tr = 0%nat ->
    lookupCase d fresh event now ((EmptyString, None), d, tr)
| ReadOne (skipped rest : list Z) (pid : Z) (tr : list effect) :
    let cid := fst (getContainerIDFromCgroups (fst (getProcessCgroups d fresh pid))) in
    (forall m, In m (eventPIDs event (pidFields d)) -> cached (cgroups d) m = None) ->
    eventPIDs event (pidFields d) = (skipped ++ pid :: rest)%list ->
    List.forallb (notExist d fresh) skipped = true ->
    notExist d fresh pid = false ->
    List.filter isRead tr = (skippedReads skipped ++ [EReadCgroups pid false])%list ->
    count isInit tr = match cgroups d with Some _ => 0 | None => 1 end%nat ->
    count isJanitorStart tr = match cgroups d with Some _ => 0 | None => 1 end%nat ->
    lookupCase d fresh event now
      ((cid, None), withCgroups d (Some (Cache.Put pid cid now (cacheOrNew d))), tr).

Lemma lookupContainerIDByPID_cases (d : addDockerMetadata) (fresh : nat)
  (event : Beat.Event) (now : Time) :
  exists out,
    lookupContainerIDByPID d fresh event now = Ret out
    /\ lookupCase d fresh event now out.
Proof.
  unfold lookupContainerIDByPID.
  destruct (scanPIDFields (cgroups d) event (pidFields d) []) as [[[cid|pids] cache] tr1] eqn:Hs.
  - destruct (scan_hit _ _ _ _ _ _ _ Hs)
      as (-> & missed & q & rest & H2 & H3 & H4 & H5 & H6 & H7).
    rewrite withCgroups_same. eexists. split; [reflexivity|].
    now apply FromCache with (missed := missed) (rest := rest) (q := q).
  - destruct (scan_miss _ _ _ _ _ _ _ Hs) as (-> & H2 & H3 & H4 & H5 & H6).
    cbn [app] in H2. subst pids. rewrite withCgroups_same.
    destruct (readPIDs d fresh (eventPIDs event (pidFields d)))
      as [[[pid paths]|] tr2] eqn:Hr.
    + destruct (readPIDs_some _ _ _ _ _ _ Hr)
        as (skipped & rest & R1 & R2 & R3 & R4 & R5 & R6 & R7).
      subst paths.
      pose proof (getContainerIDFromCgroups_no_error
                    (fst (getProcessCgroups d fresh pid))) as Hnil.
      destruct (getContainerIDFromCgroups (fst (getProcessCgroups d fresh pid)))
        as [cid err] eqn:Hcid.
      cbn [snd] in Hnil. subst err.
      unfold lazyCgroupCacheInit.
      destruct (cgroups d) as [c|] eqn:Hc.
      * rewrite Hc. eexists. split; [reflexivity|].
        replace cid with
          (fst (getContainerIDFromCgroups (fst (getProcessCgroups d fresh pid))))
          by now rewrite Hcid.
        replace c with (cacheOrNew d) by (unfold cacheOrNew; now rewrite Hc).
        apply ReadOne with (skipped := skipped) (rest := rest); trivial.
        -- now rewrite Hc.
        -- rewrite !List.filter_app, H4, R5. cbn. now rewrite List.app_nil_r.
        -- rewrite Hc, !count_app, H5, R6. reflexivity.
        -- rewrite Hc, !count_app, H6, R7. reflexivity.
      * cbn [cgroups withCgroups]. eexists. split; [reflexivity|].
        replace cid with
          (fst (getContainerIDFromCgroups (fst (getProcessCgroups d fresh pid))))
          by now rewrite Hcid.
        rewrite withCgroups_twice. fold newCgroupCache.
        replace newCgroupCache with (cacheOrNew d)
          by (unfold cacheOrNew; now rewrite Hc).
        apply ReadOne with (skipped := skipped) (rest := rest); trivial.
        -- now rewrite Hc.
        -- rewrite !List.filter_app, H4, R5. cbn. now rewrite List.app_nil_r.
        -- rewrite Hc, !count_app, H5, R6. reflexivity.
        -- rewrite Hc, !count_app, H6, R7. reflexivity.
    + destruct (readPIDs_none _ _ _ _ Hr) as [N1 N2]. subst tr2.
      eexists. split; [reflexivity|].
      apply NoCgroups; trivial.
      * rewrite List.filter_app, H4. cbn [app].
        unfold skippedReads. clear.
        induction (eventPIDs event (pidFields d)) as [|p l IH]; [reflexivity|].
        cbn. now rewrite IH.
      * rewrite count_app, H5. unfold count, skippedReads. clear.
        induction (eventPIDs event (pidFields d)) as [|p l IH]; [reflexivity|].
        cbn. exact IH.
      * rewrite count_app, H6. unfold count, skippedReads. clear.
        induction (eventPIDs event (pidFields d)) as [|p l IH]; [reflexivity|].
        cbn. exact IH.
Qed.

(** *** Facts on Run and the cache *)

(** A state of the cache that lazyCgroupCacheInit creates: TTL of five
    minutes, at most 100 entries, janitor every five seconds. *)
Definition asConstructed (c : Cache.t) : Prop :=
  Cache.ttl c = cgroupCacheExpiration
  /\ Cache.capacity c = Some 100%nat
  /\ Cache.janitor c = Some (5 * Second).

(** The processor has no cache, or one as constructed. *)
Definition cacheInv (d : addDockerMetadata) : Prop :=
  forall c, cgroups d = Some c -> asConstructed c.

(** Nothing in the trace creates the cache, starts a janitor or reads
    cgroup data. *)
Definition quiet (tr : list effect) : Prop :=
  count isInit tr = 0%nat /\ count isJanitorStart tr = 0%nat
  /\ count isDataRead tr = 0%nat.

Lemma quiet_app (a b : list effect) : quiet a -> quiet b -> quiet (a ++ b).
Proof.
  unfold quiet. intros (A1 & A2 & A3) (B1 & B2 & B3).
  rewrite !count_app. lia.
Qed.

Lemma isDataRead_isRead (e : effect) : isDataRead e = true -> isRead e = true.
Proof. destruct e as [pid [|]| | | | | | |]; cbn; congruence. Qed.

Lemma isDataRead_isLookup (e : effect) : isDataRead e = true -> isLookup e = true.
Proof. destruct e as [pid [|]| | | | | | |]; cbn; congruence. Qed.

Lemma dataReads_skipped (l : list Z) : List.filter isDataRead (skippedReads l) = [].
Proof. induction l as [|p l IH]; [reflexivity | exact IH]. Qed.

Lemma dataReads_gets (l : list Z) : List.filter isDataRead (List.map ECacheGet l) = [].
Proof. induction l as [|p l IH]; [reflexivity | exact IH]. Qed.

Lemma newCgroupCache_asConstructed : asConstructed newCgroupCache.
Proof. repeat split. Qed.

Lemma Put_asConstructed (pid : Z) (cid : string) (now : Time) (c : Cache.t) :
  asConstructed c -> asConstructed (Cache.Put pid cid now c).
Proof. intros H. exact H. Qed.

Lemma cacheOrNew_asConstructed (d : addDockerMetadata) :
  cacheInv d -> asConstructed (cacheOrNew d).
Proof.
  unfold cacheInv, cacheOrNew. intros H.
  destruct (cgroups d) as [c|]; [now apply H | exact newCgroupCache_asConstructed].
Qed.

(** What one lookup does to the cache: nothing, or one read of cgroup
    data followed by the Put of its result, into a cache that is created
    (and its janitor started) when there was none. *)
Lemma lookup_cache_effect (d : addDockerMetadata) (fresh : nat) (event : Beat.Event)
  (now : Time) :
  exists cid d' tr,
    lookupContainerIDByPID d fresh event now = Ret ((cid, None), d', tr)
    /\ ((d' = d /\ quiet tr)
        \/ (exists pid,
              In pid (eventPIDs event (pidFields d))
              /\ notExist d fresh pid = false
              /\ d' = withCgroups d (Some (Cache.Put pid cid now (cacheOrNew d)))
              /\ count isDataRead tr = 1%nat
              /\ count isInit tr = match cgroups d with Some _ => 0 | None => 1 end%nat
              /\ count isJanitorStart tr
                 = match cgroups d with Some _ => 0 | None => 1 end%nat)).
Proof.
  destruct (lookupContainerIDByPID_cases d fresh event now) as (out & Heq & Hcase).
  destruct Hcase as [missed rest q cid tr H1 H2 H3 H4 H5 H6
                    | tr H1 H2 H3 H4 H5
                    | skipped rest pid tr cid H1 H2 H3 H4 H5 H6 H7].
  - exists cid, d, tr. split; [exact Heq|]. left. split; [reflexivity|].
    repeat split; trivial. unfold count.
    rewrite (filter_sub isDataRead isLookup tr isDataRead_isLookup), H4.
    now rewrite dataReads_gets.
  - exists EmptyString, d, tr. split; [exact Heq|]. left. split; [reflexivity|].
    repeat split; trivial. unfold count.
    rewrite (filter_sub isDataRead isRead tr isDataRead_isRead), H3.
    now rewrite dataReads_skipped.
  - eexists cid, _, tr. split; [exact Heq|]. right. exists pid.
    split; [rewrite H2; apply List.in_elt|]. split; [exact H4|].
    split; [reflexivity|].
    split; [|split; assumption]. unfold count.
    rewrite (filter_sub isDataRead isRead tr isDataRead_isRead), H5.
    rewrite List.filter_app, dataReads_skipped. reflexivity.
Qed.

Lemma extractFromSource_quiet (d : addDockerMetadata) (event : Beat.Event) :
  match extractFromSource d event with
  | Stop _ tr | Continue _ _ tr => quiet tr
  | Crash => True
  end.
Proof.
  unfold extractFromSource.
  destruct (sourceProcessor d) as [sp|]; [|repeat split].
  destruct (Beat.GetValue event "log.file.path") as [[| | | | |]|]; try (repeat split);
    destruct (sp event) as [[ev|] [e|]]; repeat split.
Qed.

Lemma enrich_effect (d : addDockerMetadata) (event : Beat.Event) (cid : string)
  (tr : list effect) (r : option Beat.Event * option error)
  (d' : addDockerMetadata) (tr' : list effect) :
  enrich d event cid tr = Ret (r, d', tr') ->
  d' = d /\ exists extra, tr' = (tr ++ extra)%list /\ quiet extra.
Proof.
  unfold enrich.
  destruct (String.eqb _ EmptyString).
  - intros H. injection H as <- <- <-. split; [reflexivity|].
    exists []. rewrite List.app_nil_r. repeat split.
  - destruct (watcher d) as [wt|]; [|discriminate].
    destruct (ContainerOf wt _);
      intros H; injection H as <- <- <-; (split; [reflexivity|]);
      eexists; (split; [reflexivity|]); repeat split.
Qed.

(** What one Run does to the cache. *)
Lemma Run_cache_effect (d : addDockerMetadata) (fresh : nat) (event : Beat.Event)
  (now : Time) (r : option Beat.Event * option error) (d' : addDockerMetadata)
  (tr : list effect) :
  Run d fresh event now = Ret (r, d', tr) ->
  (d' = d /\ quiet tr)
  \/ (dockerAvailable d = true /\ pidFields d <> []
      /\ exists ev pid cid,
           In pid (eventPIDs ev (pidFields d))
           /\ notExist d fresh pid = false
           /\ d' = withCgroups d (Some (Cache.Put pid cid now (cacheOrNew d)))
           /\ count isDataRead tr = 1%nat
           /\ count isInit tr = match cgroups d with Some _ => 0 | None => 1 end%nat
           /\ count isJanitorStart tr
              = match cgroups d with Some _ => 0 | None => 1 end%nat).
Proof.
  unfold Run. destruct (dockerAvailable d) eqn:Hav; cbn [negb].
  2:{ intros H. injection H as <- <- <-. left. repeat split. }
  pose proof (extractFromSource_quiet d event) as Hq1.
  destruct (extractFromSource d event) as [ev0 tr0 | ev cid tr1 |]; [| |discriminate].
  { intros H. injection H as <- <- <-. left. now split. }
  destruct (String.eqb cid EmptyString && (0 <? List.length (pidFields d))%nat) eqn:Hcond.
  2:{ intros H. destruct (enrich_effect _ _ _ _ _ _ _ H) as (-> & extra & -> & Hq).
      left. split; [reflexivity | now apply quiet_app]. }
  apply Bool.andb_true_iff in Hcond. destruct Hcond as [_ Hlen].
  assert (Hpf : pidFields d <> []).
  { destruct (pidFields d); [discriminate | discriminate]. }
  destruct (lookup_cache_effect d fresh ev now) as (id & d1 & tr2 & Hl & Hcases).
  rewrite Hl.
  assert (Hrest : forall ev1 cid1,
             enrich d1 ev1 cid1 (tr1 ++ tr2)%list = Ret (r, d', tr) ->
             d' = d1 /\ exists extra, tr = ((tr1 ++ tr2) ++ extra)%list /\ quiet extra).
  { intros ev1 cid1 H. now apply (enrich_effect _ _ _ _ _ _ _ H). }
  intros H.
  assert (Hd : d' = d1 /\ exists extra, tr = ((tr1 ++ tr2) ++ extra)%list /\ quiet extra).
  { destruct (negb (String.eqb id EmptyString)); eapply Hrest; exact H. }
  clear H Hrest. destruct Hd as (-> & extra & -> & Hq3).
  destruct Hq1 as (A1 & A2 & A3). destruct Hq3 as (C1 & C2 & C3).
  destruct Hcases as [[-> Hq2] | (pid & Hin & Hne & -> & B3 & B1 & B2)].
  - left. split; [reflexivity|]. destruct Hq2 as (B1 & B2 & B3).
    unfold quiet. rewrite !count_app. lia.
  - right. split; [reflexivity|]. split; [exact Hpf|].
    exists ev, pid, id. split; [exact Hin|]. split; [exact Hne|].
    split; [reflexivity|].
    rewrite !count_app, A1, A2, A3, B1, B2, B3, C1, C2, C3.
    repeat split; destruct (cgroups d); reflexivity.
Qed.

Lemma RunAll_cache_effect (fresh : nat) (calls : list (Beat.Event * Time)) :
  forall d d' tr,
    RunAll d fresh calls = Ret (d', tr) ->
    (exists cache, d' = withCgroups d cache)
    /\ (cacheInv d -> cacheInv d')
    /\ match cgroups d with
       | Some _ =>
           cgroups d' <> None
           /\ count isInit tr = 0%nat /\ count isJanitorStart tr = 0%nat
       | None =>
           (cgroups d' = None /\ quiet tr)
           \/ (cgroups d' <> None
               /\ count isInit tr = 1%nat /\ count isJanitorStart tr = 1%nat
               /\ (1 <= count isDataRead tr)%nat
               /\ dockerAvailable d = true /\ pidFields d <> []
               /\ exists pid, notExist d fresh pid = false)
       end.
Proof.
  induction calls as [|[event now] rest IH]; intros d d' tr; cbn [RunAll].
  - intros H. injection H as <- <-.
    split; [exists (cgroups d); now rewrite withCgroups_same|].
    split; [trivial|].
    destruct (cgroups d) eqn:Hc; [repeat split; congruence|].
    left. repeat split.
  - destruct (Run d fresh event now) as [[[r d1] tr1]|] eqn:HRun; [|discriminate].
    destruct (RunAll d1 fresh rest) as [[d2 tr2]|] eqn:HAll; [|discriminate].
    intros H. injection H as <- <-.
    destruct (IH _ _ _ HAll) as ((cache2 & Hd2) & Hinv2 & Hrest).
    destruct (Run_cache_effect _ _ _ _ _ _ _ HRun)
      as [[-> (Q1 & Q2 & Q3)]
         | (Hav & Hpf & ev & pid & cid & Hin & Hne & -> & R3 & R1 & R2)].
    + split; [now exists cache2|]. split; [exact Hinv2|].
      destruct (cgroups d) eqn:Hc.
      * destruct Hrest as (H1 & H2 & H3). rewrite !count_app. repeat split; trivial; lia.
      * destruct Hrest as [(H1 & H2 & H3 & H4) | (H1 & H2 & H3 & H4 & H5 & H6 & H7)].
        -- left. split; [exact H1|]. unfold quiet. rewrite !count_app. lia.
        -- right. rewrite !count_app.
           split; [exact H1|]. split; [lia|]. split; [lia|]. split; [lia|].
           split; [exact H5|]. split; [exact H6 | exact H7].
    + split; [exists cache2; now rewrite Hd2|].
      split.
      { intros Hinv. apply Hinv2. intros c Hc. cbn in Hc. injection Hc as <-.
        apply Put_asConstructed. now apply cacheOrNew_asConstructed. }
      cbn [cgroups withCgroups] in Hrest. destruct Hrest as (H1 & H2 & H3).
      destruct (cgroups d) eqn:Hc.
      * rewrite !count_app. repeat split; trivial; lia.
      * right. rewrite !count_app.
        split; [exact H1|]. split; [lia|]. split; [lia|]. split; [lia|].
        split; [exact Hav|]. split; [exact Hpf | now exists pid].
Qed.

(** C6. The processor that buildDockerMetadataProcessor returns has no
    cgroup cache.  After any sequence of Run calls on it, the cache is
    still nil exactly when no call has read cgroup data of a PID, and then
    no cache was created and no janitor started; otherwise exactly one
    cache was created and one janitor started, by the Run that first read
    cgroup data, and the cache is as lazyCgroupCacheInit constructs it.
    In particular the cache stays nil when docker is unavailable, when no
    PID field is configured and when no PID has cgroups. *)
Theorem cgroup_cache_is_lazy (env : buildEnv) (d d' : addDockerMetadata)
  (fresh : nat) (calls : list (Beat.Event * Time)) (tr : list effect) :
  buildDockerMetadataProcessor env = inl d ->
  RunAll d fresh calls = Ret (d', tr) ->
  cgroups d = None
  /\ (cgroups d' = None <-> count isDataRead tr = 0%nat)
  /\ (cgroups d' = None -> count isInit tr = 0%nat /\ count isJanitorStart tr = 0%nat)
  /\ (forall c, cgroups d' = Some c ->
        count isInit tr = 1%nat /\ count isJanitorStart tr = 1%nat /\ asConstructed c)
  /\ (dockerAvailable d = false \/ pidFields d = []
      \/ (forall pid, notExist d fresh pid = true) ->
      cgroups d' = None).
Proof.
  intros Hbuild HAll.
  destruct (build_fields env d Hbuild) as (Hnil & _ & _).
  destruct (RunAll_cache_effect fresh calls d d' tr HAll) as (_ & Hinv & Hcases).
  rewrite Hnil in Hcases.
  assert (Hinv' : cacheInv d') by (apply Hinv; intros c Hc; congruence).
  split; [exact Hnil|].
  destruct Hcases as [(H1 & H2 & H3 & H4) | (H1 & H2 & H3 & H4 & H5 & H6 & pid & H7)].
  - split; [tauto|]. split; [tauto|]. split; [intros c Hc; congruence|]. tauto.
  - split; [split; [tauto | lia]|].
    split; [tauto|].
    split; [intros c Hc; repeat split; trivial; now apply Hinv'|].
    intros [Hoff | [Hno | Hall]]; [congruence | contradiction |].
    rewrite Hall in H7. discriminate.
Qed.

(** *** The cache of the processor over time *)

(** C5. Take the cache as lazyCgroupCacheInit constructs it (TTL five
    minutes, at most 100 entries, janitor every five seconds) in any of
    its states, and put v under k at time t0.  A Get of k then returns v
    and leaves the cache as it was; so it does after any reads and any
    runs of the janitor that happen before the TTL has elapsed, and those
    runs do not call the eviction listener for k.  The first run of the
    janitor after the TTL has elapsed removes the entry, whatever reads
    came before (a Get does not renew the entry), and calls the listener
    for k exactly once; a Get of k then finds nothing. *)
Theorem cgroup_cache_ttl (c : Cache.t) (k : Z) (v : string) (t0 t1 : Time)
  (ops : list Cache.op) :
  asConstructed c ->
  Cache.withinTTL cgroupCacheExpiration t0 ops ->
  cgroupCacheExpiration < t1 - t0 ->
  let c0 := Cache.Put k v t0 c in
  let c1 := fst (Cache.run_ops ops c0) in
  let c2 := fst (Cache.sweep t1 c1) in
  (forall d, cgroups d = None ->
     cgroups (fst (lazyCgroupCacheInit d)) = Some newCgroupCache
     /\ asConstructed newCgroupCache)
  /\ Cache.Get k c0 = (Some v, c0)
  /\ Cache.Get k c1 = (Some v, c1)
  /\ Cache.listened k (snd (Cache.run_ops ops c0)) = 0%nat
  /\ fst (Cache.Get k c2) = None
  /\ Cache.listened k (snd (Cache.run_ops ops c0) ++ snd (Cache.sweep t1 c1)) = 1%nat.
Proof.
  intros (Httl & Hcap & Hjan) Hops Hlate. cbv zeta.
  pose proof (Cache.Put_holdsLast k v t0 c) as Hlast0.
  assert (Hcap0 : Cache.capacity (Cache.Put k v t0 c) <> Some 0%nat)
    by (cbn; rewrite Hcap; discriminate).
  assert (Hops0 : Cache.withinTTL (Cache.ttl (Cache.Put k v t0 c)) t0 ops)
    by (cbn; now rewrite Httl).
  destruct (Cache.run_ops_keeps k v t0 ops _ Hcap0 Hlast0 Hops0)
    as (Hlast1 & Hquiet & Httl1 & _).
  assert (Hlate1 : Cache.ttl (fst (Cache.run_ops ops (Cache.Put k v t0 c))) < t1 - t0)
    by (rewrite Httl1; cbn; now rewrite Httl).
  destruct (Cache.sweep_evicts k v t0 t1 _ Hlast1 Hlate1) as (Hgone & Honce).
  split.
  { intros d Hd. unfold lazyCgroupCacheInit. rewrite Hd. cbn [fst cgroups withCgroups].
    split; [reflexivity | exact newCgroupCache_asConstructed]. }
  split; [now apply Cache.holdsLast_Get with (t0 := t0)|].
  split; [now apply Cache.holdsLast_Get with (t0 := t0)|].
  split; [exact Hquiet|].
  split; [exact Hgone|].
  rewrite Cache.listened_app, Hquiet, Honce. reflexivity.
Qed.

Lemma cached_survives (d : addDockerMetadata) (pid : Z) (cid : string) (now : Time)
  (ops : list Cache.op) :
  cacheInv d ->
  Cache.withinTTL cgroupCacheExpiration now ops ->
  cached (Some (fst (Cache.run_ops ops (Cache.Put pid cid now (cacheOrNew d))))) pid
  = Some cid.
Proof.
  intros Hinv Hops.
  destruct (cacheOrNew_asConstructed d Hinv) as (Httl & Hcap & _).
  pose proof (Cache.Put_holdsLast pid cid now (cacheOrNew d)) as Hlast0.
  destruct (Cache.run_ops_keeps pid cid now ops (Cache.Put pid cid now (cacheOrNew d)))
    as (Hlast1 & _); trivial.
  - cbn. rewrite Hcap. discriminate.
  - cbn. now rewrite Httl.
  - cbn [cached]. now rewrite (Cache.holdsLast_Get _ _ _ _ Hlast1).
Qed.

Lemma uncached_stays (d : addDockerMetadata) (pid m : Z) (cid : string) (now : Time)
  (ops : list Cache.op) :
  m <> pid -> cached (cgroups d) m = None ->
  cached (Some (fst (Cache.run_ops ops (Cache.Put pid cid now (cacheOrNew d))))) m = None.
Proof.
  intros Hne Hm. cbn [cached]. apply Cache.Get_none_iff.
  apply Cache.noKey_run_ops, Cache.noKey_Put; [exact Hne|].
  unfold cacheOrNew. destruct (cgroups d) as [c|].
  - now apply Cache.Get_none_iff.
  - intros e [].
Qed.

(** *** What happens to the cache between two lookups *)


















End Run.

(** *** The processor on concrete surroundings *)

Definition exampleID : string :=
  "0123456789abcdef0123456789abcdef0123456789abcdef0123456789abcdef".

(** PID 4242 runs in a container; no other PID has cgroups. *)
Definition exampleReader : CGReader :=
  fun pid =>
    if pid =? 4242 then (["/system.slice/docker-" ++ exampleID ++ ".scope"], None)
    else ([], None).

Definition exampleWatcher : Watcher :=
  {| Start := None;
     ContainerOf := fun cid =>
       if String.eqb cid exampleID
       then Some {| cID := exampleID; cImage := "nginx"; cName := "web"; cLabels := [] |}
       else None |}.

Definition exampleConfig : Config :=
  {| MatchSource := false; MatchFields := [];
     MatchPIDs := ["process.pid"; "process.parent.pid"]; DeDotLabels := true |}.

Definition exampleEnv : buildEnv :=
  {| unpack := inl exampleConfig;
     watcherConstructor := inl exampleWatcher;
     newExtractField := inr (Plain 21 "not used");
     initCgroupPaths := inl exampleReader;
     nilCGReader := fun _ => ([], None);
     buildFresh := 60 |}.

(** The same surroundings without docker. *)
Definition noDockerEnv : buildEnv :=
  {| unpack := inl exampleConfig;
     watcherConstructor := inr (Plain 20 "cannot connect to the docker daemon");
     newExtractField := inr (Plain 21 "not used");
     initCgroupPaths := inl exampleReader;
     nilCGReader := fun _ => ([], None);
     buildFresh := 60 |}.

Definition exampleProcessor : addDockerMetadata :=
  {| watcher := Some exampleWatcher; fields := []; sourceProcessor := None;
     pidFields := ["process.pid"; "process.parent.pid"]; cgroups := None;
     dedot := true; dockerAvailable := true; cgreader := exampleReader |}.

Definition noDockerProcessor : addDockerMetadata :=
  {| watcher := None; fields := []; sourceProcessor := None;
     pidFields := ["process.pid"; "process.parent.pid"]; cgroups := None;
     dedot := true; dockerAvailable := false; cgreader := exampleReader |}.

(** An event of process 17, whose parent is process 4242. *)
Definition exampleEvent : Beat.Event :=
  {| Beat.Timestamp := 0;
     Beat.Fields :=
       [("process",
         Mapstr.VMap [("pid", Mapstr.VInt 17);
                      ("parent", Mapstr.VMap [("pid", Mapstr.VInt 4242)])])];
     Beat.ID := None;
     Beat.Private := None |}.

Definition exDeDot (s : string) : string := s.
Definition exSafePut (m : Mapstr.M) (k : string) (v : Mapstr.value) : Mapstr.M :=
  Mapstr.set k v m.
Definition exDeepUpdate (a b : Mapstr.M) : Mapstr.M :=
  List.fold_left (fun m kv => Mapstr.set (fst kv) (snd kv) m) b a.

(** The processor after its first lookup for [exampleEvent] at time 1000. *)
Definition exampleAfter : addDockerMetadata :=
  withCgroups exampleProcessor (Some (Cache.Put 4242 exampleID 1000 newCgroupCache)).

Definition exampleTrace : list effect :=
  [EReadCgroups 17 true; EReadCgroups 4242 false;
   EDebug "Initializing cgroup cache"; ECacheInit; EStartJanitor (5 * Second);
   ECachePut 4242 exampleID].

Example build_example : buildDockerMetadataProcessor exampleEnv = inl exampleProcessor.
Proof. reflexivity. Qed.

Example lookup_first :
  lookupContainerIDByPID exampleProcessor 70 exampleEvent 1000
  = Ret ((exampleID, None), exampleAfter, exampleTrace).
Proof. reflexivity. Qed.

Example lookup_second :
  lookupContainerIDByPID exampleAfter 70 exampleEvent 2000
  = Ret ((exampleID, None), exampleAfter,
         [ECacheGet 17; ECacheGet 4242; EDebug "Using cached cgroups"]).
Proof. reflexivity. Qed.

Example getContainerIDFromCgroups_none :
  getContainerIDFromCgroups ["/user.slice/user-1000.slice"; "/init.scope"]
  = (EmptyString, None).
Proof. reflexivity. Qed.

Example RunAll_example :
  RunAll exDeDot exSafePut exDeepUpdate exampleProcessor 70
    [(exampleEvent, 1000); (exampleEvent, 2000)]
  = Ret (exampleAfter,
         (exampleTrace
          ++ [EWatcherContainer exampleID;
              ECacheGet 17; ECacheGet 4242; EDebug "Using cached cgroups";
              EWatcherContainer exampleID])%list).
Proof. reflexivity. Qed.

(** PID 17 has cgroups, none of which names a container. *)
Definition hostProcessor : addDockerMetadata :=
  {| watcher := Some exampleWatcher; fields := []; sourceProcessor := None;
     pidFields := ["process.pid"; "process.parent.pid"]; cgroups := None;
     dedot := true; dockerAvailable := true;
     cgreader := fun pid => if pid =? 17 then (["/user.slice/user-1000.slice"], None)
                            else exampleReader pid |}.

Definition hostAfter : addDockerMetadata :=
  withCgroups hostProcessor (Some (Cache.Put 17 EmptyString 1000 newCgroupCache)).

Example lookup_caches_empty_id :
  lookupContainerIDByPID hostProcessor 70 exampleEvent 1000
  = Ret ((EmptyString, None), hostAfter,
         [EReadCgroups 17 false;
          EDebug "Initializing cgroup cache"; ECacheInit; EStartJanitor (5 * Second);
          ECachePut 17 EmptyString])
  /\ lookupContainerIDByPID hostAfter 70 exampleEvent 2000
     = Ret ((EmptyString, None), hostAfter,
            [ECacheGet 17; EDebug "Using cached cgroups"]).
Proof. split; reflexivity. Qed.


Lemma example_withinTTL :
  Cache.withinTTL cgroupCacheExpiration 1000
    [Cache.OGet 4242; Cache.OSweep (1000 + 60 * Second); Cache.OGet 4242;
     Cache.OSweep (1000 + 5 * Minute)].
Proof.
  intros now [H | [H | [H | [H | []]]]];
    try discriminate H; injection H as <-; vm_compute; discriminate.
Defined.

Lemma cgroup_cache_ttl_witness :
  asConstructed newCgroupCache
  /\ Cache.withinTTL cgroupCacheExpiration 1000
       [Cache.OGet 4242; Cache.OSweep (1000 + 60 * Second); Cache.OGet 4242;
        Cache.OSweep (1000 + 5 * Minute)]
  /\ cgroupCacheExpiration < (1001 + 5 * Minute) - 1000
  /\ Cache.Get 4242 (Cache.Put 4242 exampleID 1000 newCgroupCache)
     = (Some exampleID, Cache.Put 4242 exampleID 1000 newCgroupCache).
Proof.
  refine (conj newCgroupCache_asConstructed (conj example_withinTTL (conj eq_refl _))).
  exact (proj1 (proj2 (cgroup_cache_ttl newCgroupCache 4242 exampleID 1000
                         (1001 + 5 * Minute) _
                         newCgroupCache_asConstructed example_withinTTL eq_refl))).
Defined.

Lemma cgroup_cache_is_lazy_witness :
  buildDockerMetadataProcessor exampleEnv = inl exampleProcessor
  /\ RunAll exDeDot exSafePut exDeepUpdate exampleProcessor 70
       [(exampleEvent, 1000); (exampleEvent, 2000)]
     = Ret (exampleAfter,
            (exampleTrace
             ++ [EWatcherContainer exampleID;
                 ECacheGet 17; ECacheGet 4242; EDebug "Using cached cgroups";
                 EWatcherContainer exampleID])%list)
  /\ cgroups exampleProcessor = None.
Proof.
  refine (conj eq_refl (conj eq_refl _)).
  exact (proj1 (cgroup_cache_is_lazy exDeDot exSafePut exDeepUpdate
                  exampleEnv exampleProcessor exampleAfter 70
                  [(exampleEvent, 1000); (exampleEvent, 2000)] _ eq_refl eq_refl)).
Defined.







Lemma Run_without_docker_witness :
  buildDockerMetadataProcessor noDockerEnv = inl noDockerProcessor
  /\ watcherConstructor noDockerEnv = inr (Plain 20 "cannot connect to the docker daemon")
  /\ Run exDeDot exSafePut exDeepUpdate noDockerProcessor 70 exampleEvent 1000
     = Ret ((Some exampleEvent, None), noDockerProcessor, []).
Proof.
  refine (conj eq_refl (conj eq_refl _)).
  exact (proj2 (Run_without_docker exDeDot exSafePut exDeepUpdate noDockerEnv
                  noDockerProcessor _ 70 exampleEvent 1000 eq_refl eq_refl)).
Defined.

End Docker.

(** ** More of x-pack/filebeat/input/o365audit/input.go *)
Module O365More.

Import GoTime GoErr O365.

(** *** configure and stream.Name *)

(** configure: the unpacked configuration (or the error of cfg.Unpack)
    gives one stream per tenant and content type. *)
Definition configure (unpacked : Config + error) (fresh : nat)
  : (list stream * Config) + error :=
  match unpacked with
  | inr err => inr (Errorf_w fresh "reading config: " err)
  | inl config =>
      inl (List.flat_map
             (fun tenant => List.map (fun ct => mkStream tenant ct) (ContentType config))
             (TenantID config),
           config)
  end.

Lemma length_flat_map_const (A B : Type) (f : A -> list B) (l : list A) (n : nat) :
  (forall a, List.length (f a) = n) ->
  List.length (List.flat_map f l) = (List.length l * n)%nat.
Proof.
  intros Hf. induction l as [|a l IH]; [reflexivity|].
  cbn [List.flat_map List.length]. rewrite List.length_app, Hf, IH. lia.
Qed.

Lemma NoDup_app_disjoint (A : Type) (l1 l2 : list A) :
  NoDup l1 -> NoDup l2 -> (forall x, In x l1 -> ~ In x l2) -> NoDup (l1 ++ l2).
Proof.
  intros H1 H2 Hd. induction H1 as [|a l1 Ha H1 IH]; [exact H2|].
  cbn. constructor.
  - intros Hin. apply List.in_app_or in Hin. destruct Hin as [Hin | Hin].
    + contradiction.
    + apply (Hd a); [now left | exact Hin].
  - apply IH. intros x Hx. apply Hd. now right.
Qed.

(** X1. configure yields the error of Unpack, wrapped, and no source; or
    one stream for every pair of a configured tenant and a configured
    content type and no other: their number is the product of the two
    lists' lengths, and they are pairwise different when the tenants and
    the content types are. *)
Theorem configure_sources (unpacked : Config + error) (fresh : nat) :
  match configure unpacked fresh with
  | inr e =>
      exists err, unpacked = inr err /\ Unwrap e = Some err
                  /\ Error e = "reading config: " ++ Error err
  | inl (sources, config) =>
      unpacked = inl config
      /\ List.length sources
         = (List.length (TenantID config) * List.length (ContentType config))%nat
      /\ (forall s, In s sources
                    <-> In (tenantID s) (TenantID config)
                        /\ In (contentType s) (ContentType config))
      /\ (NoDup (TenantID config) -> NoDup (ContentType config) -> NoDup sources)
  end.
Proof.
  destruct unpacked as [config|err]; cbn [configure].
  - split; [reflexivity|]. split.
    { apply length_flat_map_const. intros a. apply List.length_map. }
    split.
    + intros [t ct]. cbn [tenantID contentType]. rewrite List.in_flat_map. split.
      * intros (tenant & Ht & Hs). apply List.in_map_iff in Hs.
        destruct Hs as (ct' & Heq & Hct). injection Heq as <- <-. now split.
      * intros [Ht Hct]. exists t. split; [exact Ht|].
        apply List.in_map_iff. now exists ct.
    + intros Ht Hc. induction Ht as [|t ts Hnot Ht IH]; [constructor|].
      cbn [List.flat_map]. apply NoDup_app_disjoint.
      * apply List.NoDup_map_NoDup_ForallPairs; [|exact Hc].
        intros a b _ _ Heq. now injection Heq.
      * exact IH.
      * intros s Hs Hs'. apply List.in_map_iff in Hs.
        destruct Hs as (ct & <- & _). apply List.in_flat_map in Hs'.
        destruct Hs' as (t' & Ht' & Hin). apply List.in_map_iff in Hin.
        destruct Hin as (ct' & Heq & _). injection Heq as -> _. contradiction.
  - exists err. repeat split.
Qed.

(** No ':' occurs in the string. *)
Fixpoint noColon (s : string) : bool :=
  match s with
  | EmptyString => true
  | String c rest => negb (Ascii.eqb c ":") && noColon rest
  end.

Lemma append_colon_inj (t1 t2 r1 r2 : string) :
  noColon t1 = true -> noColon t2 = true ->
  (t1 ++ String ":" r1)%string = (t2 ++ String ":" r2)%string ->
  t1 = t2 /\ r1 = r2.
Proof.
  revert t2. induction t1 as [|a t1 IH]; intros [|b t2] H1 H2 Heq; cbn in *.
  - injection Heq as ->. now split.
  - injection Heq as <- _. now rewrite Ascii.eqb_refl in H2.
  - injection Heq as -> _. now rewrite Ascii.eqb_refl in H1.
  - injection Heq as -> Heq.
    apply Bool.andb_true_iff in H1, H2.
    destruct (IH t2 (proj2 H1) (proj2 H2) Heq) as [-> ->]. now split.
Qed.

(** X2. The name of a stream, the key of its cursor, tells the stream:
    two streams whose tenant ids hold no colon and whose names are equal
    are the same stream. *)
Theorem Name_injective (s1 s2 : stream) :
  noColon (tenantID s1) = true -> noColon (tenantID s2) = true ->
  Name s1 = Name s2 -> s1 = s2.
Proof.
  destruct s1 as [t1 c1], s2 as [t2 c2]. unfold Name. cbn [tenantID contentType].
  intros H1 H2 Heq.
  destruct (append_colon_inj t1 t2 _ _ H1 H2 Heq) as [-> Hrest].
  injection Hrest as ->. reflexivity.
Qed.

Lemma Name_injective_witness :
  noColon "tenant-a" = true /\ noColon "tenant-a" = true
  /\ (Name (mkStream "tenant-a" "Audit.General") = Name (mkStream "tenant-a" "Audit.General")
      -> mkStream "tenant-a" "Audit.General" = mkStream "tenant-a" "Audit.General").
Proof.
  refine (conj eq_refl (conj eq_refl _)).
  exact (Name_injective (mkStream "tenant-a" "Audit.General")
           (mkStream "tenant-a" "Audit.General") eq_refl eq_refl).
Defined.

(** Without that condition two streams can share a name. *)
Example Name_collision :
  Name (mkStream "a::b" "c") = Name (mkStream "a" "b::c")
  /\ mkStream "a::b" "c" <> mkStream "a" "b::c".
Proof. split; [reflexivity | discriminate]. Qed.

(** *** o365input.Test and o365input.run *)
Section RunMore.

Variable Rest : Type.
Variable zeroRest : Rest.
Variable Action : Type.
Variable makeListBlob : checkpoint Rest -> apiEnvironment -> Action.
Variable WithStartTime : Action -> Time -> Action.

Let run := O365.run Rest zeroRest Action makeListBlob WithStartTime.
Let initCheckpoint := O365.initCheckpoint Rest zeroRest.

(** Test: src.( *stream ) is asserted without a check, so a source of
    another type panics; then the token provider is made and asked for a
    token. *)
Definition Test (re : runEnv Action) (src : option stream) : result (option error) :=
  match src with
  | None => Panic
  | Some s =>
      match newTokenProvider Action re (tenantID s) with
      | Some err => Ret (Some err)
      | None =>
          match acquireToken Action re with
          | Some err =>
              Ret (Some (Errorf_w (fresh Action re)
                           ("unable to acquire authentication token for tenant:"
                            ++ tenantID s ++ ": ") err))
          | None => Ret None
          end
      end
  end.

(** X3. Test foretells how run fares with authentication: a failure
    that Test reports is what run returns, with nothing logged, whatever
    the configuration, the cursor and the poller are; and when Test
    succeeds, run does not fail on authentication (it panics on a request
    limit of zero, fails to create the poller, or returns what the poller
    returns). *)
Theorem Test_foretells_run (config : Config) (re : runEnv Action) (s : stream)
  (c : Cursor Rest) :
  match Test re (Some s) with
  | Ret (Some e) => run config re s c = (Ret (Some e), [])
  | Ret None =>
      fst (run config re s c) = Panic /\ MaxRequestsPerMinute (API config) = 0
      \/ (exists d e, pollNew Action re d = Some e
                      /\ fst (run config re s c)
                         = Ret (Some (Errorf_w (fresh Action re)
                                        "failed to create API poller: " e)))
      \/ (exists action, fst (run config re s c) = Ret (pollerRun Action re action))
  | Panic => False
  end.
Proof.
  subst run. unfold Test, O365.run.
  destruct (newTokenProvider Action re (tenantID s)) as [e|]; [reflexivity|].
  destruct (acquireToken Action re) as [e|]; [reflexivity|].
  unfold requestDelay.
  destruct (MaxRequestsPerMinute (API config) =? 0) eqn:Hm.
  - left. split; [reflexivity | now apply Z.eqb_eq].
  - right. match goal with |- context [pollNew Action re ?d] =>
      destruct (pollNew Action re d) as [e|] eqn:Hp; [left; exists d, e; now split|] end.
    right.
    destruct (O365.initCheckpoint Rest zeroRest (runNow Action re) c
                (MaxRetention (API config))) as [start logged].
    eexists. reflexivity.
Qed.

(** X4. The delay between two requests: a request limit of zero makes
    run panic (integer division by zero); for a positive limit m and n
    content types the delay is the integer quotient of n minutes by m, so
    that m delays fit in n minutes and m + 1 delays do not (the n streams
    of a tenant together stay within m requests per minute up to the
    rounding of the quotient), and a limit above n minutes in nanoseconds
    gives no delay at all. *)
Theorem requestDelay_bounds (config : Config) :
  let m := MaxRequestsPerMinute (API config) in
  let n := Z.of_nat (List.length (ContentType config)) in
  (requestDelay config = Panic <-> m = 0)
  /\ (0 < m < 2 ^ 63 -> n * Minute < 2 ^ 63 ->
      exists delay,
        requestDelay config = Ret delay
        /\ 0 <= delay
        /\ m * delay <= n * Minute < m * (delay + 1)
        /\ (n * Minute < m -> delay = 0)).
Proof.
  cbv zeta. unfold requestDelay. split.
  - destruct (MaxRequestsPerMinute (API config) =? 0) eqn:Hm.
    + apply Z.eqb_eq in Hm. now split.
    + apply Z.eqb_neq in Hm. split; [discriminate | contradiction].
  - intros Hm Hn.
    set (m := MaxRequestsPerMinute (API config)) in *.
    set (n := Z.of_nat (List.length (ContentType config))) in *.
    assert (Hn0 : 0 <= n * Minute) by (unfold Minute, Second; lia).
    assert (Hmz : (m =? 0) = false) by (apply Z.eqb_neq; lia).
    rewrite Hmz.
    rewrite (wrap64_id (n * Minute)) by (unfold int64; lia).
    rewrite Z.quot_div_nonneg by lia.
    assert (Hq0 : 0 <= n * Minute / m) by (apply Z.div_pos; lia).
    assert (Hqle : n * Minute / m <= n * Minute) by (apply Z.div_le_upper_bound; nia).
    rewrite wrap64_id by (unfold int64; lia).
    exists (n * Minute / m). split; [reflexivity|]. split; [exact Hq0|].
    split.
    + pose proof (Z.mul_div_le (n * Minute) m ltac:(lia)).
      pose proof (Z.mul_succ_div_gt (n * Minute) m ltac:(lia)). lia.
    + intros Hsmall. apply Z.div_small. lia.
Qed.

(** X5. An error of the token request is wrapped by run so that
    errors.Is still finds its cause: when acquiring the token ends in
    context.Canceled (or an error wrapping it), the error run returns is a
    cancellation error for Run, whose loop then returns nil without
    publishing an error event. *)
Theorem run_keeps_cancellation (config : Config) (re : runEnv Action) (s : stream)
  (c : Cursor Rest) (err : error) (w : World) (stat : reporter) (retry : Duration)
  (fuel i k : nat) :
  newTokenProvider Action re (tenantID s) = None ->
  acquireToken Action re = Some err ->
  Is err Canceled = true ->
  ctxErr w k = None ->
  Ret (runResult w i) = fst (run config re s c) ->
  (exists e, runResult w i = Some e /\ Unwrap e = Some err /\ Is e Canceled = true)
  /\ Run_loop (S fuel) w stat retry i k = ([ECallRun i], Returned None).
Proof.
  intros Hp Ht HIs Hctx Hrun. subst run. unfold O365.run in Hrun.
  rewrite Hp, Ht in Hrun. cbn [fst] in Hrun. injection Hrun as Hrun.
  split.
  - eexists. split; [exact Hrun|]. split; [reflexivity|].
    cbn [Is Errorf_w]. rewrite HIs. apply Bool.orb_true_r.
  - cbn [Run_loop]. rewrite Hctx, Hrun. cbn [Is Errorf_w]. rewrite HIs.
    now rewrite Bool.orb_true_r.
Qed.

(** *** More on initCheckpoint *)

(** X6. The position initCheckpoint returns does not move back when the
    clock moves on: for the same cursor and retention, a later now gives a
    Timestamp that is not earlier. *)
Theorem initCheckpoint_monotone (now1 now2 : Time) (c : Cursor Rest)
  (maxRetention : Duration) :
  now1 <= now2 ->
  Timestamp (fst (initCheckpoint now1 c maxRetention))
  <= Timestamp (fst (initCheckpoint now2 c maxRetention)).
Proof.
  intros Hle. subst initCheckpoint.
  unfold O365.initCheckpoint, loadCheckpoint, retentionLimit, Add, UTC, Before.
  destruct (IsNew c).
  - cbn [fst Timestamp setTimestamp]. rewrite !Z.ltb_irrefl. cbn. lia.
  - destruct (Unpack c (zeroCheckpoint Rest zeroRest)) as [cp [e|]].
    + cbn [fst Timestamp setTimestamp]. rewrite !Z.ltb_irrefl. cbn. lia.
    + destruct (Timestamp cp <? now1 + neg maxRetention) eqn:H1;
        destruct (Timestamp cp <? now2 + neg maxRetention) eqn:H2;
        cbn [fst Timestamp setTimestamp];
        try apply Z.ltb_lt in H1; try apply Z.ltb_ge in H1;
        try apply Z.ltb_lt in H2; try apply Z.ltb_ge in H2; lia.
Qed.

(** The cursor after the checkpoint [cp] has been saved. *)
Definition savedCursor (cp : checkpoint Rest) : Cursor Rest :=
  {| IsNew := false; Unpack := fun _ => (cp, None) |}.

(** X7. A restart from the checkpoint that initCheckpoint returned, at
    the same instant, returns that checkpoint again and logs nothing: the
    clamp is applied once, and a checkpoint that was clamped is not
    reported as stale again. *)
Theorem initCheckpoint_idempotent (now : Time) (c : Cursor Rest)
  (maxRetention : Duration) :
  let cp := fst (initCheckpoint now c maxRetention) in
  initCheckpoint now (savedCursor cp) maxRetention = (cp, []).
Proof.
  cbv zeta. subst initCheckpoint.
  pose proof (O365.initCheckpoint_cases Rest zeroRest now c maxRetention) as Hcases.
  cbv zeta in Hcases.
  assert (Hnot : Before (Timestamp (fst (O365.initCheckpoint Rest zeroRest now c maxRetention)))
                   (retentionLimit now maxRetention) = false).
  { unfold O365.initCheckpoint.
    destruct (loadCheckpoint Rest zeroRest now c maxRetention) as [cp logged].
    destruct (Before (Timestamp cp) (retentionLimit now maxRetention)) eqn:Hb;
      cbn [fst Timestamp setTimestamp]; [apply Before_irrefl | exact Hb]. }
  unfold O365.initCheckpoint at 1. unfold loadCheckpoint, savedCursor.
  cbn [IsNew Unpack]. rewrite Hnot. reflexivity.
Qed.

End RunMore.

Lemma requestDelay_bounds_example :
  requestDelay exampleConfig = Ret 30000000.
Proof. reflexivity. Qed.

(** The operator stops the input while the token is requested. *)
Definition cancelledAuthEnv : runEnv (checkpoint unit * option Time) :=
  {| newTokenProvider := fun _ => None;
     acquireToken := Some Canceled;
     pollNew := fun _ => None;
     pollerRun := fun _ => None;
     fresh := 7;
     runNow := exampleNow |}.

Definition cancelledAuthWorld : World :=
  {| cancelAt := Some (1%nat, Canceled);
     runResult := fun _ =>
       Some (Errorf_w 7 "unable to acquire authentication token for tenant:tenant: "
               Canceled);
     publishResult := fun _ => None;
     clock := fun i => Z.of_nat i;
     freshIdent := 100 |}.

Lemma run_keeps_cancellation_witness :
  acquireToken _ cancelledAuthEnv = Some Canceled
  /\ Is Canceled Canceled = true
  /\ Run_loop 1 cancelledAuthWorld ContextReporter (5 * Minute) 0 0
     = ([ECallRun 0], Returned None).
Proof.
  refine (conj eq_refl (conj eq_refl _)).
  exact (proj2 (run_keeps_cancellation unit tt (checkpoint unit * option Time)
                  (fun cp _ => (cp, None)) (fun action t => (fst action, Some t))
                  exampleConfig cancelledAuthEnv
                  (mkStream "tenant" "Audit.General") staleCursor Canceled
                  cancelledAuthWorld ContextReporter (5 * Minute) 0 0 0
                  eq_refl eq_refl eq_refl eq_refl eq_refl)).
Defined.

Lemma initCheckpoint_monotone_witness :
  exampleNow <= exampleNow + 1
  /\ Timestamp (fst (O365.initCheckpoint unit tt exampleNow staleCursor week))
     <= Timestamp (fst (O365.initCheckpoint unit tt (exampleNow + 1) staleCursor week)).
Proof.
  refine (conj _ _).
  - vm_compute. discriminate.
  - refine (initCheckpoint_monotone unit tt exampleNow (exampleNow + 1) staleCursor week _).
    vm_compute. discriminate.
Defined.

(** *** More on toBeatEvent *)

(** X8. The event holds the raw record under event.original exactly
    when PreserveOriginalEvent is set, whatever the document is (a
    document with a field "event" does not get in the way, being stored
    under the input's name); otherwise the event has no such field. *)
Theorem toBeatEvent_original (parseDate : string -> Time + error)
  (config : APIConfig) (now : Time) (fresh : nat) (raw : string) (doc : Mapstr.M) :
  Beat.GetValue (toBeatEvent parseDate config now fresh raw doc) "event.original"
  = if PreserveOriginalEvent config then inl (Mapstr.VStr raw)
    else inr Mapstr.ErrKeyNotFound.
Proof.
  unfold toBeatEvent.
  destruct (getDateKey parseDate doc "CreationTime") as [ts|err];
    destruct (SetIDFromAuditRecord config);
    destruct (PreserveOriginalEvent config);
    try (destruct (getString doc "Id") as [id|iderr];
         [destruct (0 <? String.length id)%nat|]);
    reflexivity.
Qed.

(** *** More on Run *)

Definition isWait (e : effect) : bool :=
  match e with EWait _ => true | _ => false end.

Definition isCall (e : effect) : bool :=
  match e with ECallRun _ => true | _ => false end.

Definition isStatus (e : effect) : bool :=
  match e with EUpdateStatus _ _ _ => true | _ => false end.

Definition tally (p : effect -> bool) (tr : list effect) : nat :=
  List.length (List.filter p tr).

Lemma tally_app (p : effect -> bool) (l1 l2 : list effect) :
  tally p (l1 ++ l2) = (tally p l1 + tally p l2)%nat.
Proof. unfold tally. now rewrite List.filter_app, List.length_app. Qed.

Lemma tally_reportFailure (w : World) (stat : reporter) (retry : Duration)
  (i : nat) (err : error) :
  tally isPublish (reportFailure w stat retry i err) = 1%nat
  /\ tally isWait (reportFailure w stat retry i err) = 1%nat
  /\ tally isCall (reportFailure w stat retry i err) = 0%nat
  /\ List.filter isWait (reportFailure w stat retry i err) = [EWait retry].
Proof.
  unfold reportFailure. destruct (publishResult w i); repeat split.
Qed.

Section RunMoreFacts.

Variable w : World.
Variable stat : reporter.
Variable retry : Duration.

Lemma Run_loop_unfold (fuel i k : nat) :
  Run_loop (S fuel) w stat retry i k
  = match ctxErr w k with
    | Some _ => ([], Returned None)
    | None =>
        match runResult w i with
        | None => ([ECallRun i], Returned None)
        | Some err =>
            if Is err Canceled then ([ECallRun i], Returned None)
            else if negb (same (Some err) (ctxErr w (S k))) then
              (((ECallRun i :: reportFailure w stat retry i err)
                ++ fst (Run_loop fuel w stat retry (S i) (S (S k))))%list,
               snd (Run_loop fuel w stat retry (S i) (S (S k))))
            else
              (ECallRun i :: fst (Run_loop fuel w stat retry (S i) (S (S k))),
               snd (Run_loop fuel w stat retry (S i) (S (S k))))
        end
    end.
Proof.
  cbn [Run_loop].
  destruct (ctxErr w k); [reflexivity|].
  destruct (runResult w i) as [err|]; [|reflexivity].
  destruct (Is err Canceled); [reflexivity|].
  destruct (negb (same (Some err) (ctxErr w (S k))));
    destruct (Run_loop fuel w stat retry (S i) (S (S k))); reflexivity.
Qed.

Lemma Run_loop_returns_nil (fuel i k : nat) :
  snd (Run_loop fuel w stat retry i k) = Looping
  \/ snd (Run_loop fuel w stat retry i k) = Returned None.
Proof.
  revert i k. induction fuel as [|fuel IH]; intros i k; [now left|].
  rewrite Run_loop_unfold.
  destruct (ctxErr w k); [now right|].
  destruct (runResult w i) as [err|]; [|now right].
  destruct (Is err Canceled); [now right|].
  destruct (negb (same (Some err) (ctxErr w (S k)))); cbn [snd]; apply IH.
Qed.

(** X10. Once the context is done, Run's loop ends, whatever inp.run
    goes on returning: if the context is done from its n-th observation
    on, the loop entered at observation k has returned nil after fewer
    than n - k + 2 loop tests, having published at most n - k error
    events. *)
Theorem Run_loop_ends_after_cancellation (n : nat) (e : error) (fuel i k : nat) :
  cancelAt w = Some (n, e) ->
  (1 <= fuel)%nat -> (n < fuel + k)%nat ->
  snd (Run_loop fuel w stat retry i k) = Returned None
  /\ (tally isPublish (fst (Run_loop fuel w stat retry i k)) <= n - k)%nat.
Proof.
  intros Hat. revert i k.
  induction fuel as [|fuel IH]; intros i k Hone Hlt; [lia|].
  rewrite Run_loop_unfold.
  destruct (n <=? k)%nat eqn:Hnk.
  - assert (Hk : ctxErr w k = Some e) by (unfold ctxErr; now rewrite Hat, Hnk).
    rewrite Hk. unfold tally. cbn. split; [reflexivity | lia].
  - apply Nat.leb_gt in Hnk.
    assert (Hfuel : (1 <= fuel)%nat) by lia.
    assert (Hlt' : (n < fuel + S (S k))%nat) by lia.
    destruct (IH (S i) (S (S k)) Hfuel Hlt') as [Hout Hpub].
    destruct (ctxErr w k); [unfold tally; cbn; split; [reflexivity | lia]|].
    destruct (runResult w i) as [err|]; [|unfold tally; cbn; split; [reflexivity | lia]].
    destruct (Is err Canceled); [unfold tally; cbn; split; [reflexivity | lia]|].
    destruct (negb (same (Some err) (ctxErr w (S k)))); cbn [fst snd].
    + split; [exact Hout|].
      change (ECallRun i :: reportFailure w stat retry i err)%list
        with ([ECallRun i] ++ reportFailure w stat retry i err)%list.
      rewrite !tally_app.
      destruct (tally_reportFailure w stat retry i err) as (-> & _).
      change (tally isPublish [ECallRun i]) with 0%nat. lia.
    + split; [exact Hout|].
      change (ECallRun i :: fst (Run_loop fuel w stat retry (S i) (S (S k))))%list
        with ([ECallRun i] ++ fst (Run_loop fuel w stat retry (S i) (S (S k))))%list.
      rewrite tally_app. change (tally isPublish [ECallRun i]) with 0%nat. lia.
Qed.

(** After whole turns of the loop each published error event has come
    with exactly one wait, of the retry interval, and at most one call of
    inp.run (the last one) is not followed by an error event and a wait. *)
Lemma Run_loop_waits_between_calls (fuel i k : nat) :
  let tr := fst (Run_loop fuel w stat retry i k) in
  tally isWait tr = tally isPublish tr
  /\ (tally isCall tr <= tally isPublish tr + 1)%nat
  /\ (forall d, In (EWait d) tr -> d = retry).
Proof.
  cbv zeta. revert i k.
  induction fuel as [|fuel IH]; intros i k.
  { unfold tally. cbn. split; [reflexivity|]. split; [lia|]. intros d []. }
  rewrite Run_loop_unfold.
  destruct (ctxErr w k) eqn:Hk.
  { unfold tally. cbn. split; [reflexivity|]. split; [lia|]. intros d []. }
  destruct (runResult w i) as [err|].
  2:{ unfold tally. cbn. split; [reflexivity|]. split; [lia|]. intros d [H | []]. discriminate. }
  destruct (Is err Canceled).
  { unfold tally. cbn. split; [reflexivity|]. split; [lia|]. intros d [H | []]. discriminate. }
  destruct (IH (S i) (S (S k))) as (Hw & Hc & Hd).
  destruct (same (Some err) (ctxErr w (S k))) eqn:Hsame; cbn [negb fst snd].
  - (* the error is the context's own: the next loop test ends the loop *)
    assert (Hnext : fst (Run_loop fuel w stat retry (S i) (S (S k))) = []).
    { destruct (ctxErr w (S k)) as [e0|] eqn:Hsk; [|discriminate].
      pose proof (O365.ctxErr_mono w (S k) (S (S k)) e0 Hsk ltac:(lia)) as He0.
      destruct fuel as [|fuel']; [reflexivity|].
      rewrite Run_loop_unfold, He0. reflexivity. }
    rewrite Hnext. unfold tally. cbn. split; [reflexivity|]. split; [lia|].
    intros d [H | []]. discriminate.
  - change (ECallRun i :: reportFailure w stat retry i err)%list
      with ([ECallRun i] ++ reportFailure w stat retry i err)%list.
    rewrite !tally_app.
    destruct (tally_reportFailure w stat retry i err) as (Hp1 & Hw1 & Hc1 & Hf1).
    rewrite Hp1, Hw1, Hc1.
    change (tally isWait [ECallRun i]) with 0%nat.
    change (tally isPublish [ECallRun i]) with 0%nat.
    change (tally isCall [ECallRun i]) with 1%nat.
    split; [lia|]. split; [lia|].
    intros d Hin. apply List.in_app_or in Hin. destruct Hin as [Hin | Hin].
    + apply List.in_app_or in Hin. destruct Hin as [[H | []] | Hin]; [discriminate|].
      assert (Hf : In (EWait d) (List.filter isWait (reportFailure w stat retry i err)))
        by (apply List.filter_In; now split).
      rewrite Hf1 in Hf. destruct Hf as [H | []]. now injection H.
    + now apply Hd.
Qed.

(** What holds of every beginning [pre] of what the loop does: a call of
    inp.run comes only after the wait of the call before it, an error
    event only after a call, a wait only after an error event, and no
    second error event before the wait of the first. *)
Definition paced (pre : list effect) : Prop :=
  (tally isCall pre <= tally isWait pre + 1)%nat
  /\ (tally isPublish pre <= tally isCall pre)%nat
  /\ (tally isWait pre <= tally isPublish pre)%nat
  /\ (tally isPublish pre <= tally isWait pre + 1)%nat
  /\ forall d, In (EWait d) pre -> d = retry.

Lemma paced_turn (i : nat) (err : error) (n : nat) :
  let pre := List.firstn n (ECallRun i :: reportFailure w stat retry i err) in
  (tally isCall pre <= 1)%nat
  /\ (tally isPublish pre <= tally isCall pre)%nat
  /\ (tally isWait pre <= tally isPublish pre)%nat
  /\ (tally isPublish pre <= 1)%nat
  /\ forall d, In (EWait d) pre -> d = retry.
Proof.
  cbv zeta. unfold reportFailure, tally.
  destruct (publishResult w i);
    do 10 (destruct n as [|n];
           [cbn; repeat split; try lia;
            intros d Hin; cbn in Hin;
            repeat (destruct Hin as [Hin|Hin]; [try discriminate Hin; now injection Hin|]);
            now destruct Hin|]);
    cbn; repeat split; try lia;
    intros d Hin; cbn in Hin;
    repeat (destruct Hin as [Hin|Hin]; [try discriminate Hin; now injection Hin|]);
    now destruct Hin.
Qed.

Lemma Run_loop_paced (fuel : nat) :
  forall i k n, paced (List.firstn n (fst (Run_loop fuel w stat retry i k))).
Proof.
  assert (Hnil : paced []).
  { unfold paced, tally. cbn. repeat split; try lia; intros d []. }
  assert (Hcall : forall i n, paced (List.firstn n [ECallRun i])).
  { intros i [|[|n]]; unfold paced, tally; cbn; repeat split; try lia;
      intros d Hin; cbn in Hin; try (now destruct Hin);
      destruct Hin as [Hin|[]]; discriminate Hin. }
  induction fuel as [|fuel IH]; intros i k n.
  { cbn. now rewrite List.firstn_nil. }
  rewrite Run_loop_unfold.
  destruct (ctxErr w k) eqn:Hk; [cbn; now rewrite List.firstn_nil|].
  destruct (runResult w i) as [err|]; [|apply Hcall].
  destruct (Is err Canceled); [apply Hcall|].
  destruct (same (Some err) (ctxErr w (S k))) eqn:Hsame; cbn [negb fst snd].
  - assert (Hnext : fst (Run_loop fuel w stat retry (S i) (S (S k))) = []).
    { destruct (ctxErr w (S k)) as [e0|] eqn:Hsk; [|discriminate].
      pose proof (O365.ctxErr_mono w (S k) (S (S k)) e0 Hsk ltac:(lia)) as He0.
      destruct fuel as [|fuel']; [reflexivity|].
      rewrite Run_loop_unfold, He0. reflexivity. }
    rewrite Hnext. apply Hcall.
  - set (turn := (ECallRun i :: reportFailure w stat retry i err)%list).
    rewrite List.firstn_app.
    destruct (paced_turn i err n) as (Hc & Hpc & Hwp & Hp & Hd). fold turn in Hc, Hpc, Hwp, Hp, Hd.
    destruct (Nat.le_gt_cases (List.length turn) n) as [Hle|Hgt].
    + rewrite (List.firstn_all2 turn Hle).
      destruct (IH (S i) (S (S k)) (n - List.length turn)%nat)
        as (Hc' & Hpc' & Hwp' & Hp' & Hd').
      set (pre' := List.firstn (n - List.length turn)
                     (fst (Run_loop fuel w stat retry (S i) (S (S k))))) in *.
      destruct (tally_reportFailure w stat retry i err) as (Hp1 & Hw1 & Hc1 & Hf1).
      assert (Ht : tally isCall turn = 1%nat /\ tally isPublish turn = 1%nat
                   /\ tally isWait turn = 1%nat).
      { unfold turn.
        change (ECallRun i :: reportFailure w stat retry i err)%list
          with ([ECallRun i] ++ reportFailure w stat retry i err)%list.
        rewrite !tally_app, Hp1, Hw1, Hc1. repeat split. }
      destruct Ht as (Ht1 & Ht2 & Ht3).
      unfold paced. rewrite !tally_app, Ht1, Ht2, Ht3.
      repeat split; try lia.
      intros d Hin. apply List.in_app_or in Hin. destruct Hin as [Hin|Hin].
      * apply Hd. now rewrite (List.firstn_all2 turn Hle).
      * now apply Hd'.
    + replace (n - List.length turn)%nat with 0%nat by lia.
      cbn [List.firstn]. rewrite List.app_nil_r.
      unfold paced. repeat split; try lia; exact Hd.
Qed.

End RunMoreFacts.

(** X11. Run never calls inp.run again without having waited: at every
    point of what Run does for a stream (every beginning of its trace),
    the calls of inp.run are at most one more than the waits, an error
    event has been published only after a call and a wait made only
    after an error event, and no second error event is published before
    the wait of the first; every wait lasts the configured
    ErrorRetryInterval.  Whenever Run stands between two turns of its loop
    the waits are as many as the error events. *)
Theorem Run_waits_between_calls (fuel : nat) (w : World) (config : Config)
  (statusReporter : bool) (s : stream) (n : nat) :
  let tr := fst (Run fuel w config statusReporter (Some s)) in
  let pre := List.firstn n tr in
  (tally isCall pre <= tally isWait pre + 1)%nat
  /\ (tally isPublish pre <= tally isCall pre)%nat
  /\ (tally isWait pre <= tally isPublish pre)%nat
  /\ (tally isPublish pre <= tally isWait pre + 1)%nat
  /\ (forall d, In (EWait d) pre -> d = ErrorRetryInterval (API config))
  /\ tally isWait tr = tally isPublish tr.
Proof.
  cbv zeta. unfold Run.
  set (stat := if statusReporter then ContextReporter else NoopReporter).
  set (retry := ErrorRetryInterval (API config)).
  pose proof (Run_loop_paced w stat retry fuel 0 0 (Nat.pred n)) as Hp.
  destruct (Run_loop_waits_between_calls w stat retry fuel 0 0) as (Hw & _).
  destruct (Run_loop fuel w stat retry 0 0) as [effs out]. cbn [fst] in *.
  assert (Hwhole : tally isWait (EUpdateStatus stat Starting "" :: effs)
                   = tally isPublish (EUpdateStatus stat Starting "" :: effs)).
  { exact Hw. }
  destruct n as [|n].
  - unfold tally. cbn. repeat split; try lia; try exact Hwhole; intros d [].
  - cbn [Nat.pred] in Hp. destruct Hp as (H1 & H2 & H3 & H4 & H5).
    cbn [List.firstn].
    change (EUpdateStatus stat Starting "" :: List.firstn n effs)
      with ([EUpdateStatus stat Starting ""] ++ List.firstn n effs)%list.
    rewrite !tally_app.
    change (tally isCall [EUpdateStatus stat Starting ""]) with 0%nat.
    change (tally isWait [EUpdateStatus stat Starting ""]) with 0%nat.
    change (tally isPublish [EUpdateStatus stat Starting ""]) with 0%nat.
    repeat split; try lia; try exact Hwhole.
    intros d [Hin|Hin]; [discriminate Hin | now apply H5].
Qed.

(** X9. Run hands no error of inp.run on to its caller: for a source
    that is a stream it returns nil whenever it returns, whatever inp.run
    and the publisher answered.  Its only error is the one for a source of
    another type, which it reports as Failed without calling inp.run. *)
Theorem Run_returns_nil (fuel : nat) (w : World) (config : Config)
  (statusReporter : bool) (src : option stream) :
  match src with
  | Some _ =>
      snd (Run fuel w config statusReporter src) = Looping
      \/ snd (Run fuel w config statusReporter src) = Returned None
  | None =>
      exists e, snd (Run fuel w config statusReporter src) = Returned (Some e)
                /\ Error e = "source is not an O365 stream"
                /\ tally isCall (fst (Run fuel w config statusReporter src)) = 0%nat
                /\ List.filter isStatus (fst (Run fuel w config statusReporter src))
                   = [EUpdateStatus (if statusReporter then ContextReporter else NoopReporter)
                        Starting "";
                      EUpdateStatus (if statusReporter then ContextReporter else NoopReporter)
                        Failed "source is not an O365 stream"]
  end.
Proof.
  destruct src as [s|]; unfold Run.
  - destruct (Run_loop_returns_nil w
                (if statusReporter then ContextReporter else NoopReporter)
                (ErrorRetryInterval (API config)) fuel 0 0) as [H | H];
      destruct (Run_loop fuel w _ _ 0 0) as [effs out]; cbn [snd] in *; auto.
  - eexists. repeat split.
Qed.

Lemma Run_loop_ends_after_cancellation_witness :
  cancelAt cancelledWorld = Some (1%nat, Canceled)
  /\ (1 <= 2)%nat /\ (1 < 2 + 0)%nat
  /\ snd (Run_loop 2 cancelledWorld ContextReporter (5 * Minute) 0 0) = Returned None.
Proof.
  refine (conj eq_refl (conj _ (conj _ _))).
  - exact (le_S 1 1 (le_n 1)).
  - exact (le_n 2).
  - exact (proj1 (Run_loop_ends_after_cancellation cancelledWorld ContextReporter
                    (5 * Minute) 1 Canceled 2 0 0 eq_refl
                    (le_S 1 1 (le_n 1)) (le_n 2))).
Defined.

End O365More.

(** ** Further facts on mapstr.M: what Put stores, GetValue finds *)
Module MapstrFacts.

Import Mapstr.

Lemma index_dot_lt (key : string) (idx : nat) :
  index_dot key = Some idx -> (idx < String.length key)%nat.
Proof.
  unfold index_dot. revert idx.
  induction key as [|c key IH]; intros idx H.
  - discriminate H.
  - cbn [String.index] in H.
    destruct (String.prefix "." (String c key)).
    + inversion H. cbn. lia.
    + destruct (String.index 0 "." key) as [n|] eqn:E; [|discriminate H].
      inversion H. cbn. specialize (IH n eq_refl). lia.
Qed.

Lemma length_before_dot (idx : nat) (key : string) :
  (String.length (before_dot idx key) <= idx)%nat.
Proof.
  unfold before_dot. revert key.
  induction idx as [|idx IH]; intros key.
  - destruct key; cbn; lia.
  - destruct key as [|c key]; cbn; [lia|]. specialize (IH key). lia.
Qed.

Lemma before_dot_ne (key : string) (idx : nat) :
  index_dot key = Some idx -> before_dot idx key <> key.
Proof.
  intros H E. apply index_dot_lt in H.
  pose proof (length_before_dot idx key) as L. rewrite E in L. lia.
Qed.

Lemma put_get_aux (fuel : nat) (key : string) (v : value) (data m' : M) :
  put_aux fuel key v data = inl m' -> getValue_aux fuel key m' = inl v.
Proof.
  revert key data m'.
  induction fuel as [|fuel IH]; intros key data m' H; [discriminate H|].
  cbn [put_aux] in H. cbn [getValue_aux].
  destruct (lookup key data) as [old|] eqn:Hk.
  - inversion H. now rewrite lookup_set_eq.
  - destruct (index_dot key) as [idx|] eqn:Hi.
    + pose proof (before_dot_ne key idx Hi) as Hne.
      assert (Hdeep : forall d d', put_aux fuel (after_dot idx key) v d = inl d' ->
                m' = set (before_dot idx key) (VMap d') data ->
                match lookup key m' with
                | Some v0 => inl v0
                | None =>
                    match lookup (before_dot idx key) m' with
                    | None => inr ErrKeyNotFound
                    | Some (VMap d0) => getValue_aux fuel (after_dot idx key) d0
                    | Some _ => inr ErrNotMap
                    end
                end = inl v).
      { intros d d' Hp ->.
        rewrite (lookup_set_ne _ key _ data Hne), Hk, lookup_set_eq.
        exact (IH _ _ _ Hp). }
      destruct (lookup (before_dot idx key) data) as [[| | | | |d]|] eqn:Hb;
        try discriminate H.
      * destruct (put_aux fuel (after_dot idx key) v d) as [d'|e] eqn:Hp;
          [|discriminate H].
        injection H as H1. exact (Hdeep d d' Hp (eq_sym H1)).
      * destruct (put_aux fuel (after_dot idx key) v []) as [d'|e] eqn:Hp;
          [|discriminate H].
        injection H as H1. exact (Hdeep [] d' Hp (eq_sym H1)).
    + inversion H. now rewrite lookup_set_eq.
Qed.

(** A value that Put stored without an error is the one GetValue finds
    under the same key. *)
Lemma Put_GetValue (m : M) (key : string) (v : value) :
  snd (Put m key v) = None -> GetValue (fst (Put m key v)) key = inl v.
Proof.
  unfold Put, GetValue.
  destruct (put_aux (S (String.length key)) key v m) as [m'|e] eqn:H; cbn [fst snd].
  - intros _. exact (put_get_aux _ _ _ _ _ H).
  - discriminate.
Qed.

End MapstrFacts.

(** ** libbeat/processors/add_docker_metadata/add_docker_metadata.go,
    the rest of the processor *)
Module DockerMore.

Import GoTime GoErr Docker.

(** *** The container id in a cgroup path *)

Fixpoint allWords (s : string) : bool :=
  match s with
  | EmptyString => true
  | String c s' => isWord c && allWords s'
  end.

(** [s] is empty or ends in a character that is not a word character. *)
Fixpoint endsNonWord (s : string) : bool :=
  match s with
  | EmptyString => true
  | String c s' =>
      match s' with
      | EmptyString => negb (isWord c)
      | String _ _ => endsNonWord s'
      end
  end.

(** 64 word characters [m] stand in [s] right after [pre]. *)
Definition matchAt (s pre m : string) : Prop :=
  exists post,
    s = (pre ++ m ++ post)%string /\ String.length m = 64%nat /\ allWords m = true.

(** No 64 word characters in a row stand anywhere in [s]. *)
Definition noMatch (s : string) : Prop := forall pre m, ~ matchAt s pre m.

Lemma findContainerID_unfold (s : string) :
  findContainerID s
  = match takeWords 64 s with
    | Some m => Some m
    | None =>
        match s with
        | EmptyString => None
        | String _ s' => findContainerID s'
        end
    end.
Proof. destruct s; reflexivity. Qed.

Lemma takeWords_sound (n : nat) (s m : string) :
  takeWords n s = Some m ->
  String.length m = n /\ allWords m = true /\ exists post, s = (m ++ post)%string.
Proof.
  revert s m. induction n as [|n IH]; intros s m H.
  - inversion H. repeat split. now exists s.
  - cbn [takeWords] in H. destruct s as [|c s]; [discriminate H|].
    destruct (isWord c) eqn:Hc; [|discriminate H].
    destruct (takeWords n s) as [m'|] eqn:Hm; [|discriminate H].
    inversion H. destruct (IH s m' Hm) as (Hl & Ha & post & Hs).
    cbn. rewrite Hc, Ha, Hl. repeat split. exists post. now rewrite Hs.
Qed.

Lemma takeWords_complete (m post : string) :
  allWords m = true -> takeWords (String.length m) (m ++ post) = Some m.
Proof.
  induction m as [|c m IH]; intros H; [reflexivity|].
  cbn in H. apply andb_prop in H. destruct H as [Hc Hm].
  cbn. now rewrite Hc, (IH Hm).
Qed.

Lemma takeWords_prefix_none (n : nat) (c : ascii) (pre t : string) :
  takeWords n (String c pre) = None ->
  endsNonWord (String c pre) = true ->
  takeWords n (String c pre ++ t) = None.
Proof.
  revert c pre. induction n as [|n IH]; intros c pre H E; [discriminate H|].
  cbn [takeWords append] in *. destruct (isWord c) eqn:Hc; [|reflexivity].
  destruct pre as [|c' pre].
  - cbn in E. rewrite Hc in E. discriminate E.
  - destruct (takeWords n (String c' pre)) eqn:Hm; [discriminate H|].
    cbn [append]. rewrite (IH c' pre Hm E). reflexivity.
Qed.

(** What the leftmost match is, and what no match means. *)
Lemma findContainerID_spec (s : string) :
  match findContainerID s with
  | Some m =>
      String.length m = 64%nat /\ allWords m = true
      /\ exists pre post,
           s = (pre ++ m ++ post)%string
           /\ forall p q, pre = (p ++ q)%string -> q <> EmptyString ->
                takeWords 64 (q ++ m ++ post) = None
  | None => forall pre post, s = (pre ++ post)%string -> takeWords 64 post = None
  end.
Proof.
  induction s as [|c s IH]; rewrite findContainerID_unfold.
  - cbn. intros pre post H. destruct pre; [|discriminate H].
    cbn in H. now subst post.
  - destruct (takeWords 64 (String c s)) as [m|] eqn:Hm.
    + destruct (takeWords_sound _ _ _ Hm) as (Hl & Ha & post & Hs).
      repeat split; trivial. exists EmptyString, post. split; [exact Hs|].
      intros p q H Hq. destruct p; [|discriminate H]. cbn in H. congruence.
    + destruct (findContainerID s) as [m|].
      * destruct IH as (Hl & Ha & pre & post & Hs & Hleft).
        repeat split; trivial. exists (String c pre), post.
        split; [cbn; now rewrite Hs|].
        intros p q H Hq. destruct p as [|c' p].
        -- cbn in H. subst q. cbn [append]. now rewrite <- Hs.
        -- cbn in H. inversion H. now apply (Hleft p q).
      * intros pre post H. destruct pre as [|c' pre].
        -- cbn in H. now subst post.
        -- cbn in H. inversion H. now apply (IH pre post).
Qed.

Lemma append_split (a b c d : string) :
  (a ++ b)%string = (c ++ d)%string ->
  (String.length c < String.length a)%nat ->
  exists q, a = (c ++ q)%string /\ q <> EmptyString /\ d = (q ++ b)%string.
Proof.
  revert a. induction c as [|x c IH]; intros a H L.
  - cbn in *. exists a. repeat split; [|now symmetry].
    intros ->. cbn in L. lia.
  - destruct a as [|y a]; [cbn in L; lia|].
    cbn in H. inversion H. cbn in L.
    destruct (IH a) as (q & Ha & Hq & Hd); [assumption|lia|].
    exists q. repeat split; trivial. cbn. now rewrite <- Ha.
Qed.

Lemma findContainerID_none (s : string) : findContainerID s = None <-> noMatch s.
Proof.
  pose proof (findContainerID_spec s) as H. split.
  - intros E. rewrite E in H. intros pre m (post & Hs & Hl & Ha).
    specialize (H pre (m ++ post)%string Hs).
    rewrite <- Hl, (takeWords_complete m post Ha) in H. discriminate H.
  - intros N. destruct (findContainerID s) as [m|]; [|reflexivity].
    destruct H as (Hl & Ha & pre & post & Hs & _).
    exfalso. apply (N pre m). now exists post.
Qed.

Lemma findContainerID_some (s m : string) :
  findContainerID s = Some m ->
  exists pre,
    matchAt s pre m
    /\ forall pre' m', matchAt s pre' m' -> (String.length pre <= String.length pre')%nat.
Proof.
  intros E. pose proof (findContainerID_spec s) as H. rewrite E in H.
  destruct H as (Hl & Ha & pre & post & Hs & Hleft).
  exists pre. split; [now exists post|].
  intros pre' m' (post' & Hs' & Hl' & Ha').
  destruct (Nat.le_gt_cases (String.length pre) (String.length pre')) as [|L]; [assumption|].
  exfalso. rewrite Hs in Hs'.
  destruct (append_split _ _ _ _ Hs' L) as (q & Hp & Hq & Hd).
  specialize (Hleft pre' q Hp Hq). rewrite <- Hd in Hleft.
  rewrite <- Hl', (takeWords_complete m' post' Ha') in Hleft. discriminate Hleft.
Qed.

Lemma findContainerID_after_prefix (pre id post : string) :
  findContainerID pre = None -> endsNonWord pre = true ->
  String.length id = 64%nat -> allWords id = true ->
  findContainerID (pre ++ id ++ post) = Some id.
Proof.
  intros Hn He Hl Ha. induction pre as [|c pre IH].
  - cbn [append]. rewrite findContainerID_unfold.
    rewrite <- Hl, (takeWords_complete id post Ha). reflexivity.
  - rewrite findContainerID_unfold in Hn.
    destruct (takeWords 64 (String c pre)) eqn:Hm; [discriminate Hn|].
    rewrite findContainerID_unfold.
    rewrite (takeWords_prefix_none 64 c pre _ Hm He). cbn [append].
    apply IH; [exact Hn|].
    destruct pre; [reflexivity | exact He].
Qed.

Lemma getContainerIDFromCgroups_no_match (paths : PathList) :
  (forall p, In p paths -> findContainerID p = None) ->
  getContainerIDFromCgroups paths = (EmptyString, None).
Proof.
  induction paths as [|p rest IH]; intros H; [reflexivity|].
  cbn. rewrite (H p (or_introl eq_refl)). apply IH.
  intros q Hq. apply H. now right.
Qed.

Lemma getContainerIDFromCgroups_first (before after : PathList) (p m : string) :
  (forall q, In q before -> findContainerID q = None) ->
  findContainerID p = Some m ->
  getContainerIDFromCgroups (before ++ p :: after)%list = (m, None).
Proof.
  induction before as [|q before IH]; intros H E; cbn.
  - now rewrite E.
  - rewrite (H q (or_introl eq_refl)). apply IH; [|exact E].
    intros r Hr. apply H. now right.
Qed.

Lemma getContainerIDFromCgroups_cases (paths : PathList) :
  (getContainerIDFromCgroups paths = (EmptyString, None)
   /\ forall p, In p paths -> findContainerID p = None)
  \/ exists before p after m,
       paths = (before ++ p :: after)%list
       /\ (forall q, In q before -> findContainerID q = None)
       /\ findContainerID p = Some m
       /\ getContainerIDFromCgroups paths = (m, None).
Proof.
  induction paths as [|p rest IH].
  - left. split; [reflexivity | intros p []].
  - cbn [getContainerIDFromCgroups]. destruct (findContainerID p) as [m|] eqn:E.
    + right. exists [], p, rest, m. repeat split; trivial. intros q [].
    + destruct IH as [[H N]|(before & p' & after & m & Hp & Hb & Hm & Hr)].
      * left. split; [exact H|]. intros q [<-|Hq]; [exact E | now apply N].
      * right. exists (p :: before), p', after, m. repeat split; trivial.
        -- cbn. now rewrite Hp.
        -- intros q [<-|Hq]; [exact E | now apply Hb].
Qed.

(** X12. getContainerIDFromCgroups never returns an error.  Its id is empty
    exactly when no path holds 64 word characters in a row.  Otherwise the
    id is 64 word characters long and stands in the first path that holds
    such a run, at the leftmost place of that path where one starts. *)
Theorem getContainerIDFromCgroups_id (paths : PathList) :
  let id := fst (getContainerIDFromCgroups paths) in
  snd (getContainerIDFromCgroups paths) = None
  /\ (id = EmptyString <-> forall p, In p paths -> noMatch p)
  /\ (id <> EmptyString ->
      exists before p after pre,
        paths = (before ++ p :: after)%list
        /\ (forall q, In q before -> noMatch q)
        /\ matchAt p pre id
        /\ forall pre' m', matchAt p pre' m' ->
             (String.length pre <= String.length pre')%nat).
Proof.
  cbn zeta.
  destruct (getContainerIDFromCgroups_cases paths)
    as [[H N]|(before & p & after & m & Hp & Hb & Hm & Hr)].
  - rewrite H. cbn [fst snd]. split; [reflexivity|]. split.
    + split; [|reflexivity]. intros _ p Hin. apply findContainerID_none. now apply N.
    + intros C. now contradiction C.
  - rewrite Hr. cbn [fst snd]. split; [reflexivity|].
    destruct (findContainerID_some p m Hm) as (pre & Hat & Hleft).
    assert (Hne : m <> EmptyString).
    { destruct Hat as (post & _ & Hl & _). intros ->. discriminate Hl. }
    split.
    + split; [intros E; now contradiction Hne|].
      intros N. exfalso. apply (N p) with (pre := pre) (m := m); [|exact Hat].
      rewrite Hp. apply List.in_or_app. right. now left.
    + intros _. exists before, p, after, pre. repeat split; trivial.
      intros q Hq. apply findContainerID_none. now apply Hb.
Qed.

(** X13. The id that Docker puts in a cgroup path is the one found: when
    a path is a prefix without a run of 64 word characters that is empty
    or ends in a character outside the word class (as /docker/ and
    /system.slice/docker- do), then 64 word characters, then anything, and
    no earlier path holds a run, getContainerIDFromCgroups returns exactly
    those 64 characters. *)
Theorem getContainerIDFromCgroups_docker_path (before after : PathList)
  (pre id post : string) :
  (forall q, In q before -> findContainerID q = None) ->
  findContainerID pre = None -> endsNonWord pre = true ->
  String.length id = 64%nat -> allWords id = true ->
  getContainerIDFromCgroups (before ++ (pre ++ id ++ post)%string :: after)%list
  = (id, None).
Proof.
  intros Hb Hn He Hl Ha.
  apply getContainerIDFromCgroups_first; [exact Hb|].
  now apply findContainerID_after_prefix.
Qed.

Lemma getContainerIDFromCgroups_docker_path_witness :
  getContainerIDFromCgroups
    (["/"; "/user.slice"]
     ++ ("/system.slice/docker-" ++ exampleID ++ ".scope")%string :: ["/init.scope"])%list
  = (exampleID, None).
Proof.
  apply (getContainerIDFromCgroups_docker_path ["/"; "/user.slice"] ["/init.scope"]
           "/system.slice/docker-" exampleID ".scope").
  - intros q [<-|[<-|[]]]; reflexivity.
  - reflexivity.
  - reflexivity.
  - reflexivity.
  - reflexivity.
Defined.

(** *** getProcessCgroups: what the reader's answer makes of a lookup *)

Lemma cached_Put (pid : Z) (cid : string) (now : Time) (c : Cache.t) :
  cached (Some (Cache.Put pid cid now c)) pid = Some cid.
Proof.
  cbn [cached].
  now rewrite (Cache.holdsLast_Get _ _ _ _ (Cache.Put_holdsLast pid cid now c)).
Qed.

Lemma notExist_by_reader (d : addDockerMetadata) (fresh : nat) (pid : Z) :
  fresh <> ident ErrNotExist ->
  notExist d fresh pid
  = match cgreader d pid with
    | (paths, None) => (List.length paths =? 0)%nat
    | (_, Some e) => Is e ErrNotExist
    end.
Proof.
  intros Hf. unfold notExist, getProcessCgroups.
  destruct (cgreader d pid) as [paths [e|]]; cbn [snd].
  - cbn [Errorf_w Is]. apply Nat.eqb_neq in Hf. now rewrite Hf.
  - destruct (List.length paths =? 0)%nat; reflexivity.
Qed.

Lemma paths_by_reader (d : addDockerMetadata) (fresh : nat) (pid : Z) :
  fst (getProcessCgroups d fresh pid)
  = match cgreader d pid with
    | (paths, None) => if (List.length paths =? 0)%nat then [] else paths
    | (paths, Some _) => paths
    end.
Proof.
  unfold getProcessCgroups.
  destruct (cgreader d pid) as [paths [e|]]; [reflexivity|].
  destruct (List.length paths =? 0)%nat; reflexivity.
Qed.

(** X14. A lookup for an event with one PID that the cache does not hold
    ends by what the cgroup reader answers for that PID.  An empty list of
    paths, or an error that wraps fs.ErrNotExist: the id is empty and the
    processor is as it was, nothing is cached.  Any other answer, a failed
    read with another error included: the id is the one found in the paths
    the reader returned (the empty id when there is none), without an
    error, and the cache holds that id for the PID afterwards.  The error
    that getProcessCgroups makes is a new one: its identity is not that
    of fs.ErrNotExist. *)
Theorem lookupContainerIDByPID_by_reader (d : addDockerMetadata) (fresh : nat)
  (event : Beat.Event) (now : Time) (pid : Z) :
  fresh <> ident ErrNotExist ->
  eventPIDs event (pidFields d) = [pid] ->
  cached (cgroups d) pid = None ->
  exists cid d' tr,
    lookupContainerIDByPID d fresh event now = Ret ((cid, None), d', tr)
    /\ let skipped := cid = EmptyString /\ d' = d in
       let answered (paths : PathList) :=
         cid = fst (getContainerIDFromCgroups paths)
         /\ cached (cgroups d') pid = Some cid in
       match cgreader d pid with
       | (paths, Some e) => if Is e ErrNotExist then skipped else answered paths
       | (paths, None) =>
           match paths with
           | [] => skipped
           | _ :: _ => answered paths
           end
       end.
Proof.
  intros Hf Hp Hc.
  destruct (lookupContainerIDByPID_cases d fresh event now) as (out & Hr & Hcase).
  pose proof (notExist_by_reader d fresh pid Hf) as Hn.
  pose proof (paths_by_reader d fresh pid) as Hpaths.
  destruct Hcase as [missed rest q cid tr Hq Hm Hhit _ _ _
                    | tr _ Hall _ _ _
                    | skipped rest q tr cid _ Hq Hsk Hq' _ _ _].
  - exfalso. rewrite Hp in Hq.
    destruct missed as [|m missed]; cbn in Hq.
    + inversion Hq. subst q. congruence.
    + inversion Hq. destruct missed; discriminate.
  - exists EmptyString, d, tr. split; [exact Hr|].
    rewrite Hp in Hall. cbn in Hall. rewrite Bool.andb_true_r in Hall.
    rewrite Hall in Hn.
    destruct (cgreader d pid) as [paths [e|]].
    + cbn zeta. rewrite <- Hn. now split.
    + cbn zeta. destruct paths; [now split | discriminate Hn].
  - assert (q = pid) as ->.
    { rewrite Hp in Hq. destruct skipped as [|m skipped]; cbn in Hq.
      - now inversion Hq.
      - inversion Hq. destruct skipped; discriminate. }
    exists cid, (withCgroups d (Some (Cache.Put pid cid now (cacheOrNew d)))), tr.
    split; [exact Hr|].
    rewrite Hq' in Hn. subst cid. rewrite Hpaths.
    destruct (cgreader d pid) as [paths [e|]].
    + cbn zeta. rewrite <- Hn. split; [reflexivity|].
      cbn [cgroups withCgroups]. apply cached_Put.
    + cbn zeta. destruct paths; [discriminate Hn|].
      cbn [List.length Nat.eqb]. split; [reflexivity|].
      cbn [cgroups withCgroups]. apply cached_Put.
Qed.

(** *** buildDockerMetadataProcessor: when it fails *)

Lemma Is_refl (e : error) : Is e e = true.
Proof. destruct e; cbn; now rewrite Nat.eqb_refl. Qed.

Lemma Is_Errorf_w_inner (i : nat) (text : string) (e : error) :
  Is (Errorf_w i text e) e = true.
Proof. cbn. rewrite Is_refl. apply Bool.orb_true_r. Qed.

(** What made the constructor fail. *)
Inductive buildFailure (env : buildEnv) (cause : error) : Prop :=
| UnpackFailed : unpack env = inr cause -> buildFailure env cause
| StartFailed (wt : Watcher) :
    watcherConstructor env = inl wt -> Start wt = Some cause ->
    buildFailure env cause
| ExtractFieldFailed (config : Config) :
    unpack env = inl config -> MatchSource config = true ->
    newExtractField env = inr cause -> buildFailure env cause
| CgroupsFailed :
    initCgroupPaths env = inr cause -> Is cause ErrCgroupsMissing = false ->
    buildFailure env cause.

(** X15. The constructor fails exactly when the configuration cannot be
    unpacked, or the watcher was constructed and cannot be started, or the
    source is to be matched and the extract_field processor cannot be
    made, or the cgroup reader fails with an error that is not
    ErrCgroupsMissing; and errors.Is finds that cause in the error it
    returns.  A watcher that cannot be constructed and missing cgroups are
    no causes. *)
Theorem buildDockerMetadataProcessor_fails (env : buildEnv) :
  match buildDockerMetadataProcessor env with
  | inr err => exists cause, buildFailure env cause /\ Is err cause = true
  | inl d => forall cause, ~ buildFailure env cause
  end.
Proof.
  assert (Hcg : forall ec text,
            initCgroupPaths env = inr ec -> Is ec ErrCgroupsMissing = false ->
            exists cause,
              buildFailure env cause
              /\ Is (Errorf_w (buildFresh env) text ec) cause = true).
  { intros ec text Hc Hi. exists ec.
    split; [now apply CgroupsFailed | apply Is_Errorf_w_inner]. }
  unfold buildDockerMetadataProcessor.
  destruct (unpack env) as [config|e0] eqn:Hu.
  2:{ exists e0. split; [now apply UnpackFailed | apply Is_Errorf_w_inner]. }
  destruct (watcherConstructor env) as [wt|ew] eqn:Hw;
    [destruct (Start wt) as [es|] eqn:Hs|].
  - exists es. split; [now apply (StartFailed env es wt) | apply Is_Errorf_w_inner].
  - destruct (MatchSource config) eqn:Hm;
      [destruct (newExtractField env) as [sp|ex] eqn:Hx|];
      try (exists ex; split;
           [now apply (ExtractFieldFailed env ex config) | apply Is_refl]);
      (destruct (initCgroupPaths env) as [r|ec] eqn:Hc;
       [|destruct (Is ec ErrCgroupsMissing) eqn:Hi; [|now apply Hcg]]);
      intros cause F; destruct F as [F|wt' F1 F2|cfg F1 F2 F3|F1 F2]; congruence.
  - destruct (MatchSource config) eqn:Hm;
      [destruct (newExtractField env) as [sp|ex] eqn:Hx|];
      try (exists ex; split;
           [now apply (ExtractFieldFailed env ex config) | apply Is_refl]);
      (destruct (initCgroupPaths env) as [r|ec] eqn:Hc;
       [|destruct (Is ec ErrCgroupsMissing) eqn:Hi; [|now apply Hcg]]);
      intros cause F; destruct F as [F|wt' F1 F2|cfg F1 F2 F3|F1 F2]; congruence.
Qed.

(** *** Run and Close *)

(** What Close does to its surroundings. *)
Inductive closeEffect : Type :=
| EStopJanitor
| EWatcherStop
| ECloseSource.

Definition isStopJanitor (e : closeEffect) : bool :=
  match e with EStopJanitor => true | _ => false end.

Definition isWatcherStop (e : closeEffect) : bool :=
  match e with EWatcherStop => true | _ => false end.

Section RunClose.

Variable DeDot : string -> string.
Variable safemapstrPut : Mapstr.M -> string -> Mapstr.value -> Mapstr.M.
Variable DeepUpdate : Mapstr.M -> Mapstr.M -> Mapstr.M.

(** processors.Close of libbeat/processors, on the source processor (nil
    when there is none). *)
Variable processorsClose : option Processor -> option error.

Let Run := Docker.Run DeDot safemapstrPut DeepUpdate.
Let RunAll := Docker.RunAll DeDot safemapstrPut DeepUpdate.
Let enrich := Docker.enrich DeDot safemapstrPut DeepUpdate.
Let containerMeta := Docker.containerMeta DeDot safemapstrPut.
Let containerLabels := Docker.containerLabels DeDot safemapstrPut.

Definition Close (d : addDockerMetadata) (fresh : nat)
  : option error * addDockerMetadata * list closeEffect :=
  let '(d1, tr1) :=
    match cgroups d with
    | Some c => (withCgroups d (Some (Cache.StopJanitor c)), [EStopJanitor])
    | None => (d, [])
    end in
  let tr2 :=
    match watcher d1 with
    | Some _ => [EWatcherStop]
    | None => []
    end in
  match processorsClose (sourceProcessor d1) with
  | Some err =>
      (Some (Errorf_w fresh "closing source processor of add_docker_metadata: " err),
       d1, (tr1 ++ tr2 ++ [ECloseSource])%list)
  | None => (None, d1, (tr1 ++ tr2 ++ [ECloseSource])%list)
  end.

(** The three ways the first step of Run ends. *)
Lemma extractFromSource_cases (d : addDockerMetadata) (event : Beat.Event) :
  match extractFromSource d event with
  | Crash => exists sp, sourceProcessor d = Some sp /\ sp event = (None, None)
  | Stop ev _ => exists sp e, sourceProcessor d = Some sp /\ sp event = (ev, Some e)
  | Continue ev cid tr =>
      (ev = event /\ cid = EmptyString /\ tr = [])
      \/ exists sp,
           sourceProcessor d = Some sp /\ sp event = (Some ev, None)
           /\ tr = [ESourceProcessor]
  end.
Proof.
  unfold extractFromSource.
  destruct (sourceProcessor d) as [sp|]; [|now left].
  assert (Hrun :
    match (let '(event', err) := sp event in
           match err with
           | Some _ =>
               Stop event'
                 [ESourceProcessor;
                  EDebug "Error while extracting container ID from source path"]
           | None =>
               match event' with
               | None => Crash
               | Some ev =>
                   Continue ev
                     match Beat.GetValue ev dockerContainerIDKey with
                     | inl (Mapstr.VStr v) => v
                     | _ => EmptyString
                     end
                     [ESourceProcessor]
               end
           end) with
    | Crash => exists sp0, Some sp = Some sp0 /\ sp0 event = (None, None)
    | Stop ev _ => exists sp0 e, Some sp = Some sp0 /\ sp0 event = (ev, Some e)
    | Continue ev cid tr =>
        (ev = event /\ cid = EmptyString /\ tr = [])
        \/ exists sp0,
             Some sp = Some sp0 /\ sp0 event = (Some ev, None)
             /\ tr = [ESourceProcessor]
    end).
  { destruct (sp event) as [[ev|] [e|]] eqn:Hsp.
    - now exists sp, e.
    - right. now exists sp.
    - now exists sp, e.
    - now exists sp. }
  destruct (Beat.GetValue event "log.file.path") as [[| | | | |]|]; trivial; now left.
Qed.

Lemma enrich_cases (d : addDockerMetadata) (event : Beat.Event) (cid : string)
  (tr : list effect) :
  match enrich d event cid tr with
  | Ret ((ev, err), d', _) => err = None /\ ev <> None /\ d' = d
  | Panic => watcher d = None
  end.
Proof.
  unfold enrich, Docker.enrich.
  destruct (String.eqb _ EmptyString); [repeat split; discriminate|].
  destruct (watcher d) as [wt|]; [|reflexivity].
  destruct (ContainerOf wt _); repeat split; discriminate.
Qed.

Lemma lookup_keeps (d : addDockerMetadata) (fresh : nat) (event : Beat.Event)
  (now : Time) :
  exists cid d' tr,
    lookupContainerIDByPID d fresh event now = Ret ((cid, None), d', tr)
    /\ exists cache, d' = withCgroups d cache.
Proof.
  destruct (lookup_cache_effect d fresh event now) as (cid & d' & tr & H & Hd).
  exists cid, d', tr. split; [exact H|].
  destruct Hd as [[-> _]|(pid & _ & _ & -> & _)].
  - exists (cgroups d). now rewrite withCgroups_same.
  - now eexists.
Qed.

(** How a call of Run ends. *)
Lemma Run_outcome (d : addDockerMetadata) (fresh : nat) (event : Beat.Event)
  (now : Time) :
  match Run d fresh event now with
  | Ret ((ev, err), d', _) =>
      err = None
      /\ (exists cache, d' = withCgroups d cache)
      /\ (ev = None ->
          exists sp e, sourceProcessor d = Some sp /\ sp event = (None, Some e))
  | Panic =>
      (dockerAvailable d = true /\ watcher d = None)
      \/ exists sp, sourceProcessor d = Some sp /\ sp event = (None, None)
  end.
Proof.
  assert (Hsame : exists cache, d = withCgroups d cache).
  { exists (cgroups d). now rewrite withCgroups_same. }
  unfold Run, Docker.Run.
  destruct (dockerAvailable d) eqn:Ha; cbn [negb].
  2:{ repeat split; [exact Hsame | discriminate]. }
  pose proof (extractFromSource_cases d event) as Hx.
  destruct (extractFromSource d event) as [ev' tr|ev cid tr1|].
  - destruct Hx as (sp & e & Hsp & Hrun).
    repeat split; [exact Hsame|]. intros ->. now exists sp, e.
  - assert (Hen : forall d0 ev0 cid0 tr0,
              (exists cache, d0 = withCgroups d cache) ->
              match Docker.enrich DeDot safemapstrPut DeepUpdate d0 ev0 cid0 tr0 with
              | Ret ((ev1, err), d', _) =>
                  err = None
                  /\ (exists cache, d' = withCgroups d cache)
                  /\ (ev1 = None ->
                      exists sp e,
                        sourceProcessor d = Some sp /\ sp event = (None, Some e))
              | Panic =>
                  (true = true /\ watcher d = None)
                  \/ exists sp, sourceProcessor d = Some sp /\ sp event = (None, None)
              end).
    { intros d0 ev0 cid0 tr0 (cache & Hd0).
      pose proof (enrich_cases d0 ev0 cid0 tr0) as He. unfold enrich in He.
      destruct (Docker.enrich DeDot safemapstrPut DeepUpdate d0 ev0 cid0 tr0)
        as [[[[ev1 err] d'] tr']|].
      - destruct He as (-> & Hev & ->). repeat split; [now exists cache|].
        intros E. now contradiction Hev.
      - left. split; [reflexivity|]. now rewrite Hd0 in He. }
    destruct (String.eqb cid EmptyString && (0 <? List.length (pidFields d))%nat).
    + destruct (lookup_keeps d fresh ev now) as (id & d' & tr2 & Hl & Hd').
      rewrite Hl.
      destruct (negb (String.eqb id EmptyString)); now apply Hen.
    + now apply Hen.
  - right. exact Hx.
Qed.

(** X16. Run never returns an error: the lookup by PID cannot fail, so
    the branch that wraps its error is never taken.  A nil event comes
    back only when the source processor failed and returned none.  Run
    panics only when docker counts as available without a watcher, or when
    the source processor returns neither an event nor an error.  Between
    two calls the processor differs in its cache at most. *)
Theorem Run_never_errs (d : addDockerMetadata) (fresh : nat) (event : Beat.Event)
  (now : Time) :
  match Run d fresh event now with
  | Ret ((ev, err), d', _) =>
      err = None
      /\ (exists cache, d' = withCgroups d cache)
      /\ (ev = None ->
          exists sp e, sourceProcessor d = Some sp /\ sp event = (None, Some e))
  | Panic =>
      (dockerAvailable d = true /\ watcher d = None)
      \/ exists sp, sourceProcessor d = Some sp /\ sp event = (None, None)
  end.
Proof. exact (Run_outcome d fresh event now). Qed.

(** The processor can be run: docker is available only with a watcher, and
    the source processor returns an event or an error. *)
Definition runnable (d : addDockerMetadata) : Prop :=
  (dockerAvailable d = true -> watcher d <> None)
  /\ forall sp ev, sourceProcessor d = Some sp -> sp ev <> (None, None).

Lemma runnable_withCgroups (d : addDockerMetadata) (cache : option Cache.t) :
  runnable d -> runnable (withCgroups d cache).
Proof. intros H. exact H. Qed.

Lemma build_runnable (env : buildEnv) (d : addDockerMetadata) :
  buildDockerMetadataProcessor env = inl d ->
  (forall sp ev, newExtractField env = inl sp -> sp ev <> (None, None)) ->
  runnable d.
Proof.
  intros Hb Hsp. split; [apply (build_fields env d Hb)|].
  revert Hb. unfold buildDockerMetadataProcessor.
  destruct (unpack env) as [config|]; [|discriminate].
  destruct (watcherConstructor env) as [wt|];
    [destruct (Start wt); [discriminate|]|];
    (destruct (MatchSource config);
     [destruct (newExtractField env) as [sp0|] eqn:Hx; [|discriminate]|];
     (destruct (initCgroupPaths env) as [r|ec];
      [|destruct (Is ec ErrCgroupsMissing); [|discriminate]]);
     intros Hb; inversion Hb; cbn; intros sp ev E; inversion E; subst;
     now apply Hsp).
Qed.

Lemma Run_runnable (d : addDockerMetadata) (fresh : nat) (event : Beat.Event)
  (now : Time) :
  runnable d ->
  exists ev d' tr,
    Run d fresh event now = Ret ((ev, None), d', tr) /\ runnable d'.
Proof.
  intros [Hw Hsp]. pose proof (Run_outcome d fresh event now) as H.
  destruct (Run d fresh event now) as [[[[ev err] d'] tr]|].
  - destruct H as (-> & (cache & ->) & _). exists ev, (withCgroups d cache), tr.
    split; [reflexivity|]. now split.
  - exfalso. destruct H as [[Ha Hn]|(sp & Hs & Hr)].
    + now apply (Hw Ha).
    + now apply (Hsp sp event Hs).
Qed.

Lemma RunAll_runnable (fresh : nat) (calls : list (Beat.Event * Time)) :
  forall d, runnable d ->
  exists d' tr, RunAll d fresh calls = Ret (d', tr) /\ runnable d'.
Proof.
  induction calls as [|[event now] rest IH]; intros d Hd.
  - exists d, []. now split.
  - destruct (Run_runnable d fresh event now Hd) as (ev & d1 & tr1 & Hr & Hd1).
    destruct (IH d1 Hd1) as (d2 & tr2 & Hr2 & Hd2).
    exists d2, (tr1 ++ tr2)%list. split; [|exact Hd2].
    unfold RunAll, Run in *. cbn [Docker.RunAll]. now rewrite Hr, Hr2.
Qed.

(** X17. A processor that the constructor returned, with a source
    processor that returns an event or an error on every call, serves any
    sequence of events: no call of Run panics, and after them a further
    call returns without an error. *)
Theorem built_processor_runs (env : buildEnv) (d : addDockerMetadata) (fresh : nat)
  (calls : list (Beat.Event * Time)) :
  buildDockerMetadataProcessor env = inl d ->
  (forall sp ev, newExtractField env = inl sp -> sp ev <> (None, None)) ->
  exists d' tr,
    RunAll d fresh calls = Ret (d', tr)
    /\ forall event now,
         exists ev d'' tr', Run d' fresh event now = Ret ((ev, None), d'', tr').
Proof.
  intros Hb Hsp.
  destruct (RunAll_runnable fresh calls d (build_runnable env d Hb Hsp))
    as (d' & tr & Hr & Hd').
  exists d', tr. split; [exact Hr|]. intros event now.
  destruct (Run_runnable d' fresh event now Hd') as (ev & d'' & tr' & H & _).
  now exists ev, d'', tr'.
Qed.

Definition tallyClose (p : closeEffect -> bool) (tr : list closeEffect) : nat :=
  List.length (List.filter p tr).

(** X18. Close after any use of a constructed processor stops what was
    started: the janitor is stopped as often as the calls of Run started
    one (once or never), the cache that stays behind has no janitor, the
    watcher is stopped once exactly when docker was available, and this
    is so also when closing the source processor fails; Close fails
    exactly when that does. *)
Theorem Close_stops_what_was_started (env : buildEnv) (d d' : addDockerMetadata)
  (fresh : nat) (calls : list (Beat.Event * Time)) (tr : list effect) :
  buildDockerMetadataProcessor env = inl d ->
  RunAll d fresh calls = Ret (d', tr) ->
  let '(err, closed, ctr) := Close d' fresh in
  tallyClose isStopJanitor ctr = count isJanitorStart tr
  /\ (count isJanitorStart tr <= 1)%nat
  /\ (forall c, cgroups closed = Some c -> Cache.janitor c = None)
  /\ tallyClose isWatcherStop ctr = (if dockerAvailable d then 1 else 0)%nat
  /\ (err = None <-> processorsClose (sourceProcessor d) = None).
Proof.
  intros Hb Hr.
  destruct (RunAll_cache_effect DeDot safemapstrPut DeepUpdate fresh calls d d' tr Hr)
    as ((cache & Hd') & _ & Hc).
  destruct (build_fields env d Hb) as (Hnone & Hav & Hw).
  rewrite Hnone in Hc.
  assert (Hwatch : (match watcher d with Some _ => 1 | None => 0 end
                    = if dockerAvailable d then 1 else 0)%nat).
  { destruct (dockerAvailable d) eqn:Ha.
    - specialize (Hw eq_refl). now destruct (watcher d).
    - revert Hb Ha. unfold buildDockerMetadataProcessor.
      destruct (unpack env) as [config|]; [|discriminate].
      destruct (watcherConstructor env) as [wt|];
        [destruct (Start wt); [discriminate|]|];
        (destruct (MatchSource config);
         [destruct (newExtractField env); [|discriminate]|];
         (destruct (initCgroupPaths env) as [r|ec];
          [|destruct (Is ec ErrCgroupsMissing); [|discriminate]]);
         intros Hb; inversion Hb; cbn; try discriminate; reflexivity). }
  unfold Close. subst d'. cbn [cgroups withCgroups] in *.
  destruct cache as [c|].
  - destruct Hc as [[Hc _]|(_ & _ & Hj & _)]; [discriminate Hc|].
    cbn [watcher sourceProcessor withCgroups].
    destruct (processorsClose (sourceProcessor d)) as [e|];
      (repeat apply conj;
       [ rewrite Hj; unfold tallyClose; rewrite List.filter_app; cbn;
         destruct (watcher d); reflexivity
       | lia
       | intros c0 E; inversion E; reflexivity
       | rewrite <- Hwatch; unfold tallyClose; cbn; destruct (watcher d); reflexivity
       | intros E; try discriminate E; reflexivity
       | intros E; try discriminate E; reflexivity ]).
  - destruct Hc as [[_ (_ & Hj & _)]|(Hc & _)]; [|now contradiction Hc].
    cbn [watcher sourceProcessor withCgroups].
    destruct (processorsClose (sourceProcessor d)) as [e|];
      (repeat apply conj;
       [ rewrite Hj; unfold tallyClose; cbn; destruct (watcher d); reflexivity
       | lia
       | intros c0 E; discriminate E
       | rewrite <- Hwatch; unfold tallyClose; cbn; destruct (watcher d); reflexivity
       | intros E; try discriminate E; reflexivity
       | intros E; try discriminate E; reflexivity ]).
Qed.

(** What Run returns once the id is known and not empty: the watcher is
    asked for it once, and a known container's metadata is merged into the
    event. *)
Definition enriched (d : addDockerMetadata) (wt : Watcher) (event : Beat.Event)
  (cid : string) (tr : list effect) : result RunResult :=
  match ContainerOf wt cid with
  | Some c =>
      Ret ((Some (withFields event (DeepUpdate (Beat.Fields event) (containerMeta d c))),
            None), d, (tr ++ [EWatcherContainer cid])%list)
  | None =>
      Ret ((Some event, None), d,
           (tr ++ [EWatcherContainer cid; EDebug "Container not found"])%list)
  end.

Lemma enrich_known (d : addDockerMetadata) (wt : Watcher) (event : Beat.Event)
  (cid : string) (tr : list effect) :
  watcher d = Some wt -> cid <> EmptyString ->
  enrich d event cid tr = enriched d wt event cid tr.
Proof.
  intros Hw Hne. unfold enrich, Docker.enrich, enriched.
  apply String.eqb_neq in Hne. rewrite Hne. cbn [andb]. rewrite Hne, Hw.
  reflexivity.
Qed.

(** X19. An id that the source processor extracted from the file path
    decides: when the event has a log.file.path and the source processor
    leaves a non-empty string under container.id, Run asks the watcher
    for that id and for nothing else; no PID field is read, the cache and
    the cgroup reader are not consulted, the match fields are not looked
    at, and the processor is as it was. *)
Theorem source_id_takes_precedence (d : addDockerMetadata) (fresh : nat)
  (event ev : Beat.Event) (now : Time) (sp : Processor) (wt : Watcher)
  (path : Mapstr.value) (cid : string) :
  dockerAvailable d = true ->
  watcher d = Some wt ->
  sourceProcessor d = Some sp ->
  Beat.GetValue event "log.file.path" = inl path -> path <> Mapstr.VNil ->
  sp event = (Some ev, None) ->
  Beat.GetValue ev dockerContainerIDKey = inl (Mapstr.VStr cid) ->
  cid <> EmptyString ->
  Run d fresh event now = enriched d wt ev cid [ESourceProcessor].
Proof.
  intros Ha Hw Hs Hp Hnil Hrun Hid Hne.
  unfold Run, Docker.Run. rewrite Ha. cbn [negb].
  assert (Hx : extractFromSource d event = Continue ev cid [ESourceProcessor]).
  { unfold extractFromSource. rewrite Hs, Hp, Hrun, Hid.
    destruct path; trivial. now contradiction Hnil. }
  rewrite Hx.
  pose proof Hne as Hne'. apply String.eqb_neq in Hne'. rewrite Hne'. cbn [andb].
  now apply enrich_known.
Qed.

(** X20. An id found by PID is written to the event and decides: when no
    id came from the source path, PID fields are configured and the lookup
    by PID returns a non-empty id, Run puts that id into the event under
    container.id (where GetValue then finds it, unless the event's fields
    do not allow the key), asks the watcher for that id alone and does not
    look at the match fields. *)
Theorem pid_id_is_written (d d' : addDockerMetadata) (fresh : nat)
  (event ev : Beat.Event) (now : Time) (wt : Watcher) (id : string)
  (tr1 tr2 : list effect) :
  dockerAvailable d = true ->
  watcher d = Some wt ->
  extractFromSource d event = Continue ev EmptyString tr1 ->
  pidFields d <> [] ->
  lookupContainerIDByPID d fresh ev now = Ret ((id, None), d', tr2) ->
  id <> EmptyString ->
  let written := Beat.PutValue dockerContainerIDKey (Mapstr.VStr id) ev in
  Run d fresh event now = enriched d' wt (fst written) id (tr1 ++ tr2)%list
  /\ (snd written = None ->
      Beat.GetValue (fst written) dockerContainerIDKey = inl (Mapstr.VStr id)).
Proof.
  intros Ha Hw Hx Hp Hl Hne. cbn zeta. split.
  - unfold Run, Docker.Run. rewrite Ha, Hx, Hl. cbn [negb String.eqb andb].
    assert (Hlen : (0 <? List.length (pidFields d))%nat = true).
    { destruct (pidFields d); [now contradiction Hp | reflexivity]. }
    rewrite Hlen.
    pose proof Hne as Hne'. apply String.eqb_neq in Hne'. rewrite Hne'. cbn [negb].
    apply enrich_known; [|exact Hne].
    destruct (lookup_keeps d fresh ev now) as (id0 & d0 & tr0 & Hl0 & cache & Hd0).
    rewrite Hl in Hl0. inversion Hl0. subst. exact Hw.
  - unfold Beat.PutValue, Beat.GetValue.
    pose proof (MapstrFacts.Put_GetValue (Beat.Fields ev) dockerContainerIDKey
                  (Mapstr.VStr id)) as H.
    destruct (Mapstr.Put (Beat.Fields ev) dockerContainerIDKey (Mapstr.VStr id))
      as [m err].
    cbn [fst snd Beat.Fields] in *. exact H.
Qed.

(** No field of [names] holds a string in the event. *)
Definition holdNoString (event : Beat.Event) (names : list string) : bool :=
  List.forallb
    (fun field =>
       match Beat.GetValue event field with
       | inl (Mapstr.VStr _) => false
       | _ => true
       end) names.

Lemma firstStringField_first (event : Beat.Event) (skipped rest : list string)
  (field v : string) :
  holdNoString event skipped = true ->
  Beat.GetValue event field = inl (Mapstr.VStr v) ->
  firstStringField event (skipped ++ field :: rest) = Some v.
Proof.
  intros Hs Hf. induction skipped as [|g skipped IH]; cbn [firstStringField app].
  - now rewrite Hf.
  - unfold holdNoString in Hs. cbn [List.forallb] in Hs.
    apply andb_prop in Hs. destruct Hs as [Hg Hs].
    destruct (Beat.GetValue event g) as [[| | | | |]|]; try discriminate Hg;
      now apply IH.
Qed.

(** X21. When neither the source path nor the lookup by PID gave an id
    (each because it is not configured or because it found none), the
    match fields decide, and among them the first one that holds a
    string, whatever the string: fields that are missing or hold another
    type are passed over, and the fields after it are not looked at.  A
    non-empty string is the id the watcher is asked for; an empty string
    ends Run with the event as the source step left it, although a later
    field may hold an id. *)
Theorem first_string_field_decides (d d' : addDockerMetadata) (fresh : nat)
  (event ev : Beat.Event) (now : Time) (wt : Watcher)
  (skipped rest : list string) (field v : string) (tr1 tr2 : list effect) :
  dockerAvailable d = true ->
  watcher d = Some wt ->
  extractFromSource d event = Continue ev EmptyString tr1 ->
  (pidFields d = [] /\ d' = d /\ tr2 = []
   \/ pidFields d <> []
      /\ lookupContainerIDByPID d fresh ev now = Ret ((EmptyString, None), d', tr2)) ->
  fields d = (skipped ++ field :: rest)%list ->
  holdNoString ev skipped = true ->
  Beat.GetValue ev field = inl (Mapstr.VStr v) ->
  Run d fresh event now
  = if String.eqb v EmptyString then Ret ((Some ev, None), d', (tr1 ++ tr2)%list)
    else enriched d' wt ev v (tr1 ++ tr2)%list.
Proof.
  intros Ha Hw Hx Hpid Hf Hskip Hv.
  assert (Hen : forall d0 tr, fields d0 = fields d -> watcher d0 = watcher d ->
            Docker.enrich DeDot safemapstrPut DeepUpdate d0 ev EmptyString tr
            = if String.eqb v EmptyString then Ret ((Some ev, None), d0, tr)
              else enriched d0 wt ev v tr).
  { intros d0 tr Hf0 Hw0. unfold Docker.enrich, enriched. rewrite Hf0, Hw0, Hf.
    rewrite (firstStringField_first ev skipped rest field v Hskip Hv).
    cbn [String.eqb].
    assert (Hlen : (0 <? List.length (skipped ++ field :: rest))%nat = true).
    { rewrite List.length_app. cbn [List.length]. apply Nat.ltb_lt. lia. }
    rewrite Hlen. cbn [andb].
    destruct (String.eqb v EmptyString); [reflexivity|].
    rewrite Hw. reflexivity. }
  unfold Run, Docker.Run. rewrite Ha, Hx. cbn [negb String.eqb andb].
  destruct Hpid as [(Hp & -> & ->)|(Hp & Hl)].
  - rewrite Hp. cbn [List.length Nat.ltb Nat.leb]. rewrite List.app_nil_r.
    now apply Hen.
  - assert (Hlen : (0 <? List.length (pidFields d))%nat = true).
    { destruct (pidFields d); [now contradiction Hp | reflexivity]. }
    rewrite Hlen, Hl. cbn [negb String.eqb].
    destruct (lookup_keeps d fresh ev now) as (id0 & d0 & tr0 & Hl0 & cache & Hd0).
    rewrite Hl in Hl0. inversion Hl0. subst. now apply Hen.
Qed.

(** X22. The metadata of a container holds its id, image and name under
    the dotted keys container.id, container.image.name and
    container.name, each found again by GetValue, and the labels under
    container.labels exactly when the container has labels. *)
Theorem containerMeta_round_trip (d : addDockerMetadata) (c : Container) :
  let meta := containerMeta d c in
  Mapstr.GetValue meta "container.id" = inl (Mapstr.VStr (cID c))
  /\ Mapstr.GetValue meta "container.image.name" = inl (Mapstr.VStr (cImage c))
  /\ Mapstr.GetValue meta "container.name" = inl (Mapstr.VStr (cName c))
  /\ Mapstr.GetValue meta "container.labels"
     = match cLabels c with
       | [] => inr Mapstr.ErrKeyNotFound
       | _ :: _ => inl (Mapstr.VMap (containerLabels d c))
       end.
Proof.
  cbn zeta. unfold containerMeta, Docker.containerMeta.
  fold (containerLabels d c). generalize (containerLabels d c) as labels.
  intros labels. destruct (cLabels c) as [|kv l]; cbn [List.length Nat.ltb Nat.leb];
    repeat split; reflexivity.
Qed.

End RunClose.

(** *** The rest of the processor on concrete surroundings *)

(** A reader that may not read the cgroups of any process. *)
Definition deniedReader : CGReader :=
  fun _ => ([], Some (Plain 30 "permission denied")).

Definition deniedProcessor : addDockerMetadata :=
  {| watcher := Some exampleWatcher; fields := []; sourceProcessor := None;
     pidFields := ["process.pid"]; cgroups := None;
     dedot := true; dockerAvailable := true; cgreader := deniedReader |}.

Lemma lookupContainerIDByPID_by_reader_witness :
  exists d' tr,
    lookupContainerIDByPID deniedProcessor 70 exampleEvent 1000
    = Ret ((EmptyString, None), d', tr)
    /\ cached (cgroups d') 17 = Some EmptyString.
Proof.
  destruct (lookupContainerIDByPID_by_reader deniedProcessor 70 exampleEvent 1000 17)
    as (cid & d' & tr & Hr & Hc & Hd).
  - discriminate.
  - reflexivity.
  - reflexivity.
  - exists d', tr. cbn in Hc. subst cid. now split.
Defined.

(** A stand-in for the extract_field processor: the path element after
    /var/lib/docker/containers/ goes to container.id. *)
Definition exSource : Processor :=
  fun ev =>
    match Beat.GetValue ev "log.file.path" with
    | inl (Mapstr.VStr path) =>
        (Some (fst (Beat.PutValue dockerContainerIDKey
                      (Mapstr.VStr (substring 27 64 path)) ev)), None)
    | _ => (Some ev, Some (Plain 40 "field log.file.path is not a string"))
    end.

Definition sourceEnv : buildEnv :=
  {| unpack := inl {| MatchSource := true; MatchFields := ["docker.id"; "container.id"];
                      MatchPIDs := ["process.pid"; "process.parent.pid"];
                      DeDotLabels := true |};
     watcherConstructor := inl exampleWatcher;
     newExtractField := inl exSource;
     initCgroupPaths := inr ErrCgroupsMissing;
     nilCGReader := fun _ => ([], None);
     buildFresh := 60 |}.

Definition sourceProcessor' : addDockerMetadata :=
  {| watcher := Some exampleWatcher; fields := ["docker.id"; "container.id"];
     sourceProcessor := Some exSource;
     pidFields := ["process.pid"; "process.parent.pid"]; cgroups := None;
     dedot := true; dockerAvailable := true; cgreader := fun _ => ([], None) |}.

(** A line of the log file of the example container. *)
Definition logEvent : Beat.Event :=
  {| Beat.Timestamp := 0;
     Beat.Fields :=
       [("log",
         Mapstr.VMap
           [("file",
             Mapstr.VMap
               [("path",
                 Mapstr.VStr ("/var/lib/docker/containers/" ++ exampleID ++ "/"
                              ++ exampleID ++ "-json.log"))])])];
     Beat.ID := None;
     Beat.Private := None |}.

Definition logEventWithID : Beat.Event :=
  fst (Beat.PutValue dockerContainerIDKey (Mapstr.VStr exampleID) logEvent).

Example build_source : buildDockerMetadataProcessor sourceEnv = inl sourceProcessor'.
Proof. reflexivity. Qed.

Lemma exSource_returns (sp : Processor) (ev : Beat.Event) :
  newExtractField sourceEnv = inl sp -> sp ev <> (None, None).
Proof.
  intros E. inversion E. unfold exSource.
  destruct (Beat.GetValue ev "log.file.path") as [[| | | | |]|]; discriminate.
Defined.

Lemma built_processor_runs_witness :
  exists d' tr,
    RunAll exDeDot exSafePut exDeepUpdate sourceProcessor' 70
      [(logEvent, 1000); (exampleEvent, 2000)] = Ret (d', tr)
    /\ forall event now,
         exists ev d'' tr',
           Run exDeDot exSafePut exDeepUpdate d' 70 event now
           = Ret ((ev, None), d'', tr').
Proof.
  exact (built_processor_runs exDeDot exSafePut exDeepUpdate sourceEnv sourceProcessor' 70
           [(logEvent, 1000); (exampleEvent, 2000)]
           build_source (fun sp ev => exSource_returns sp ev)).
Defined.

(** Closing a processor that has no Close of its own, or none at all. *)
Definition exClose (p : option Processor) : option error := None.

Lemma Close_stops_what_was_started_witness :
  let '(err, closed, ctr) := Close exClose exampleAfter 70 in
  tallyClose isStopJanitor ctr = 1%nat
  /\ (forall c, cgroups closed = Some c -> Cache.janitor c = None)
  /\ tallyClose isWatcherStop ctr = 1%nat
  /\ err = None.
Proof.
  pose proof (Close_stops_what_was_started exDeDot exSafePut exDeepUpdate exClose
                exampleEnv exampleProcessor exampleAfter 70
                [(exampleEvent, 1000); (exampleEvent, 2000)] _
                build_example RunAll_example) as H.
  cbv in H |- *. destruct H as (Hj & _ & Hc & Hw & He).
  repeat split. exact Hc.
Defined.

Lemma source_id_takes_precedence_witness :
  Run exDeDot exSafePut exDeepUpdate sourceProcessor' 70 logEvent 1000
  = enriched exDeDot exSafePut exDeepUpdate sourceProcessor' exampleWatcher
      logEventWithID exampleID [ESourceProcessor].
Proof.
  apply (source_id_takes_precedence exDeDot exSafePut exDeepUpdate sourceProcessor' 70
           logEvent logEventWithID 1000 exSource exampleWatcher
           (Mapstr.VStr ("/var/lib/docker/containers/" ++ exampleID ++ "/"
                         ++ exampleID ++ "-json.log"))).
  - reflexivity.
  - reflexivity.
  - reflexivity.
  - reflexivity.
  - discriminate.
  - reflexivity.
  - reflexivity.
  - discriminate.
Defined.

Lemma pid_id_is_written_witness :
  let written := Beat.PutValue dockerContainerIDKey (Mapstr.VStr exampleID) exampleEvent in
  Run exDeDot exSafePut exDeepUpdate exampleProcessor 70 exampleEvent 1000
  = enriched exDeDot exSafePut exDeepUpdate exampleAfter exampleWatcher
      (fst written) exampleID ([] ++ exampleTrace)%list
  /\ Beat.GetValue (fst written) dockerContainerIDKey = inl (Mapstr.VStr exampleID).
Proof.
  destruct (pid_id_is_written exDeDot exSafePut exDeepUpdate exampleProcessor exampleAfter
              70 exampleEvent exampleEvent 1000 exampleWatcher exampleID [] exampleTrace)
    as [Hr Hg].
  - reflexivity.
  - reflexivity.
  - reflexivity.
  - discriminate.
  - reflexivity.
  - discriminate.
  - split; [exact Hr|]. apply Hg. reflexivity.
Defined.

(** Source path, PIDs and fields are all matched; the event has neither a
    file path nor a PID, an empty docker.id and the id of the example
    container under container.id. *)
Definition fieldsProcessor : addDockerMetadata :=
  {| watcher := Some exampleWatcher; fields := ["pod.uid"; "docker.id"; "container.id"];
     sourceProcessor := Some exSource; pidFields := ["process.pid"; "process.parent.pid"];
     cgroups := None; dedot := true; dockerAvailable := true;
     cgreader := exampleReader |}.

Definition fieldsEvent : Beat.Event :=
  {| Beat.Timestamp := 0;
     Beat.Fields :=
       [("pod", Mapstr.VMap [("uid", Mapstr.VInt 7)]);
        ("docker", Mapstr.VMap [("id", Mapstr.VStr EmptyString)]);
        ("container", Mapstr.VMap [("id", Mapstr.VStr exampleID)])];
     Beat.ID := None;
     Beat.Private := None |}.

Lemma first_string_field_decides_witness :
  Run exDeDot exSafePut exDeepUpdate fieldsProcessor 70 fieldsEvent 1000
  = Ret ((Some fieldsEvent, None), fieldsProcessor, []).
Proof.
  exact (first_string_field_decides exDeDot exSafePut exDeepUpdate
           fieldsProcessor fieldsProcessor 70
           fieldsEvent fieldsEvent 1000 exampleWatcher ["pod.uid"] ["container.id"]
           "docker.id" EmptyString [] [] eq_refl eq_refl eq_refl
           (or_intror (conj (fun H => eq_ind (pidFields fieldsProcessor)
                                        (fun l => match l with [] => False | _ => True end)
                                        I [] H)
                           eq_refl))
           eq_refl eq_refl eq_refl).
Defined.

End DockerMore.

(** ** x-pack/metricbeat/module/gcp/metrics: the service metric prefix *)
Module GcpMetrics.

(** strings.HasPrefix and strings.HasSuffix *)
Definition HasPrefix (s p : string) : bool := String.prefix p s.

Definition HasSuffix (s suffix : string) : bool :=
  (String.length suffix <=? String.length s)%nat
  && String.eqb
       (substring (String.length s - String.length suffix) (String.length suffix) s)
       suffix.

(** strings.TrimPrefix *)
Definition TrimPrefix (s p : string) : string :=
  if HasPrefix s p
  then substring (String.length p) (String.length s - String.length p) s
  else s.

(** The fields of metricsConfig. *)
Record metricsConfig : Type := mkMetricsConfig {
  ServiceName : string;
  ServiceMetricPrefix : string;
  MetricTypes : list string;
  Aligner : string
}.

(** prefix returns the service metric prefix, falling back to the Google
    Cloud monitoring service prefix when not specified; it is normalized
    to end with '/'. *)
Definition prefix (mc : metricsConfig) : string :=
  let prefix := ServiceMetricPrefix mc in
  let prefix :=
    if String.eqb prefix EmptyString
    then (ServiceName mc ++ ".googleapis.com/")%string
    else prefix in
  if negb (HasSuffix prefix "/") then (prefix ++ "/")%string else prefix.

Definition AddPrefixTo (mc : metricsConfig) (metric : string) : string :=
  (prefix mc ++ metric)%string.

Definition RemovePrefixFrom (mc : metricsConfig) (metric : string) : string :=
  TrimPrefix metric (prefix mc).

(** The configuration with its prefix written out. *)
Definition withPrefix (mc : metricsConfig) (p : string) : metricsConfig :=
  {| ServiceName := ServiceName mc; ServiceMetricPrefix := p;
     MetricTypes := MetricTypes mc; Aligner := Aligner mc |}.

(** *** Facts on strings *)

Lemma length_append (a b : string) :
  String.length (a ++ b) = (String.length a + String.length b)%nat.
Proof. induction a as [|c a IH]; cbn; [reflexivity | now rewrite IH]. Qed.

Lemma prefix_append (p s : string) : String.prefix p (p ++ s) = true.
Proof.
  induction p as [|c p IH]; cbn.
  - now destruct s.
  - destruct (Ascii.ascii_dec c c) as [_|N]; [exact IH | now contradiction N].
Qed.

Lemma prefix_split (p s : string) :
  String.prefix p s = true -> exists rest, s = (p ++ rest)%string.
Proof.
  revert s. induction p as [|c p IH]; intros s H.
  - now exists s.
  - destruct s as [|c' s]; cbn in H; [discriminate H|].
    destruct (Ascii.ascii_dec c c') as [->|_]; [|discriminate H].
    destruct (IH s H) as (rest & ->). now exists rest.
Qed.

Lemma substring_all (s : string) : substring 0 (String.length s) s = s.
Proof. induction s as [|c s IH]; cbn; [reflexivity | now rewrite IH]. Qed.

Lemma substring_after (p s : string) :
  substring (String.length p) (String.length (p ++ s) - String.length p) (p ++ s) = s.
Proof.
  induction p as [|c p IH]; cbn [String.length append substring].
  - rewrite Nat.sub_0_r. apply substring_all.
  - exact IH.
Qed.

Lemma substring_last (p s : string) :
  substring (String.length p) (String.length s) (p ++ s) = s.
Proof.
  induction p as [|c p IH]; cbn [String.length append substring].
  - apply substring_all.
  - exact IH.
Qed.

Lemma HasSuffix_append (p s : string) : HasSuffix (p ++ s) s = true.
Proof.
  unfold HasSuffix. rewrite length_append.
  replace (String.length p + String.length s - String.length s)%nat
    with (String.length p) by lia.
  rewrite substring_last, String.eqb_refl.
  replace (String.length s <=? String.length p + String.length s)%nat with true;
    [reflexivity|]. symmetry. apply Nat.leb_le. lia.
Qed.

Lemma TrimPrefix_append (p s : string) : TrimPrefix (p ++ s) p = s.
Proof.
  unfold TrimPrefix, HasPrefix. rewrite prefix_append. apply substring_after.
Qed.

Lemma append_inj (p a b : string) : (p ++ a)%string = (p ++ b)%string -> a = b.
Proof.
  induction p as [|c p IH]; cbn; intros H; [exact H|].
  inversion H. now apply IH.
Qed.

Lemma append_assoc (a b c : string) : ((a ++ b) ++ c)%string = (a ++ (b ++ c))%string.
Proof. induction a as [|x a IH]; cbn; [reflexivity | now rewrite IH]. Qed.

Lemma append_nonempty (a b : string) : b <> EmptyString -> (a ++ b)%string <> EmptyString.
Proof. destruct a; cbn; [trivial | discriminate]. Qed.

Lemma prefix_cases (mc : metricsConfig) :
  let given :=
    if String.eqb (ServiceMetricPrefix mc) EmptyString
    then (ServiceName mc ++ ".googleapis.com/")%string
    else ServiceMetricPrefix mc in
  given <> EmptyString
  /\ (HasSuffix given "/" = true /\ prefix mc = given
      \/ HasSuffix given "/" = false /\ prefix mc = (given ++ "/")%string).
Proof.
  cbn zeta. unfold prefix. split.
  - destruct (String.eqb (ServiceMetricPrefix mc) EmptyString) eqn:E.
    + apply append_nonempty. discriminate.
    + now apply String.eqb_neq.
  - match goal with |- context [HasSuffix ?g "/"] => destruct (HasSuffix g "/") end;
      [left | right]; now split.
Qed.

(** X23. The prefix of a metrics configuration is never empty and ends
    in a slash; it is the configured service_metric_prefix, or
    <service>.googleapis.com/ when none is configured, with a slash added
    only when the last character is not one.  It is a fixed point: a
    configuration that spells out that prefix has the same one. *)
Theorem prefix_normalized (mc : metricsConfig) :
  prefix mc <> EmptyString
  /\ HasSuffix (prefix mc) "/" = true
  /\ (ServiceMetricPrefix mc = EmptyString ->
      prefix mc = (ServiceName mc ++ ".googleapis.com/")%string)
  /\ (ServiceMetricPrefix mc <> EmptyString ->
      prefix mc = ServiceMetricPrefix mc
      \/ prefix mc = (ServiceMetricPrefix mc ++ "/")%string
         /\ HasSuffix (ServiceMetricPrefix mc) "/" = false)
  /\ prefix (withPrefix mc (prefix mc)) = prefix mc.
Proof.
  destruct (prefix_cases mc) as (Hne & Hcase). cbn zeta in *.
  assert (Hnorm : prefix mc <> EmptyString /\ HasSuffix (prefix mc) "/" = true).
  { destruct Hcase as [[Hs ->]|[Hs ->]].
    - now split.
    - split; [apply append_nonempty; discriminate | apply HasSuffix_append]. }
  destruct Hnorm as [Hp Hs].
  split; [exact Hp|]. split; [exact Hs|]. split; [|split].
  - intros E. unfold prefix. rewrite E. cbn [String.eqb].
    change ".googleapis.com/" with (".googleapis.com" ++ "/")%string.
    rewrite <- append_assoc, HasSuffix_append. reflexivity.
  - intros N. apply String.eqb_neq in N. rewrite N in Hcase.
    destruct Hcase as [[_ H]|[Hf H]]; [now left | right; now split].
  - unfold prefix at 1. cbn [ServiceMetricPrefix ServiceName withPrefix].
    apply String.eqb_neq in Hp. rewrite Hp, Hs. reflexivity.
Qed.

(** X24. Adding and removing the prefix are inverse to each other:
    RemovePrefixFrom undoes AddPrefixTo on every metric; AddPrefixTo undoes
    RemovePrefixFrom on every metric that starts with the prefix, and
    RemovePrefixFrom leaves every other metric as it is; and two metric
    types have the same full name only when they are equal, so that the
    metric types of one configuration get keys of their own. *)
Theorem prefix_round_trip (mc : metricsConfig) (metric : string) :
  RemovePrefixFrom mc (AddPrefixTo mc metric) = metric
  /\ (if HasPrefix metric (prefix mc)
      then AddPrefixTo mc (RemovePrefixFrom mc metric) = metric
      else RemovePrefixFrom mc metric = metric)
  /\ forall other, AddPrefixTo mc metric = AddPrefixTo mc other -> metric = other.
Proof.
  unfold RemovePrefixFrom, AddPrefixTo. split; [apply TrimPrefix_append|]. split.
  - destruct (HasPrefix metric (prefix mc)) eqn:H.
    + destruct (prefix_split _ _ H) as (rest & ->). now rewrite TrimPrefix_append.
    + unfold TrimPrefix. now rewrite H.
  - intros other. apply append_inj.
Qed.

Example prefix_examples :
  prefix (mkMetricsConfig "compute" "" [] "") = "compute.googleapis.com/"
  /\ prefix (mkMetricsConfig "compute" "custom.googleapis.com/vm" [] "")
     = "custom.googleapis.com/vm/"
  /\ RemovePrefixFrom (mkMetricsConfig "compute" "" [] "")
       "compute.googleapis.com/instance/cpu/usage_time" = "instance/cpu/usage_time".
Proof. repeat split. Qed.

End GcpMetrics.

(** ** libbeat/processors/add_cloud_metadata/http_fetcher.go *)
Module CloudMetadata.

Import GoErr.

Definition bytes := string.

(** The result of a fetch, as this file uses it: the provider, the error
    and the metadata. *)
Record metadataResult : Type := mkResult {
  resProvider : string;
  resErr : option error;
  resMetadata : Mapstr.M
}.

Definition withErr (res : metadataResult) (e : error) : metadataResult :=
  {| resProvider := resProvider res; resErr := Some e; resMetadata := resMetadata res |}.

Definition withMetadata (res : metadataResult) (m : Mapstr.M) : metadataResult :=
  {| resProvider := resProvider res; resErr := resErr res; resMetadata := m |}.

(** responseHandler writes something to the result according to the HTTP
    response. *)
Definition responseHandler := bytes -> metadataResult -> metadataResult * option error.

Definition schemaConv := Mapstr.M -> Mapstr.M.

Record httpMetadataFetcher : Type := mkFetcher {
  provider : string;
  headers : list (string * string);
  responseHandlers : list (string * responseHandler);
  conv : schemaConv
}.

(** What c.Unpack leaves in the configuration: the host when the
    configuration names one, or an error. *)
Definition Unpacked : Type := option string + error.

(** An HTTP response: the status code, and the body or the error of
    reading it. *)
Record Response : Type := mkResponse {
  StatusCode : Z;
  Body : bytes + error
}.

(** http.NewRequest for a GET of the URL, and client.Do of the request
    with its headers. *)
Record Client : Type := mkClient {
  NewRequest : string -> option error;
  Do : string -> list (string * string) -> Response + error
}.

Inductive effect : Type :=
| ENewRequest (url : string)
| EDo (url : string) (hdrs : list (string * string)).

Definition StatusOK : Z := 200.

Section Fetcher.

(** json.Decoder.Decode into the metadata of the result. *)
Variable jsonDecode : bytes -> Mapstr.M -> Mapstr.M * option error.

(** The identity of the errors made here. *)
Variable fresh : nat.

Definition getMetadataURLsWithScheme (c : Unpacked) (scheme defaultHost : string)
  (metadataURIs : list string) : list string * option error :=
  match c with
  | inr err => ([], Some (Errorf_w fresh "failed to unpack add_cloud_metadata config: " err))
  | inl host =>
      let MetadataHostAndPort :=
        match host with
        | Some h => h
        | None => defaultHost
        end in
      (List.map (fun uri => (scheme ++ "://" ++ MetadataHostAndPort ++ uri)%string)
         metadataURIs, None)
  end.

Definition getMetadataURLs (c : Unpacked) (defaultHost : string)
  (metadataURIs : list string) : list string * option error :=
  getMetadataURLsWithScheme c "http" defaultHost metadataURIs.

Definition makeJSONPicker (provider : string) : responseHandler :=
  fun all res =>
    let '(m, err) := jsonDecode all (resMetadata res) in
    (withMetadata res m,
     option_map (Errorf_w fresh "failed to unmarshal %v JSON of '%v': ") err).

(** urls[0] panics on an empty slice. *)
Definition newMetadataFetcher (c : Unpacked) (provider : string)
  (headers : list (string * string)) (host : string) (conv : schemaConv) (uri : string)
  : result (httpMetadataFetcher + error) :=
  let '(urls, err) := getMetadataURLs c host [uri] in
  match err with
  | Some e => Ret (inr e)
  | None =>
      match urls with
      | [] => Panic
      | url :: _ =>
          Ret (inl {| provider := provider; headers := headers;
                      responseHandlers := [(url, makeJSONPicker provider)];
                      conv := conv |})
      end
  end.

Definition fetchRaw (f : httpMetadataFetcher) (client : Client) (url : string)
  (handler : responseHandler) (res : metadataResult) : metadataResult * list effect :=
  match NewRequest client url with
  | Some err =>
      (withErr res (Errorf_w fresh "failed to create http request for %v: " err),
       [ENewRequest url])
  | None =>
      match Do client url (headers f) with
      | inr err =>
          (withErr res (Errorf_w fresh "failed requesting %v metadata: " err),
           [ENewRequest url; EDo url (headers f)])
      | inl rsp =>
          if negb (StatusCode rsp =? StatusOK) then
            (withErr res (New fresh "failed with http status code %v"),
             [ENewRequest url; EDo url (headers f)])
          else
            match Body rsp with
            | inr err =>
                (withErr res (Errorf_w fresh "failed requesting %v metadata: " err),
                 [ENewRequest url; EDo url (headers f)])
            | inl all =>
                let '(res', err) := handler all res in
                (match err with
                 | Some e => withErr res' e
                 | None => res'
                 end,
                 [ENewRequest url; EDo url (headers f)])
            end
      end
  end.

(** The loop of fetchMetadata over the response handlers, in the order in
    which the map yields them. *)
Fixpoint fetchAll (f : httpMetadataFetcher) (client : Client)
  (handlers : list (string * responseHandler)) (res : metadataResult)
  : metadataResult * list effect :=
  match handlers with
  | [] => (res, [])
  | (url, handler) :: rest =>
      let '(res', tr) := fetchRaw f client url handler res in
      match resErr res' with
      | Some _ => (res', tr)
      | None =>
          let '(res'', tr') := fetchAll f client rest res' in
          (res'', (tr ++ tr')%list)
      end
  end.

Definition fetchMetadata (f : httpMetadataFetcher) (client : Client)
  : metadataResult * list effect :=
  let res := {| resProvider := provider f; resErr := None; resMetadata := [] |} in
  let '(res, tr) := fetchAll f client (responseHandlers f) res in
  match resErr res with
  | Some _ => (res, tr)
  | None =>
      (withMetadata res
         (fst (Mapstr.Put (conv f (resMetadata res)) "cloud.provider"
                 (Mapstr.VStr (provider f)))),
       tr)
  end.

(** The URLs for which a request was at least tried. *)
Fixpoint tried (tr : list effect) : list string :=
  match tr with
  | [] => []
  | ENewRequest url :: rest => url :: tried rest
  | EDo _ _ :: rest => tried rest
  end.

Lemma tried_app (a b : list effect) : tried (a ++ b) = (tried a ++ tried b)%list.
Proof.
  induction a as [|[url|url hdrs] a IH]; cbn; [reflexivity | now rewrite IH | exact IH].
Qed.

Lemma fetchRaw_tried (f : httpMetadataFetcher) (client : Client) (url : string)
  (handler : responseHandler) (res : metadataResult) :
  tried (snd (fetchRaw f client url handler res)) = [url].
Proof.
  unfold fetchRaw.
  destruct (NewRequest client url); [reflexivity|].
  destruct (Do client url (headers f)) as [rsp|]; [|reflexivity].
  destruct (negb (StatusCode rsp =? StatusOK)); [reflexivity|].
  destruct (Body rsp) as [all|]; [|reflexivity].
  destruct (handler all res) as [res' [e|]]; reflexivity.
Qed.

(** The handler of [url] fails on the result so far. *)
Definition failsAt (f : httpMetadataFetcher) (client : Client) (url : string)
  (handler : responseHandler) (res : metadataResult) : Prop :=
  resErr (fst (fetchRaw f client url handler res)) <> None.

Lemma fetchAll_stops (f : httpMetadataFetcher) (client : Client)
  (handlers : list (string * responseHandler)) :
  forall res, resErr res = None ->
  let '(res', tr) := fetchAll f client handlers res in
  exists done rest,
    handlers = (done ++ rest)%list
    /\ tried tr = List.map fst done
    /\ match resErr res' with
       | None => rest = []
       | Some e =>
           exists before url handler res0,
             done = (before ++ [(url, handler)])%list
             /\ resErr res0 = None
             /\ resErr (fst (fetchRaw f client url handler res0)) = Some e
       end.
Proof.
  induction handlers as [|[url handler] rest IH]; intros res Hres; cbn [fetchAll].
  - exists [], []. rewrite Hres. now repeat split.
  - pose proof (fetchRaw_tried f client url handler res) as Ht.
    destruct (fetchRaw f client url handler res) as [res1 tr1] eqn:Hraw.
    cbn [snd] in Ht.
    destruct (resErr res1) as [e|] eqn:He.
    + exists [(url, handler)], rest. rewrite He. repeat split; [exact Ht|].
      exists [], url, handler, res. rewrite Hraw. now repeat split.
    + specialize (IH res1 He).
      destruct (fetchAll f client rest res1) as [res2 tr2].
      destruct IH as (done & rest' & -> & Htr & Hend).
      exists ((url, handler) :: done), rest'. split; [reflexivity|]. split.
      * rewrite tried_app, Ht, Htr. reflexivity.
      * destruct (resErr res2) as [e|]; [|exact Hend].
        destruct Hend as (before & url' & handler' & res0 & -> & H0 & Hfail).
        now exists ((url, handler) :: before), url', handler', res0.
Qed.

(** X25. fetchMetadata stops at the first failure: the URLs for which a
    request is tried are the handlers' URLs in the order of the loop up
    to one handler, each once.  When the result has no error every
    handler was served, and the metadata went through the conversion and
    then got cloud.provider.  When it has one, it is the error of the last
    handler tried, whose predecessors left none; no later URL is tried and
    the result is as that handler left it, without the conversion. *)
Theorem fetchMetadata_stops_at_first_failure (f : httpMetadataFetcher) (client : Client) :
  let raw :=
    fst (fetchAll f client (responseHandlers f)
           {| resProvider := provider f; resErr := None; resMetadata := [] |}) in
  let '(res, tr) := fetchMetadata f client in
  exists done rest,
    responseHandlers f = (done ++ rest)%list
    /\ tried tr = List.map fst done
    /\ match resErr res with
       | None =>
           rest = []
           /\ resMetadata res
              = fst (Mapstr.Put (conv f (resMetadata raw)) "cloud.provider"
                       (Mapstr.VStr (provider f)))
       | Some e =>
           res = raw
           /\ exists before url handler res0,
                done = (before ++ [(url, handler)])%list
                /\ resErr res0 = None
                /\ resErr (fst (fetchRaw f client url handler res0)) = Some e
       end.
Proof.
  cbn zeta. unfold fetchMetadata.
  pose proof (fetchAll_stops f client (responseHandlers f)
                {| resProvider := provider f; resErr := None; resMetadata := [] |}
                eq_refl) as H.
  destruct (fetchAll f client (responseHandlers f)
              {| resProvider := provider f; resErr := None; resMetadata := [] |})
    as [res tr].
  destruct H as (done & rest & Hh & Htr & Hend). cbn [fst].
  destruct (resErr res) as [e|] eqn:He.
  - exists done, rest. rewrite He. now repeat split.
  - exists done, rest. cbn [resErr withMetadata]. rewrite He. now repeat split.
Qed.

(** What one request to [url] gives a fetcher with the JSON handler. *)
Inductive fetched (client : Client) (hdrs : list (string * string)) (url : string)
  : option Mapstr.M -> Prop :=
| RequestNotMade (e : error) :
    NewRequest client url = Some e -> fetched client hdrs url None
| RequestFailed (e : error) :
    NewRequest client url = None -> Do client url hdrs = inr e ->
    fetched client hdrs url None
| StatusNotOK (rsp : Response) :
    NewRequest client url = None -> Do client url hdrs = inl rsp ->
    StatusCode rsp <> StatusOK -> fetched client hdrs url None
| BodyNotRead (rsp : Response) (e : error) :
    NewRequest client url = None -> Do client url hdrs = inl rsp ->
    StatusCode rsp = StatusOK -> Body rsp = inr e -> fetched client hdrs url None
| NotJSON (rsp : Response) (all : bytes) (e : error) :
    NewRequest client url = None -> Do client url hdrs = inl rsp ->
    StatusCode rsp = StatusOK -> Body rsp = inl all ->
    snd (jsonDecode all []) = Some e -> fetched client hdrs url None
| Decoded (rsp : Response) (all : bytes) :
    NewRequest client url = None -> Do client url hdrs = inl rsp ->
    StatusCode rsp = StatusOK -> Body rsp = inl all ->
    snd (jsonDecode all []) = None ->
    fetched client hdrs url (Some (fst (jsonDecode all []))).

(** X26. newMetadataFetcher never panics (the URL list it indexes has
    one element); it fails exactly when the configuration cannot be
    unpacked, with an error that wraps the cause.  The fetcher it returns
    asks one URL, http:// followed by the configured host (the default
    host when none is configured) and the URI, with the given headers, at
    most once.  Its result names the provider; it has no error exactly
    when the request could be made, was answered with status 200 and a
    readable body, and the body was decoded; then the metadata is the
    converted document with cloud.provider put in, and on every failure
    the conversion is not applied and cloud.provider is not put in. *)
Theorem newMetadataFetcher_fetches_once (c : Unpacked) (name : string)
  (hdrs : list (string * string)) (host : string) (convert : schemaConv) (uri : string)
  (client : Client) :
  match newMetadataFetcher c name hdrs host convert uri with
  | Panic => False
  | Ret (inr e) => exists cause, c = inr cause /\ Unwrap e = Some cause
  | Ret (inl f) =>
      exists configured,
        c = inl configured
        /\ let url :=
             ("http://" ++ match configured with Some h => h | None => host end ++ uri)%string in
           let '(res, tr) := fetchMetadata f client in
           resProvider res = name
           /\ (tr = [ENewRequest url] \/ tr = [ENewRequest url; EDo url hdrs])
           /\ exists outcome,
                fetched client hdrs url outcome
                /\ match outcome with
                   | Some document =>
                       resErr res = None
                       /\ resMetadata res
                          = fst (Mapstr.Put (convert document) "cloud.provider"
                                   (Mapstr.VStr name))
                   | None =>
                       resErr res <> None
                       /\ (resMetadata res = []
                           \/ exists all, resMetadata res = fst (jsonDecode all []))
                   end
  end.
Proof.
  unfold newMetadataFetcher, getMetadataURLs, getMetadataURLsWithScheme.
  destruct c as [configured|cause]; [|now exists cause].
  cbn [List.map]. exists configured. split; [reflexivity|]. cbn zeta.
  set (url := ("http" ++ "://" ++ match configured with Some h => h | None => host end
               ++ uri)%string).
  change ("http://" ++ match configured with Some h => h | None => host end ++ uri)%string
    with url.
  unfold fetchMetadata. cbn [responseHandlers provider conv fetchAll].
  unfold fetchRaw. cbn [headers].
  destruct (NewRequest client url) as [e|] eqn:Hn.
  { cbn. split; [reflexivity|]. split; [now left|].
    exists None. split; [now apply (RequestNotMade client hdrs url e)|].
    split; [discriminate | now left]. }
  destruct (Do client url hdrs) as [rsp|e] eqn:Hd.
  2:{ cbn. split; [reflexivity|]. split; [now right|].
      exists None. split; [now apply (RequestFailed client hdrs url e)|].
      split; [discriminate | now left]. }
  destruct (StatusCode rsp =? StatusOK) eqn:Hs; cbn [negb].
  2:{ cbn. split; [reflexivity|]. split; [now right|].
      exists None. apply Z.eqb_neq in Hs.
      split; [now apply (StatusNotOK client hdrs url rsp)|].
      split; [discriminate | now left]. }
  apply Z.eqb_eq in Hs.
  destruct (Body rsp) as [all|e] eqn:Hb.
  2:{ cbn. split; [reflexivity|]. split; [now right|].
      exists None. split; [now apply (BodyNotRead client hdrs url rsp e)|].
      split; [discriminate | now left]. }
  unfold makeJSONPicker. cbn [resMetadata].
  destruct (jsonDecode all []) as [m [e|]] eqn:Hj; cbn.
  - split; [reflexivity|]. split; [now right|].
    exists None. split.
    + apply (NotJSON client hdrs url rsp all e); trivial. now rewrite Hj.
    + split; [discriminate|]. right. exists all. now rewrite Hj.
  - split; [reflexivity|]. split; [now right|].
    exists (Some m). split.
    + replace m with (fst (jsonDecode all [])) by now rewrite Hj.
      apply (Decoded client hdrs url rsp all); trivial. now rewrite Hj.
    + now split.
Qed.

End Fetcher.

End CloudMetadata.

(** ** dev-tools/mage: the validation of the modules.d directory *)
Module Mage.

Import GoErr.

Record datasetDefinition : Type := mkDataset {
  Enabled : option bool
}.

Record moduleDefinition : Type := mkModule {
  Name : string;
  Filesets : list (string * datasetDefinition)
}.

(** What the validation reads: the files that filepath.Glob finds for
    modules.d/*.disabled, the contents os.ReadFile returns, and the module
    definitions yaml.Unmarshal makes of them. *)
Record surroundings : Type := mkSurroundings {
  Glob : list string + error;
  ReadFile : string -> string + error;
  Unmarshal : string -> list moduleDefinition + error
}.

Section Validate.

Variable env : surroundings.
Variable fresh : nat.

Fixpoint loadFiles (files : list string)
  : list (string * list moduleDefinition) + error :=
  match files with
  | [] => inl []
  | file :: rest =>
      match ReadFile env file with
      | inr err => inr (Errorf_w fresh "reading %s: " err)
      | inl contents =>
          match Unmarshal env contents with
          | inr err => inr (Errorf_w fresh "parsing %s as YAML: " err)
          | inl cfg =>
              match loadFiles rest with
              | inr err => inr err
              | inl modules => inl ((file, cfg) :: modules)
              end
          end
      end
  end.

Definition loadModulesD : list (string * list moduleDefinition) + error :=
  match Glob env with
  | inr err => inr err
  | inl files => loadFiles files
  end.

Definition ValidateDirModulesD : option error :=
  match loadModulesD with
  | inr err => Some err
  | inl _ => None
  end.

(** The arguments of one "must be explicitly disabled" error: the file,
    the module, the entry number when the file has several modules, and
    the dataset. *)
Record offence : Type := mkOffence {
  oPath : string;
  oModule : string;
  oEntry : option nat;
  oDataset : string
}.

(** ds.Enabled == nil || *ds.Enabled *)
Definition notDisabled (ds : datasetDefinition) : bool :=
  match Enabled ds with
  | None => true
  | Some b => b
  end.

Definition datasetErrors (path : string) (len modIdx : nat) (md : moduleDefinition)
  : list offence :=
  List.map
    (fun named =>
       {| oPath := path; oModule := Name md;
          oEntry := if (1 <? len)%nat then Some (modIdx + 1)%nat else None;
          oDataset := fst named |})
    (List.filter (fun named => notDisabled (snd named)) (Filesets md)).

Fixpoint moduleErrors (path : string) (len modIdx : nat) (cfg : list moduleDefinition)
  : list offence :=
  match cfg with
  | [] => []
  | md :: rest =>
      (datasetErrors path len modIdx md ++ moduleErrors path len (S modIdx) rest)%list
  end.

(** What the validation returns: nil, the error of loading, or the join
    of one error for each dataset that is not disabled. *)
Inductive validation : Type :=
| Valid
| LoadFailed (err : error)
| NotDisabled (errs : list offence).

Definition ValidateDirModulesDDatasetsDisabled : validation :=
  match loadModulesD with
  | inr err => LoadFailed err
  | inl cfgs =>
      match List.flat_map
              (fun loaded => moduleErrors (fst loaded) (List.length (snd loaded)) 0
                               (snd loaded))
              cfgs with
      | [] => Valid
      | errs => NotDisabled errs
      end
  end.

(** The dataset [name] of the module at index [idx] of [cfg], loaded from
    [path], gives the error [o]. *)
Definition offends (cfgs : list (string * list moduleDefinition)) (o : offence) : Prop :=
  exists path cfg idx md ds,
    In (path, cfg) cfgs
    /\ List.nth_error cfg idx = Some md
    /\ In (oDataset o, ds) (Filesets md)
    /\ Enabled ds <> Some false
    /\ oPath o = path
    /\ oModule o = Name md
    /\ oEntry o = if (1 <? List.length cfg)%nat then Some (idx + 1)%nat else None.

Lemma notDisabled_iff (ds : datasetDefinition) :
  notDisabled ds = true <-> Enabled ds <> Some false.
Proof.
  unfold notDisabled. destruct (Enabled ds) as [[|]|]; split; congruence.
Qed.

Lemma moduleErrors_iff (path : string) (len : nat) (cfg : list moduleDefinition)
  (o : offence) :
  forall base,
  In o (moduleErrors path len base cfg)
  <-> exists idx md ds,
        List.nth_error cfg idx = Some md
        /\ In (oDataset o, ds) (Filesets md)
        /\ Enabled ds <> Some false
        /\ oPath o = path
        /\ oModule o = Name md
        /\ oEntry o = if (1 <? len)%nat then Some (base + idx + 1)%nat else None.
Proof.
  induction cfg as [|md rest IH]; intros base; cbn [moduleErrors].
  - split; [intros [] | intros (idx & m & ds & H & _)]. now destruct idx.
  - rewrite List.in_app_iff, (IH (S base)). split.
    + intros [H|(idx & m & ds & Hn & Hin & He & Hp & Hm & Hentry)].
      * unfold datasetErrors in H. apply List.in_map_iff in H.
        destruct H as ([name ds] & <- & Hf). apply List.filter_In in Hf.
        destruct Hf as [Hin Hnd]. exists 0%nat, md, ds. cbn [fst snd] in *.
        rewrite Nat.add_0_r. repeat split; trivial. now apply notDisabled_iff.
      * exists (S idx), m, ds. repeat split; trivial.
        rewrite Hentry. now replace (base + S idx)%nat with (S base + idx)%nat by lia.
    + intros (idx & m & ds & Hn & Hin & He & Hp & Hm & Hentry).
      destruct idx as [|idx].
      * left. cbn in Hn. injection Hn as <-. unfold datasetErrors.
        apply List.in_map_iff. exists (oDataset o, ds). split.
        -- destruct o as [p mn en dn]. cbn in *. subst.
           now rewrite Nat.add_0_r.
        -- apply List.filter_In. split; [exact Hin | now apply notDisabled_iff].
      * right. exists idx, m, ds. repeat split; trivial.
        rewrite Hentry. now replace (base + S idx)%nat with (S base + idx)%nat by lia.
Qed.

Lemma errors_iff (cfgs : list (string * list moduleDefinition)) (o : offence) :
  In o (List.flat_map
          (fun loaded => moduleErrors (fst loaded) (List.length (snd loaded)) 0
                           (snd loaded))
          cfgs)
  <-> offends cfgs o.
Proof.
  rewrite List.in_flat_map. unfold offends. split.
  - intros ([path cfg] & Hin & Ho). cbn [fst snd] in Ho.
    apply moduleErrors_iff in Ho.
    destruct Ho as (idx & m & ds & H). exists path, cfg, idx, m, ds.
    split; [exact Hin | exact H].
  - intros (path & cfg & idx & m & ds & Hin & H).
    exists (path, cfg). split; [exact Hin|]. cbn [fst snd].
    apply moduleErrors_iff. now exists idx, m, ds.
Qed.

(** The number of datasets in the loaded files whose enabled is missing
    or true. *)
Definition offending (cfgs : list (string * list moduleDefinition)) : nat :=
  List.list_sum
    (List.map
       (fun loaded =>
          List.list_sum
            (List.map
               (fun md =>
                  List.length
                    (List.filter (fun named => notDisabled (snd named)) (Filesets md)))
               (snd loaded)))
       cfgs).

Lemma length_moduleErrors (path : string) (len : nat) (cfg : list moduleDefinition) :
  forall base,
    List.length (moduleErrors path len base cfg)
    = List.list_sum
        (List.map
           (fun md =>
              List.length
                (List.filter (fun named => notDisabled (snd named)) (Filesets md)))
           cfg).
Proof.
  induction cfg as [|md rest IH]; intros base; [reflexivity|].
  cbn [moduleErrors List.map List.list_sum].
  rewrite List.length_app, (IH (S base)). unfold datasetErrors.
  now rewrite List.length_map.
Qed.

Lemma length_errors (cfgs : list (string * list moduleDefinition)) :
  List.length
    (List.flat_map
       (fun loaded => moduleErrors (fst loaded) (List.length (snd loaded)) 0
                        (snd loaded))
       cfgs)
  = offending cfgs.
Proof.
  unfold offending. induction cfgs as [|[path cfg] rest IH]; [reflexivity|].
  cbn [List.flat_map List.map List.list_sum fst snd].
  now rewrite List.length_app, length_moduleErrors, IH.
Qed.

(** X27. ValidateDirModulesDDatasetsDisabled returns nil exactly when the
    modules.d files load and every dataset of every module in them has
    enabled: false.  When loading fails it returns the error that
    ValidateDirModulesD returns, and no dataset is judged.  Otherwise it
    joins one error for each dataset whose enabled is missing or true, and
    only such: the errors are as many as those datasets, every such
    dataset has its error and every error is that of such a dataset; each
    names the file, the module and the dataset, and the entry number (the
    index plus one) exactly when the file holds more than one module. *)
Theorem ValidateDirModulesDDatasetsDisabled_spec :
  match ValidateDirModulesDDatasetsDisabled with
  | Valid =>
      exists cfgs,
        loadModulesD = inl cfgs
        /\ offending cfgs = 0%nat
        /\ forall path cfg md name ds,
             In (path, cfg) cfgs -> In md cfg -> In (name, ds) (Filesets md) ->
             Enabled ds = Some false
  | LoadFailed err => loadModulesD = inr err /\ ValidateDirModulesD = Some err
  | NotDisabled errs =>
      errs <> []
      /\ ValidateDirModulesD = None
      /\ exists cfgs,
           loadModulesD = inl cfgs
           /\ List.length errs = offending cfgs
           /\ forall o, In o errs <-> offends cfgs o
  end.
Proof.
  unfold ValidateDirModulesDDatasetsDisabled, ValidateDirModulesD.
  destruct loadModulesD as [cfgs|err]; [|now split].
  pose proof (errors_iff cfgs) as H.
  pose proof (length_errors cfgs) as Hlen.
  destruct (List.flat_map _ cfgs) as [|o errs].
  - exists cfgs. split; [reflexivity|]. split; [now rewrite <- Hlen|].
    intros path cfg md name ds Hin Hmod Hds.
    destruct (Enabled ds) as [[|]|] eqn:He; [exfalso | reflexivity | exfalso];
      apply List.In_nth_error in Hmod; destruct Hmod as (idx & Hidx);
      apply (proj2 (H {| oPath := path; oModule := Name md;
                         oEntry := if (1 <? List.length cfg)%nat
                                   then Some (idx + 1)%nat else None;
                         oDataset := name |}));
      exists path, cfg, idx, md, ds; cbn; rewrite He; repeat split; trivial;
      discriminate.
  - split; [discriminate|]. split; [reflexivity|]. exists cfgs.
    split; [reflexivity|]. split; [exact Hlen | exact H].
Qed.

End Validate.

(** Two files; the second holds two modules, one of which leaves a
    dataset enabled. *)
Definition exampleSurroundings : surroundings :=
  {| Glob := inl ["modules.d/nginx.yml.disabled"; "modules.d/system.yml.disabled"];
     ReadFile := fun file => inl file;
     Unmarshal := fun contents =>
       if String.eqb contents "modules.d/nginx.yml.disabled"
       then inl [mkModule "nginx" [("access", mkDataset (Some false));
                                   ("error", mkDataset (Some false))]]
       else inl [mkModule "system" [("syslog", mkDataset (Some false))];
                 mkModule "system" [("auth", mkDataset None)]] |}.

Example ValidateDirModulesDDatasetsDisabled_example :
  ValidateDirModulesDDatasetsDisabled exampleSurroundings 80
  = NotDisabled [mkOffence "modules.d/system.yml.disabled" "system" (Some 2%nat) "auth"].
Proof. reflexivity. Qed.

End Mage.
